(** * BitWipers: the wipe engine and the certificate subsystem

    A shallow embedding of [bitwipers/core/patterns.py],
    [bitwipers/core/wiper.py] and [bitwipers/crypto/certificate.py].

    Python [int] is [Z], [bytes] is [list byte], [str] is [string],
    [Optional[T]] is [option T].  Everything the engine takes from its
    surroundings (the cancellation flag another thread sets, the operating
    system's answers, the random source, the clock) is scripted by an
    [Env] record, so that every function below is a program that can be
    run on a concrete input. *)

From Stdlib Require Import ZArith Lia.
From Stdlib.Strings Require Import Byte Ascii.
From stdpp Require Import base tactics option list strings pretty gmap.

Local Open Scope Z_scope.

Abbreviation bytes := (list byte).

#[global] Instance byte_eq_decision : EqDecision byte := Byte.byte_eq_dec.

(* ===================================================================== *)
(** * patterns.py *)
(* ===================================================================== *)

Inductive WipePattern :=
  | ZERO_FILL | ONE_FILL | RANDOM
  | DOD_3_PASS | DOD_7_PASS | GUTMANN
  | NIST_CLEAR | NIST_PURGE.

Definition WipePattern_value (p : WipePattern) : string :=
  match p with
  | ZERO_FILL => "zero_fill"
  | ONE_FILL => "one_fill"
  | RANDOM => "random"
  | DOD_3_PASS => "dod_3_pass"
  | DOD_7_PASS => "dod_7_pass"
  | GUTMANN => "gutmann"
  | NIST_CLEAR => "nist_clear"
  | NIST_PURGE => "nist_purge"
  end.

(** [b * n] on a bytes object: [n] copies, none when [n <= 0]. *)
Definition bytes_mul (b : bytes) (n : Z) : bytes :=
  mjoin (replicate (Z.to_nat n) b).

(** [b[:k]]: the first [k] bytes, or all but the last [-k] when [k < 0]. *)
Definition slice_to (b : bytes) (k : Z) : bytes :=
  if k <? 0 then take (length b - Z.to_nat (- k))%nat b
  else take (Z.to_nat k) b.

(** The random source: [entropy d i] is byte [i] of the [d]-th call of
    [secrets.token_bytes] made by the process. *)
Definition token_bytes (entropy : nat → nat → byte) (draw : nat) (n : Z)
  : string + bytes :=
  if n <? 0 then inl "negative argument not allowed"%string
  else inr (entropy draw <$> seq 0 (Z.to_nat n)).

(** What one [yield] of a pattern generator computes. *)
Inductive pass_source :=
  | Fill (pattern : bytes)     (* pattern * block_size *)
  | Tiled (pattern : bytes)    (* (pattern * (block_size // len(pattern) + 1))[:block_size] *)
  | Random.                    (* secrets.token_bytes(block_size) *)

(** A generator object between two [next] calls: either inside a
    [while True] loop around one [yield], or with a list of yields left. *)
Inductive generator :=
  | Forever (p : pass_source)
  | Passes (ps : list pass_source).

Definition _zero_fill : generator := Forever (Fill [x00]).
Definition _one_fill : generator := Forever (Fill [xff]).
Definition _random_fill : generator := Forever Random.

Definition _dod_3_pass : generator :=
  Passes [Fill [x00]; Fill [xff]; Random].

Definition _dod_7_pass : generator :=
  let patterns : list (option bytes) :=
    [ Some [x00]; Some [xff]; Some [x92]; Some [x49];
      Some [x24]; Some [x00]; None ] in
  Passes ((λ pattern, match pattern with
                      | None => Random
                      | Some b => Fill b
                      end) <$> patterns).

Definition _nist_clear : generator := _random_fill.

Definition _nist_purge : generator :=
  Passes [Random; Fill [x00]; Random].

Definition gutmann_patterns : list bytes :=
  (λ b : byte, [b]) <$>
  [ x55; xaa; x92; x49; x24; x00; x11;
    x22; x33; x44; x55; x66; x77; x88;
    x99; xaa; xbb; xcc; xdd; xee; xff;
    x92; x49; x24; x12; xed; xb8; x74;
    x36; x1b; x8d; xc4; x62; x31; x18 ].

Definition _gutmann_method : generator :=
  Passes ((λ pattern, if (length pattern =? 1)%nat then Fill pattern
                      else Tiled pattern) <$> gutmann_patterns).

(** The enumeration is closed, so the final [raise ValueError] of the
    source has no input that reaches it. *)
Definition get_pattern_data (pattern : WipePattern) : generator :=
  match pattern with
  | ZERO_FILL => _zero_fill
  | ONE_FILL => _one_fill
  | RANDOM => _random_fill
  | DOD_3_PASS => _dod_3_pass
  | DOD_7_PASS => _dod_7_pass
  | NIST_CLEAR => _nist_clear
  | NIST_PURGE => _nist_purge
  | GUTMANN => _gutmann_method
  end.

(** The block a yield produces; [inl] is the text of a raised exception. *)
Definition block_of (entropy : nat → nat → byte) (draw : nat)
    (block_size : Z) (p : pass_source) : string + bytes :=
  match p with
  | Fill pattern => inr (bytes_mul pattern block_size)
  | Tiled pattern =>
      inr (slice_to (bytes_mul pattern (block_size / Z.of_nat (length pattern) + 1))
                    block_size)
  | Random => token_bytes entropy draw block_size
  end.

Definition uses_entropy (p : pass_source) : bool :=
  match p with Random => true | _ => false end.

(** The generator's next pending yield and the generator after it. *)
Definition gen_step (g : generator) : option (pass_source * generator) :=
  match g with
  | Forever p => Some (p, Forever p)
  | Passes [] => None
  | Passes (p :: ps) => Some (p, Passes ps)
  end.

(* ===================================================================== *)
(** * wiper.py: data *)
(* ===================================================================== *)

Inductive WipeStatus := PENDING | IN_PROGRESS | COMPLETED | FAILED | CANCELLED.

Definition WipeStatus_value (s : WipeStatus) : string :=
  match s with
  | PENDING => "pending"
  | IN_PROGRESS => "in_progress"
  | COMPLETED => "completed"
  | FAILED => "failed"
  | CANCELLED => "cancelled"
  end.

(** A naive [datetime], as microseconds on the local clock. *)
Definition datetime := Z.

(** The [metadata] dictionary of the dataclass is left out: nothing in the
    engine or in the certificate code reads or writes it. *)
Record WipeResult := mkWipeResult {
  device_path : string;
  pattern : WipePattern;
  status : WipeStatus;
  start_time : datetime;
  end_time : option datetime;
  bytes_wiped : Z;
  total_bytes : Z;
  passes_completed : Z;
  total_passes : Z;
  error_message : option string;
  verification_hash : option string
}.

Definition new_WipeResult (path : string) (p : WipePattern) (st : WipeStatus)
    (start : datetime) : WipeResult :=
  mkWipeResult path p st start None 0 0 0 0 None None.

(** [WipeResult.duration], in microseconds ([total_seconds()] is this
    number divided by 10^6). *)
Definition duration (r : WipeResult) : Z :=
  match end_time r with
  | Some e => e - start_time r
  | None => 0
  end.

Definition set_status (v : WipeStatus) (r : WipeResult) : WipeResult :=
  mkWipeResult (device_path r) (pattern r) v (start_time r) (end_time r)
    (bytes_wiped r) (total_bytes r) (passes_completed r) (total_passes r)
    (error_message r) (verification_hash r).
Definition set_end_time (v : option datetime) (r : WipeResult) : WipeResult :=
  mkWipeResult (device_path r) (pattern r) (status r) (start_time r) v
    (bytes_wiped r) (total_bytes r) (passes_completed r) (total_passes r)
    (error_message r) (verification_hash r).
Definition set_bytes_wiped (v : Z) (r : WipeResult) : WipeResult :=
  mkWipeResult (device_path r) (pattern r) (status r) (start_time r) (end_time r)
    v (total_bytes r) (passes_completed r) (total_passes r)
    (error_message r) (verification_hash r).
Definition set_total_bytes (v : Z) (r : WipeResult) : WipeResult :=
  mkWipeResult (device_path r) (pattern r) (status r) (start_time r) (end_time r)
    (bytes_wiped r) v (passes_completed r) (total_passes r)
    (error_message r) (verification_hash r).
Definition set_passes_completed (v : Z) (r : WipeResult) : WipeResult :=
  mkWipeResult (device_path r) (pattern r) (status r) (start_time r) (end_time r)
    (bytes_wiped r) (total_bytes r) v (total_passes r)
    (error_message r) (verification_hash r).
Definition set_total_passes (v : Z) (r : WipeResult) : WipeResult :=
  mkWipeResult (device_path r) (pattern r) (status r) (start_time r) (end_time r)
    (bytes_wiped r) (total_bytes r) (passes_completed r) v
    (error_message r) (verification_hash r).
Definition set_error_message (v : option string) (r : WipeResult) : WipeResult :=
  mkWipeResult (device_path r) (pattern r) (status r) (start_time r) (end_time r)
    (bytes_wiped r) (total_bytes r) (passes_completed r) (total_passes r)
    v (verification_hash r).
Definition set_verification_hash (v : option string) (r : WipeResult) : WipeResult :=
  mkWipeResult (device_path r) (pattern r) (status r) (start_time r) (end_time r)
    (bytes_wiped r) (total_bytes r) (passes_completed r) (total_passes r)
    (error_message r) v.

(** [DataWiper.__init__]; [progress_callback] records whether a callback
    was given.  The [_cancelled] attribute belongs to the environment:
    [cancel_operation] is called from another thread. *)
Record DataWiper := mkDataWiper {
  block_size : Z;
  progress_callback : bool;
  verify_wipe : bool
}.

(** How [subprocess.run] ends inside [_quick_format]. *)
Inductive format_outcome :=
  | FormatDone
  | FormatCalledProcessError
  | FormatOtherError (msg : string).

(** The script of the engine's surroundings for one operation. *)
Record Env := mkEnv {
  (** [cancel_after = Some k]: [cancel_operation] has run by the time the
      engine reads [_cancelled] for the [k]-th time (counting from 0), and
      the flag stays set: the class never clears it. *)
  cancel_after : option nat;
  (** the [write] call (counting from 0) that raises [OSError] *)
  write_fault : option nat;
  entropy : nat → nat → byte;
  now : nat → datetime;
  path_exists : bool;          (* os.path.exists *)
  path_isfile : bool;          (* os.path.isfile *)
  opens_for_read : bool;       (* open(path, 'rb') and read(1) succeed *)
  opens_for_update : bool;     (* open(path, 'r+b') succeeds *)
  size_query_fails : bool;     (* the size query raises *)
  read_back_fails : bool;      (* reading the target back raises *)
  quick_format_ends : format_outcome;
  remove_error : option string; (* os.remove raises *)
  sha256_hexdigest : bytes → string (* hashlib.sha256(b).hexdigest() *)
}.

Inductive io_event :=
  | Yielded (block : bytes)            (* the generator handed over a block *)
  | Wrote (offset : nat) (chunk : bytes).

(** The engine's state: the result object, the target's content and the
    open handle's position, how much of the script has been consumed, and
    three logs, newest entry first: device traffic, every value the result
    object has held, and every snapshot handed to the progress callback. *)
Record State := mkState {
  st_result : WipeResult;
  st_data : bytes;
  st_pos : nat;
  st_flag_reads : nat;
  st_write_calls : nat;
  st_draws : nat;
  st_clock_reads : nat;
  st_io : list io_event;
  st_history : list WipeResult;
  st_reported : list WipeResult
}.

Definition init_state (content : bytes) (r : WipeResult) (clock_reads : nat) : State :=
  mkState r content 0 0 0 0 clock_reads [] [r] [].

(** An assignment to a field of the result object. *)
Definition assign (f : WipeResult → WipeResult) (s : State) : State :=
  mkState (f (st_result s)) (st_data s) (st_pos s) (st_flag_reads s)
    (st_write_calls s) (st_draws s) (st_clock_reads s) (st_io s)
    (f (st_result s) :: st_history s) (st_reported s).

(** One read of [self._cancelled]. *)
Definition read_cancelled (env : Env) (s : State) : bool * State :=
  (match cancel_after env with
   | Some k => bool_decide (k ≤ st_flag_reads s)%nat
   | None => false
   end,
   mkState (st_result s) (st_data s) (st_pos s) (S (st_flag_reads s))
     (st_write_calls s) (st_draws s) (st_clock_reads s) (st_io s)
     (st_history s) (st_reported s)).

(** [datetime.now()]. *)
Definition read_clock (env : Env) (s : State) : datetime * State :=
  (now env (st_clock_reads s),
   mkState (st_result s) (st_data s) (st_pos s) (st_flag_reads s)
     (st_write_calls s) (st_draws s) (S (st_clock_reads s)) (st_io s)
     (st_history s) (st_reported s)).

(** [_update_progress]: the callback, when there is one, sees the result.
    The callback is an observer: it returns, and it does not touch the
    result or the target. *)
Definition _update_progress (self : DataWiper) (s : State) : State :=
  if progress_callback self then
    mkState (st_result s) (st_data s) (st_pos s) (st_flag_reads s)
      (st_write_calls s) (st_draws s) (st_clock_reads s) (st_io s)
      (st_history s) (st_result s :: st_reported s)
  else s.

(** [f.seek(0)]. *)
Definition seek0 (s : State) : State :=
  mkState (st_result s) (st_data s) 0 (st_flag_reads s)
    (st_write_calls s) (st_draws s) (st_clock_reads s) (st_io s)
    (st_history s) (st_reported s).

(** Content after writing [chunk] at [pos]: a gap past the end reads as
    zero bytes, the file grows when the chunk runs past the end. *)
Definition overwrite (content : bytes) (pos : nat) (chunk : bytes) : bytes :=
  resize pos x00 content ++ chunk ++ drop (pos + length chunk) content.

(** [f.write(chunk)] followed by [flush] and [fsync]: the whole chunk
    reaches the target and its length is returned, or the call raises and
    nothing is written. *)
Definition device_write (env : Env) (chunk : bytes) (s : State)
  : string * State + Z * State :=
  let counted :=
    mkState (st_result s) (st_data s) (st_pos s) (st_flag_reads s)
      (S (st_write_calls s)) (st_draws s) (st_clock_reads s) (st_io s)
      (st_history s) (st_reported s) in
  if bool_decide (write_fault env = Some (st_write_calls s)) then
    inl ("[Errno 5] Input/output error"%string, counted)
  else
    inr (Z.of_nat (length chunk),
         mkState (st_result s) (overwrite (st_data s) (st_pos s) chunk)
           (st_pos s + length chunk)%nat (st_flag_reads s)
           (S (st_write_calls s)) (st_draws s) (st_clock_reads s)
           (Wrote (st_pos s) chunk :: st_io s)
           (st_history s) (st_reported s)).

(** How a [next()] on the pattern generator ends. *)
Inductive gen_outcome :=
  | GenYield (block : bytes) (g : generator) (s : State)
  | GenStop
  | GenRaise (msg : string) (s : State).

Definition gen_next (self : DataWiper) (env : Env) (g : generator) (s : State)
  : gen_outcome :=
  match gen_step g with
  | None => GenStop
  | Some (p, g') =>
      let s' :=
        mkState (st_result s) (st_data s) (st_pos s) (st_flag_reads s)
          (st_write_calls s) (if uses_entropy p then S (st_draws s) else st_draws s)
          (st_clock_reads s) (st_io s) (st_history s) (st_reported s) in
      match block_of (entropy env) (st_draws s) (block_size self) p with
      | inl msg => GenRaise msg s'
      | inr block =>
          GenYield block g'
            (mkState (st_result s') (st_data s') (st_pos s') (st_flag_reads s')
               (st_write_calls s') (st_draws s') (st_clock_reads s')
               (Yielded block :: st_io s') (st_history s') (st_reported s'))
      end
  end.

(* ===================================================================== *)
(** * wiper.py: the engine *)
(* ===================================================================== *)

(** How a block of statements inside [_perform_wipe] ends. *)
Inductive flow (A : Type) :=
  | Next (a : A) (s : State)            (* control falls through *)
  | ReturnFalse (s : State)             (* [return False] after a flag read *)
  | Raise (msg : string) (s : State).   (* an exception leaves the block *)
Arguments Next {A} a s.
Arguments ReturnFalse {A} s.
Arguments Raise {A} msg s.

(** How [_perform_wipe] and [_perform_file_wipe] return.  [WipeDone] is
    [return True]; the other two are the source's two ways of returning
    [False], kept apart so that theorems can tell them. *)
Inductive wipe_exit := WipeDone | WipeCancelled | WipeError.

Definition success (e : wipe_exit) : bool :=
  match e with WipeDone => true | _ => false end.

Definition _get_pass_count (pattern : WipePattern) : Z :=
  match pattern with
  | ZERO_FILL => 1
  | ONE_FILL => 1
  | RANDOM => 1
  | DOD_3_PASS => 3
  | DOD_7_PASS => 7
  | NIST_CLEAR => 1
  | NIST_PURGE => 3
  | GUTMANN => 35
  end.

(** The chunk of one iteration: the block, or its first bytes. *)
Definition next_chunk (self : DataWiper) (pass_data : bytes) (remaining : Z) : bytes :=
  let chunk_size := Z.min (block_size self) remaining in
  if chunk_size =? block_size self then pass_data
  else slice_to pass_data chunk_size.

(** [str(e)] for the [PermissionError] of a refused [open(path, 'r+b')]. *)
Definition permission_denied (s : State) : string :=
  "[Errno 13] Permission denied: '" +:+ device_path (st_result s) +:+ "'".

(** ** [_perform_wipe] *)

(** Body of [while bytes_written_pass < result.total_bytes]. *)
Definition write_block (self : DataWiper) (env : Env) (pass_data : bytes)
    (bytes_written_pass bytes_written_total : Z) (s : State) : flow (Z * Z) :=
  let '(cancelled, s) := read_cancelled env s in
  if cancelled then ReturnFalse s
  else
    let remaining := total_bytes (st_result s) - bytes_written_pass in
    let chunk := next_chunk self pass_data remaining in
    match device_write env chunk s with
    | inl (msg, s) => Raise msg s
    | inr (bytes_written, s) =>
        let bytes_written_pass := bytes_written_pass + bytes_written in
        let bytes_written_total := bytes_written_total + bytes_written in
        let s := assign (set_bytes_wiped bytes_written_total) s in
        let s := if progress_callback self then _update_progress self s else s in
        Next (bytes_written_pass, bytes_written_total) s
    end.

(** The [while] loop; [None] when [fuel] iterations did not end it. *)
Fixpoint write_loop (fuel : nat) (self : DataWiper) (env : Env) (pass_data : bytes)
    (bytes_written_pass bytes_written_total : Z) (s : State)
  : option (flow (Z * Z)) :=
  if bytes_written_pass <? total_bytes (st_result s) then
    match fuel with
    | O => None
    | S fuel =>
        match write_block self env pass_data bytes_written_pass bytes_written_total s with
        | Next (bytes_written_pass, bytes_written_total) s =>
            write_loop fuel self env pass_data bytes_written_pass bytes_written_total s
        | ReturnFalse s => Some (ReturnFalse s)
        | Raise msg s => Some (Raise msg s)
        end
    end
  else Some (Next (bytes_written_pass, bytes_written_total) s).

(** Body of [for pass_data in pattern_generator], up to the [break] test. *)
Definition run_pass (fuel : nat) (self : DataWiper) (env : Env) (pass_data : bytes)
    (pass_number bytes_written_total : Z) (s : State) : option (flow (Z * Z)) :=
  let '(cancelled, s) := read_cancelled env s in
  if cancelled then Some (ReturnFalse s)
  else
    let pass_number := pass_number + 1 in
    let s := assign (set_passes_completed pass_number) s in
    let s := seek0 s in
    match write_loop fuel self env pass_data 0 bytes_written_total s with
    | Some (Next (_, bytes_written_total) s) =>
        Some (Next (pass_number, bytes_written_total) s)
    | Some (ReturnFalse s) => Some (ReturnFalse s)
    | Some (Raise msg s) => Some (Raise msg s)
    | None => None
    end.

(** The [for] loop over the generator, with its [break]. *)
Fixpoint pass_loop (fuel wfuel : nat) (self : DataWiper) (env : Env) (g : generator)
    (pass_number bytes_written_total : Z) (s : State) : option (flow ()) :=
  match fuel with
  | O => None
  | S fuel =>
      match gen_next self env g s with
      | GenStop => Some (Next () s)
      | GenRaise msg s => Some (Raise msg s)
      | GenYield pass_data g s =>
          match run_pass wfuel self env pass_data pass_number bytes_written_total s with
          | Some (Next (pass_number, bytes_written_total) s) =>
              if total_passes (st_result s) <=? pass_number then Some (Next () s)
              else pass_loop fuel wfuel self env g pass_number bytes_written_total s
          | Some (ReturnFalse s) => Some (ReturnFalse s)
          | Some (Raise msg s) => Some (Raise msg s)
          | None => None
          end
      end
  end.

(** The [try] block and its [except Exception] handler. *)
Definition _perform_wipe (fuel : nat) (self : DataWiper) (env : Env)
    (pattern : WipePattern) (s : State) : option (wipe_exit * State) :=
  if opens_for_update env then
    match pass_loop fuel fuel self env (get_pattern_data pattern) 0 0 s with
    | Some (Next _ s) => Some (WipeDone, s)
    | Some (ReturnFalse s) => Some (WipeCancelled, s)
    | Some (Raise msg s) => Some (WipeError, assign (set_error_message (Some msg)) s)
    | None => None
    end
  else
    Some (WipeError, assign (set_error_message (Some (permission_denied s))) s).

(** ** [_perform_file_wipe] *)

Definition write_file_block (self : DataWiper) (env : Env) (pass_data : bytes)
    (bytes_written : Z) (s : State) : flow Z :=
  let '(cancelled, s) := read_cancelled env s in
  if cancelled then ReturnFalse s
  else
    let remaining := total_bytes (st_result s) - bytes_written in
    let chunk := next_chunk self pass_data remaining in
    match device_write env chunk s with
    | inl (msg, s) => Raise msg s
    | inr (written, s) =>
        let bytes_written := bytes_written + written in
        let s := assign (set_bytes_wiped bytes_written) s in
        let s := if progress_callback self then _update_progress self s else s in
        Next bytes_written s
    end.

Fixpoint write_file_loop (fuel : nat) (self : DataWiper) (env : Env)
    (pass_data : bytes) (bytes_written : Z) (s : State) : option (flow Z) :=
  if bytes_written <? total_bytes (st_result s) then
    match fuel with
    | O => None
    | S fuel =>
        match write_file_block self env pass_data bytes_written s with
        | Next bytes_written s => write_file_loop fuel self env pass_data bytes_written s
        | ReturnFalse s => Some (ReturnFalse s)
        | Raise msg s => Some (Raise msg s)
        end
    end
  else Some (Next bytes_written s).

(** Body of [for pass_number, pass_data in enumerate(pattern_generator, 1)]. *)
Definition run_file_pass (fuel : nat) (self : DataWiper) (env : Env)
    (pass_data : bytes) (pass_number : Z) (s : State) : option (flow ()) :=
  let '(cancelled, s) := read_cancelled env s in
  if cancelled then Some (ReturnFalse s)
  else
    let s := assign (set_passes_completed pass_number) s in
    if opens_for_update env then
      let s := seek0 s in
      match write_file_loop fuel self env pass_data 0 s with
      | Some (Next _ s) => Some (Next () s)
      | Some (ReturnFalse s) => Some (ReturnFalse s)
      | Some (Raise msg s) => Some (Raise msg s)
      | None => None
      end
    else Some (Raise (permission_denied s) s).

(** [pass_number] is the number [enumerate] hands to the next iteration. *)
Fixpoint file_pass_loop (fuel wfuel : nat) (self : DataWiper) (env : Env)
    (g : generator) (pass_number : Z) (s : State) : option (flow ()) :=
  match fuel with
  | O => None
  | S fuel =>
      match gen_next self env g s with
      | GenStop => Some (Next () s)
      | GenRaise msg s => Some (Raise msg s)
      | GenYield pass_data g s =>
          match run_file_pass wfuel self env pass_data pass_number s with
          | Some (Next _ s) =>
              if total_passes (st_result s) <=? pass_number then Some (Next () s)
              else file_pass_loop fuel wfuel self env g (pass_number + 1) s
          | Some (ReturnFalse s) => Some (ReturnFalse s)
          | Some (Raise msg s) => Some (Raise msg s)
          | None => None
          end
      end
  end.

Definition _perform_file_wipe (fuel : nat) (self : DataWiper) (env : Env)
    (pattern : WipePattern) (s : State) : option (wipe_exit * State) :=
  match file_pass_loop fuel fuel self env (get_pattern_data pattern) 1 s with
  | Some (Next _ s) => Some (WipeDone, s)
  | Some (ReturnFalse s) => Some (WipeCancelled, s)
  | Some (Raise msg s) => Some (WipeError, assign (set_error_message (Some msg)) s)
  | None => None
  end.

(** ** The public operations *)

Definition _validate_device (env : Env) : bool :=
  if negb (path_exists env) then false
  else if opens_for_read env then true
  else false.

(** Every exception inside [_get_device_size] turns into the size 0. *)
Definition _get_device_size (env : Env) (content : bytes) : Z :=
  if size_query_fails env then 0 else Z.of_nat (length content).

(** The target is read back in [read(block_size)] steps until a read
    returns nothing; an exception turns into the empty string. *)
Definition _verify_wipe_completion (self : DataWiper) (env : Env) (s : State) : string :=
  if read_back_fails env then ""%string
  else sha256_hexdigest env (if block_size self =? 0 then [] else st_data s).

(** [_quick_format] swallows [CalledProcessError] only. *)
Definition _quick_format (env : Env) : option string :=
  match quick_format_ends env with
  | FormatDone => None
  | FormatCalledProcessError => None
  | FormatOtherError msg => Some msg
  end.

(** [result.end_time = datetime.now()]. *)
Definition stamp_end (env : Env) (s : State) : State :=
  let '(t, s) := read_clock env s in
  assign (set_end_time (Some t)) s.

(** The handler [except Exception as e] of the two public operations. *)
Definition on_exception (env : Env) (msg : string) (s : State) : State :=
  let s := assign (set_status FAILED) s in
  let s := assign (set_error_message (Some msg)) s in
  stamp_end env s.

(** The state in which [wipe_device] calls [_perform_wipe]. *)
Definition device_ready (self : DataWiper) (env : Env) (content : bytes)
    (path : string) (pattern : WipePattern) : State :=
  let s := init_state content (new_WipeResult path pattern PENDING (now env 0)) 1 in
  let device_size := _get_device_size env content in
  let s := assign (set_total_bytes device_size) s in
  let s := assign (set_total_passes (_get_pass_count pattern)) s in
  let s := assign (set_status IN_PROGRESS) s in
  _update_progress self s.

(** The [if success and not self._cancelled / elif / else] of both
    operations, up to the post-wipe step. *)
Definition conclude (env : Env) (e : wipe_exit) (s : State) : WipeStatus * State :=
  let '(completed, s) :=
    if success e then
      let '(cancelled, s) := read_cancelled env s in (negb cancelled, s)
    else (false, s) in
  if completed then (COMPLETED, stamp_end env (assign (set_status COMPLETED) s))
  else
    let '(cancelled, s) := read_cancelled env s in
    if cancelled then (CANCELLED, stamp_end env (assign (set_status CANCELLED) s))
    else (FAILED, stamp_end env (assign (set_status FAILED) s)).

Definition wipe_device (fuel : nat) (self : DataWiper) (env : Env) (content : bytes)
    (path : string) (pattern : WipePattern) (quick_format : bool) : option State :=
  if negb (_validate_device env) then
    let s := init_state content (new_WipeResult path pattern PENDING (now env 0)) 1 in
    let s := assign (set_status FAILED) s in
    Some (assign (set_error_message
                    (Some ("Invalid or inaccessible device: " +:+ path))) s)
  else
    match _perform_wipe fuel self env pattern (device_ready self env content path pattern) with
    | None => None
    | Some (e, s) =>
        let '(st, s) := conclude env e s in
        let s :=
          match st with
          | COMPLETED =>
              let s :=
                if verify_wipe self then
                  assign (set_verification_hash
                            (Some (_verify_wipe_completion self env s))) s
                else s in
              if quick_format then
                match _quick_format env with
                | Some msg => on_exception env msg s
                | None => s
                end
              else s
          | _ => s
          end in
        Some (_update_progress self s)
    end.

(** The state in which [wipe_file] calls [_perform_file_wipe]. *)
Definition file_ready (self : DataWiper) (env : Env) (content : bytes)
    (path : string) (pattern : WipePattern) : State :=
  let s := init_state content (new_WipeResult path pattern PENDING (now env 0)) 1 in
  let s := assign (set_total_bytes (Z.of_nat (length content))) s in
  let s := assign (set_total_passes (_get_pass_count pattern)) s in
  let s := assign (set_status IN_PROGRESS) s in
  _update_progress self s.

Definition wipe_file (fuel : nat) (self : DataWiper) (env : Env) (content : bytes)
    (path : string) (pattern : WipePattern) (remove_file : bool) : option State :=
  let s0 := init_state content (new_WipeResult path pattern PENDING (now env 0)) 1 in
  if negb (path_exists env) || negb (path_isfile env) then
    let s := assign (set_status FAILED) s0 in
    Some (assign (set_error_message (Some ("File not found: " +:+ path))) s)
  else if size_query_fails env then
    Some (_update_progress self
            (on_exception env "[Errno 2] No such file or directory" s0))
  else
    match _perform_file_wipe fuel self env pattern (file_ready self env content path pattern) with
    | None => None
    | Some (e, s) =>
        let '(st, s) := conclude env e s in
        let s :=
          match st with
          | COMPLETED =>
              if remove_file then
                match remove_error env with
                | Some msg => on_exception env msg s
                | None => s
                end
              else s
          | _ => s
          end in
        Some (_update_progress self s)
    end.

(* ===================================================================== *)
(** * certificate.py *)
(* ===================================================================== *)

(** ** [bytes.hex], [bytes.fromhex] and [str.upper] *)

Definition hex_digit (n : N) : ascii :=
  ascii_of_N (if (n <? 10)%N then 48 + n else 87 + n)%N.

Fixpoint bytes_hex (b : bytes) : string :=
  match b with
  | [] => EmptyString
  | x :: b =>
      let n := Byte.to_N x in
      String (hex_digit (n / 16)%N) (String (hex_digit (n mod 16)%N) (bytes_hex b))
  end.

(** A hexadecimal digit in either case. *)
Definition hex_value (c : ascii) : option N :=
  let n := N_of_ascii c in
  if ((48 <=? n) && (n <=? 57))%N then Some (n - 48)%N
  else if ((97 <=? n) && (n <=? 102))%N then Some (n - 87)%N
  else if ((65 <=? n) && (n <=? 70))%N then Some (n - 55)%N
  else None.

(** Space, tab, line feed, vertical tab, form feed, carriage return. *)
Definition is_ascii_space (c : ascii) : bool :=
  let n := N_of_ascii c in
  ((n =? 32) || ((9 <=? n) && (n <=? 13)))%N.

(** [bytes.fromhex]: white space is skipped in front of a byte, the two
    digits of a byte are adjacent; [None] is the [ValueError]. *)
Fixpoint bytes_fromhex (s : string) : option bytes :=
  match s with
  | EmptyString => Some []
  | String c rest =>
      if is_ascii_space c then bytes_fromhex rest
      else
        match hex_value c, rest with
        | Some hi, String d rest' =>
            match hex_value d with
            | Some lo =>
                match Byte.of_N (16 * hi + lo), bytes_fromhex rest' with
                | Some x, Some xs => Some (x :: xs)
                | _, _ => None
                end
            | None => None
            end
        | _, _ => None
        end
  end.

Definition ascii_upper (c : ascii) : ascii :=
  let n := N_of_ascii c in
  if ((97 <=? n) && (n <=? 122))%N then ascii_of_N (n - 32) else c.

Fixpoint str_upper (s : string) : string :=
  match s with
  | EmptyString => EmptyString
  | String c s => String (ascii_upper c) (str_upper s)
  end.

(** [str.encode()] on the ASCII texts the certificate code encodes. *)
Definition str_encode (s : string) : bytes := String.list_byte_of_string s.

(** ** The libraries behind the certificate code *)

(** A value of a certificate field as [json.dumps] sees it; a [float] of
    seconds is carried as its number of microseconds. *)
Inductive jvalue :=
  | JStr (s : string)
  | JInt (n : Z)
  | JFloat (microseconds : Z)
  | JNull.

#[global] Instance jvalue_eq_dec : EqDecision jvalue.
Proof. solve_decision. Defined.

Definition jopt (o : option string) : jvalue :=
  match o with Some s => JStr s | None => JNull end.

(** [hashlib], [json], [datetime] and the RSA key objects of
    [cryptography].  A signing call can raise ([inl]); [pss_verify] is
    [true] exactly when the library's [verify] returns without raising. *)
Class Backend := {
  private_key_t : Type;
  public_key_t : Type;
  public_key_of : private_key_t → public_key_t;
  pss_sign : private_key_t → bytes → bytes → string + bytes; (* key, salt, data *)
  pss_verify : public_key_t → bytes → bytes → bool;          (* key, signature, data *)
  sha256_hex : bytes → string;
  json_dumps_sorted : gmap string jvalue → string;  (* json.dumps(d, sort_keys=True) *)
  isoformat : datetime → string;
  isoformat_utc : datetime → string;
  strftime_compact : datetime → string              (* strftime("%Y%m%d%H%M%S") *)
}.

(** What one issuance draws from the clock and from the random sources. *)
Record IssueEnv := mkIssueEnv {
  id_clock : datetime;        (* datetime.now() *)
  id_entropy : nat → byte;    (* secrets.token_hex(4) *)
  created_clock : datetime;   (* datetime.now(timezone.utc) *)
  pss_salt : bytes
}.

(** ** The certificate *)

Module Cert.
Record WipeCertificate := mk {
  certificate_id : string;
  device_path : string;
  device_serial : option string;
  device_model : option string;
  device_size_bytes : Z;
  wipe_pattern : string;
  wipe_start_time : string;
  wipe_end_time : string;
  wipe_duration_seconds : Z;      (* microseconds *)
  bytes_wiped : Z;
  passes_completed : Z;
  verification_hash : option string;
  status : string;
  operator : string;
  organization : string;
  nist_compliance : string;
  certificate_hash : string;
  digital_signature : string;
  created_at : string;
  version : string
}.

Definition set_certificate_hash (v : string) (c : WipeCertificate) : WipeCertificate :=
  mk (certificate_id c) (device_path c) (device_serial c) (device_model c)
     (device_size_bytes c) (wipe_pattern c) (wipe_start_time c) (wipe_end_time c)
     (wipe_duration_seconds c) (bytes_wiped c) (passes_completed c)
     (verification_hash c) (status c) (operator c) (organization c)
     (nist_compliance c) v (digital_signature c) (created_at c) (version c).

Definition set_digital_signature (v : string) (c : WipeCertificate) : WipeCertificate :=
  mk (certificate_id c) (device_path c) (device_serial c) (device_model c)
     (device_size_bytes c) (wipe_pattern c) (wipe_start_time c) (wipe_end_time c)
     (wipe_duration_seconds c) (bytes_wiped c) (passes_completed c)
     (verification_hash c) (status c) (operator c) (organization c)
     (nist_compliance c) (certificate_hash c) v (created_at c) (version c).
End Cert.

Abbreviation WipeCertificate := Cert.WipeCertificate.

(** The fields of the dataclass, in declaration order. *)
Inductive cert_field :=
  | F_certificate_id | F_device_path | F_device_serial | F_device_model
  | F_device_size_bytes | F_wipe_pattern | F_wipe_start_time | F_wipe_end_time
  | F_wipe_duration_seconds | F_bytes_wiped | F_passes_completed
  | F_verification_hash | F_status | F_operator | F_organization
  | F_nist_compliance | F_certificate_hash | F_digital_signature
  | F_created_at | F_version.

Definition cert_fields : list cert_field :=
  [ F_certificate_id; F_device_path; F_device_serial; F_device_model;
    F_device_size_bytes; F_wipe_pattern; F_wipe_start_time; F_wipe_end_time;
    F_wipe_duration_seconds; F_bytes_wiped; F_passes_completed;
    F_verification_hash; F_status; F_operator; F_organization;
    F_nist_compliance; F_certificate_hash; F_digital_signature;
    F_created_at; F_version ].

Definition field_name (f : cert_field) : string :=
  match f with
  | F_certificate_id => "certificate_id"
  | F_device_path => "device_path"
  | F_device_serial => "device_serial"
  | F_device_model => "device_model"
  | F_device_size_bytes => "device_size_bytes"
  | F_wipe_pattern => "wipe_pattern"
  | F_wipe_start_time => "wipe_start_time"
  | F_wipe_end_time => "wipe_end_time"
  | F_wipe_duration_seconds => "wipe_duration_seconds"
  | F_bytes_wiped => "bytes_wiped"
  | F_passes_completed => "passes_completed"
  | F_verification_hash => "verification_hash"
  | F_status => "status"
  | F_operator => "operator"
  | F_organization => "organization"
  | F_nist_compliance => "nist_compliance"
  | F_certificate_hash => "certificate_hash"
  | F_digital_signature => "digital_signature"
  | F_created_at => "created_at"
  | F_version => "version"
  end.

Definition field_value (f : cert_field) (c : WipeCertificate) : jvalue :=
  match f with
  | F_certificate_id => JStr (Cert.certificate_id c)
  | F_device_path => JStr (Cert.device_path c)
  | F_device_serial => jopt (Cert.device_serial c)
  | F_device_model => jopt (Cert.device_model c)
  | F_device_size_bytes => JInt (Cert.device_size_bytes c)
  | F_wipe_pattern => JStr (Cert.wipe_pattern c)
  | F_wipe_start_time => JStr (Cert.wipe_start_time c)
  | F_wipe_end_time => JStr (Cert.wipe_end_time c)
  | F_wipe_duration_seconds => JFloat (Cert.wipe_duration_seconds c)
  | F_bytes_wiped => JInt (Cert.bytes_wiped c)
  | F_passes_completed => JInt (Cert.passes_completed c)
  | F_verification_hash => jopt (Cert.verification_hash c)
  | F_status => JStr (Cert.status c)
  | F_operator => JStr (Cert.operator c)
  | F_organization => JStr (Cert.organization c)
  | F_nist_compliance => JStr (Cert.nist_compliance c)
  | F_certificate_hash => JStr (Cert.certificate_hash c)
  | F_digital_signature => JStr (Cert.digital_signature c)
  | F_created_at => JStr (Cert.created_at c)
  | F_version => JStr (Cert.version c)
  end.

(** [WipeCertificate.to_dict], that is [dataclasses.asdict]. *)
Definition to_dict (c : WipeCertificate) : gmap string jvalue :=
  list_to_map ((λ f, (field_name f, field_value f c)) <$> cert_fields).

(** [d.pop(key, default)]. *)
Definition dict_pop (key : string) (default : jvalue) (d : gmap string jvalue)
  : jvalue * gmap string jvalue :=
  (match d !! key with Some v => v | None => default end, delete key d).

Section certificate.
Context `{Backend}.

Record CertificateGenerator := mkCertificateGenerator {
  gen_organization : string;
  gen_operator : string;
  private_key : private_key_t;
  public_key : public_key_t
}.

(** [__init__], with the loaded or freshly generated key as [key]. *)
Definition new_CertificateGenerator (key : private_key_t)
    (organization operator : string) : CertificateGenerator :=
  mkCertificateGenerator organization operator key (public_key_of key).

Definition _generate_certificate_id (ienv : IssueEnv) : string :=
  let timestamp := strftime_compact (id_clock ienv) in
  let random_part := str_upper (bytes_hex (id_entropy ienv <$> seq 0 4)) in
  "BW-" +:+ timestamp +:+ "-" +:+ random_part.

Definition _sign_data (self : CertificateGenerator) (salt data : bytes)
  : string + bytes :=
  pss_sign (private_key self) salt data.

Definition _verify_signature (self : CertificateGenerator) (data signature : bytes)
  : bool :=
  pss_verify (public_key self) signature data.

(** The text that is hashed: the dictionary without its two last-filled
    entries, dumped with sorted keys. *)
Definition signed_dict (c : WipeCertificate) : gmap string jvalue :=
  let cert_dict := to_dict c in
  let '(_, cert_dict) := dict_pop "certificate_hash" JNull cert_dict in
  let '(_, cert_dict) := dict_pop "digital_signature" JNull cert_dict in
  cert_dict.

Definition cert_digest (c : WipeCertificate) : string :=
  sha256_hex (str_encode (json_dumps_sorted (signed_dict c))).

(** [inl] is the text of the exception that reaches the caller. *)
Definition generate_certificate (self : CertificateGenerator)
    (wipe_result : WipeResult) (device_info : option (gmap string string))
    (ienv : IssueEnv) : string + WipeCertificate :=
  let device_info := default ∅ device_info in
  let cert_id := _generate_certificate_id ienv in
  let cert_data :=
    Cert.mk cert_id
      (device_path wipe_result)
      (device_info !! "serial_number"%string)
      (device_info !! "model"%string)
      (total_bytes wipe_result)
      (WipePattern_value (pattern wipe_result))
      (isoformat (start_time wipe_result))
      (match end_time wipe_result with
       | Some e => isoformat e
       | None => ""%string
       end)
      (duration wipe_result)
      (bytes_wiped wipe_result)
      (passes_completed wipe_result)
      (verification_hash wipe_result)
      (WipeStatus_value (status wipe_result))
      (gen_operator self)
      (gen_organization self)
      "NIST SP 800-88 Rev. 1"
      "" ""
      (isoformat_utc (created_clock ienv))
      "1.0" in
  let cert_hash := cert_digest cert_data in
  let cert_data := Cert.set_certificate_hash cert_hash cert_data in
  match _sign_data self (pss_salt ienv) (str_encode cert_hash) with
  | inl msg => inl msg
  | inr signature =>
      inr (Cert.set_digital_signature (bytes_hex signature) cert_data)
  end.

(** Every exception inside the [try] block turns into [False]. *)
Definition verify_certificate (self : CertificateGenerator)
    (certificate : WipeCertificate) : bool :=
  let cert_dict := to_dict certificate in
  let '(original_hash, cert_dict) := dict_pop "certificate_hash" (JStr "") cert_dict in
  let '(original_signature, cert_dict) := dict_pop "digital_signature" (JStr "") cert_dict in
  let cert_json := json_dumps_sorted cert_dict in
  let expected_hash := sha256_hex (str_encode cert_json) in
  if bool_decide (original_hash ≠ JStr expected_hash) then false
  else
    match original_signature with
    | JStr text =>
        match bytes_fromhex text with
        | Some signature_bytes =>
            _verify_signature self (str_encode expected_hash) signature_bytes
        | None => false
        end
    | _ => false
    end.
End certificate.


(* ===================================================================== *)
(** * patterns.py: [get_recommended_pattern] *)
(* ===================================================================== *)

(** [str.lower] on text in the ASCII range (on other text Python lowers
    the letters outside that range as well). *)
Definition ascii_lower (c : ascii) : ascii :=
  let n := N_of_ascii c in
  if ((65 <=? n) && (n <=? 90))%N then ascii_of_N (n + 32) else c.

Fixpoint str_lower (s : string) : string :=
  match s with
  | EmptyString => EmptyString
  | String c s => String (ascii_lower c) (str_lower s)
  end.

Definition get_recommended_pattern (storage_type : string) : WipePattern :=
  let storage_type := str_lower storage_type in
  if bool_decide (storage_type ∈ ["ssd"; "nvme"; "flash"]%string) then NIST_CLEAR
  else if bool_decide (storage_type ∈ ["hdd"; "hard_disk"]%string) then NIST_PURGE
  else NIST_CLEAR.


(* ===================================================================== *)
(** * logger.py: what is written to the log *)
(* ===================================================================== *)

(** In this part a Python [str] is the list of its characters, so that
    [len], slices and [in] are the list operations. *)
Abbreviation text := (list ascii).

Definition lit (s : string) : text := String.list_ascii_of_string s.

Definition LF : ascii := "010"%char.
Definition CR : ascii := "013"%char.
Definition TAB : ascii := "009"%char.

(** [s.replace(old, new)] for an [old] of one character. *)
Definition replace_char (old : ascii) (new : text) (s : text) : text :=
  s ≫= λ c, if decide (c = old) then new else [c].

(** [needle in hay] on two strings. *)
Fixpoint starts_with (needle hay : text) : bool :=
  match needle, hay with
  | [], _ => true
  | _ :: _, [] => false
  | a :: needle, b :: hay => bool_decide (a = b) && starts_with needle hay
  end.

Fixpoint str_in (needle hay : text) : bool :=
  starts_with needle hay ||
  match hay with
  | [] => false
  | _ :: hay => str_in needle hay
  end.

(** [sep.join(parts)]. *)
Fixpoint str_join (sep : text) (parts : list text) : text :=
  match parts with
  | [] => []
  | [p] => p
  | p :: parts => p ++ sep ++ str_join sep parts
  end.

(** [d[k] = v] on a dictionary, which keeps its keys in the order of
    their first insertion. *)
Fixpoint dict_set (k v : text) (d : list (text * text)) : list (text * text) :=
  match d with
  | [] => [(k, v)]
  | (k', v') :: d => if decide (k' = k) then (k, v) :: d else (k', v') :: dict_set k v d
  end.

(** The message is a [str] already (the [str(message)] of the source
    does nothing then). *)
Definition _sanitize_message (message : text) : text :=
  let sanitized := replace_char CR (lit "\r") (replace_char LF (lit "\n") message) in
  let sanitized := replace_char TAB (lit "\t") sanitized in
  if (1000 <? length sanitized)%nat then take 997 sanitized ++ lit "..."
  else sanitized.

Definition sensitive_keys : list text :=
  lit <$> [ "password"; "passwd"; "pwd"; "secret"; "key"; "token";
            "auth"; "credential"; "private"; "hash"; "signature" ]%string.

(** The context holds, in the order of the keyword arguments, the [str()]
    of every key and of every value; [str.lower] is modelled on keys in
    the ASCII range. *)
Definition _sanitize_context (context : list (text * text)) : list (text * text) :=
  foldl (λ sanitized '(key, value),
           let clean_key := replace_char " " (lit "_") (ascii_lower <$> key) in
           if existsb (λ sensitive, str_in sensitive clean_key) sensitive_keys then
             dict_set clean_key (lit "[REDACTED]") sanitized
           else
             let str_value := value in
             let sanitized_value := _sanitize_message str_value in
             let sanitized_value :=
               if (100 <? length sanitized_value)%nat
               then take 97 sanitized_value ++ lit "..."
               else sanitized_value in
             dict_set clean_key sanitized_value sanitized)
        [] context.

(** The text [_log] hands to [logging.Logger.log]. *)
Definition _log (message : text) (kwargs : list (text * text)) : text :=
  let sanitized_message := _sanitize_message message in
  match kwargs with
  | [] => sanitized_message
  | _ =>
      let sanitized_kwargs := _sanitize_context kwargs in
      let context_str :=
        str_join (lit " | ") ((λ '(k, v), k ++ lit "=" ++ v) <$> sanitized_kwargs) in
      sanitized_message ++ lit " | " ++ context_str
  end.

(* ===================================================================== *)
(** * device_detector.py: classification and validation *)
(* ===================================================================== *)

(** [needle in hay] on two [str] values. *)
Definition contains (needle hay : string) : bool := str_in (lit needle) (lit hay).

(** [str.lower] is modelled on text in the ASCII range. *)
Definition _classify_device_type (device_info : string) : string :=
  let device_info := str_lower device_info in
  if contains "ssd" device_info || contains "solid state" device_info then "SSD"
  else if contains "nvme" device_info then "NVMe"
  else if contains "usb" device_info || contains "removable" device_info then "USB"
  else if contains "cd" device_info || contains "dvd" device_info then "Optical"
  else if contains "floppy" device_info then "Floppy"
  else "HDD".

(** The dictionary [validate_device] returns. *)
Record Validation := mkValidation {
  v_valid : bool;
  v_exists : bool;
  v_readable : bool;
  v_writable : bool;
  v_size : Z;
  v_type : string;
  v_error : option string
}.

(** [DeviceDetector.validate_device], on the surroundings the engine
    meets: the same answers of [os.path.exists], of the two [open] calls
    and of the size query.  The size of a regular file comes from
    [os.path.getsize], whose exception leaves the function through the
    handler around the size block; for any other target the exceptions of
    [blockdev] and of the fallback [seek] are swallowed and the size stays
    0, on every platform. *)
Definition validate_device (env : Env) (content : bytes) (device_path : string)
  : Validation :=
  if negb (path_exists env) then
    mkValidation false false false false 0 "unknown"
      (Some ("Device " +:+ device_path +:+ " does not exist"))
  else if negb (opens_for_read env) then
    mkValidation false true false false 0 "unknown"
      (Some ("Cannot read from " +:+ device_path))
  else if negb (opens_for_update env) then
    mkValidation false true true false 0 "unknown"
      (Some ("Cannot write to " +:+ device_path))
  else if path_isfile env && size_query_fails env then
    mkValidation false true true true 0 "unknown"
      (Some ("Cannot determine size of " +:+ device_path +:+ ": "
             +:+ "[Errno 2] No such file or directory"))
  else
    mkValidation true true true true
      (if size_query_fails env then 0 else Z.of_nat (length content))
      (_classify_device_type device_path) None.

(* ===================================================================== *)
(** * cli/main.py: the [wipe] command *)
(* ===================================================================== *)

(** A line [click.echo] prints.  The two lines that format a float are
    kept as the number they format.  The lines of the progress callback
    are not listed here: there is one for each snapshot in the engine's
    [st_reported]. *)
Inductive echo :=
  | Echo (line : string)
  | EchoDuration (microseconds : Z)   (* f"Duration: {result.duration:.2f} seconds" *)
  | EchoBytes (count : Z).            (* f"Bytes wiped: {_format_bytes(...)}" *)

(** [s.endswith(suffix)]. *)
Definition str_endswith (suffix s : string) : bool :=
  starts_with (reverse (lit suffix)) (reverse (lit s)).

Section cli.
Context `{Backend}.

(** What a run of the command meets besides the target: the key that
    [CertificateGenerator()] generates (the generation itself succeeds),
    the clock and the random bytes of the issuance, and whether the
    certificate file can be written. *)
Record CliEnv := mkCliEnv {
  fresh_key : private_key_t;
  issue : IssueEnv;
  json_saved : bool;    (* save_certificate_json returns True *)
  pdf_saved : bool      (* save_certificate_pdf returns True *)
}.

(** What the command function leaves behind: the value it returns, the
    lines it printed, the state in which the engine returned when the
    engine was called, and the certificate when one was generated. *)
Record CliOutcome := mkCliOutcome {
  returned : Z;
  echoed : list echo;
  wiped : option State;
  issued : option WipeCertificate
}.

(** The function behind [bitwipers wipe], entered after the confirmation
    prompt was answered with yes; [pattern] is the member that
    [WipePattern(pattern)] makes of the option value, which
    [click.Choice] has checked.  [None] when the engine ran out of
    fuel. *)
Definition wipe (fuel : nat) (env : Env) (cenv : CliEnv) (content : bytes)
    (device_path : string) (pattern : WipePattern) (verify certificate : bool)
    (cert_output : option string) : option CliOutcome :=
  let validation := validate_device env content device_path in
  if negb (v_valid validation) then
    Some (mkCliOutcome 1
            [Echo ("Error: " +:+ default "None"%string (v_error validation))]
            None None)
  else
    let wiper := mkDataWiper 4096 true verify in
    let starting :=
      Echo ("Starting wipe of " +:+ device_path +:+ " with pattern "
            +:+ WipePattern_value pattern +:+ "...") in
    match (if path_isfile env
           then wipe_file fuel wiper env content device_path pattern true
           else wipe_device fuel wiper env content device_path pattern false) with
    | None => None
    | Some s =>
        let result := st_result s in
        if bool_decide (WipeStatus_value (status result) = "completed"%string) then
          let lines :=
            [ starting; Echo "✅ Wipe completed successfully!";
              EchoDuration (duration result); EchoBytes (bytes_wiped result) ] in
          if certificate then
            let cert_gen :=
              new_CertificateGenerator (fresh_key cenv)
                "Ministry of Mines - JNARDDC" "BitWipers System" in
            match generate_certificate cert_gen result None (issue cenv) with
            | inl msg =>
                Some (mkCliOutcome 0
                        (lines ++ [Echo ("⚠️  Certificate generation failed: " +:+ msg)])
                        (Some s) None)
            | inr cert =>
                let output_path :=
                  match cert_output with
                  | Some path => if bool_decide (path = ""%string)
                                 then "bitwipers_certificate_"
                                      +:+ Cert.certificate_id cert +:+ ".pdf"
                                 else path
                  | None => "bitwipers_certificate_"
                            +:+ Cert.certificate_id cert +:+ ".pdf"
                  end in
                let success :=
                  if str_endswith ".json" output_path then json_saved cenv
                  else pdf_saved cenv in
                Some (mkCliOutcome 0
                        (lines ++
                         [if success then Echo ("📜 Certificate saved: " +:+ output_path)
                          else Echo "⚠️  Failed to save certificate"])
                        (Some s) (Some cert))
            end
          else Some (mkCliOutcome 0 lines (Some s) None)
        else
          Some (mkCliOutcome 1
                  ([starting; Echo "❌ Wipe failed!"] ++
                   match error_message result with
                   | Some msg => if bool_decide (msg = ""%string) then []
                                 else [Echo ("Error: " +:+ msg)]
                   | None => []
                   end)
                  (Some s) None)
    end.
End cli.
(** ** What is assumed of the libraries, and how tampering is described *)

(** A signature that [sign] produced is accepted by [verify] under the
    public half of the same key. *)
Definition pss_sound `{Backend} : Prop :=
  ∀ key salt data signature,
    pss_sign key salt data = inr signature →
    pss_verify (public_key_of key) signature data = true.

(** The key is one the library signs with: [sign] does not raise. *)
Definition key_usable `{Backend} (key : private_key_t) : Prop :=
  ∀ salt data, ∃ signature, pss_sign key salt data = inr signature.

(** [c'] is [c] with the value of field [f], and of no other, changed. *)
Definition differs_only_at (f : cert_field) (c c' : WipeCertificate) : Prop :=
  field_value f c ≠ field_value f c' ∧
  ∀ g, g ≠ f → field_value g c = field_value g c'.

(** ** A small backend on which the certificate code can be run *)

Definition sample_show (v : jvalue) : string :=
  match v with
  | JStr s => "'" +:+ s +:+ "'"
  | JInt n => pretty n
  | JFloat n => pretty n +:+ "e-6"
  | JNull => "null"
  end.

Definition sample_dumps (d : gmap string jvalue) : string :=
  String.concat ", " ((λ kv, kv.1 +:+ ": " +:+ sample_show kv.2) <$> map_to_list d).

Definition sample_digest (b : bytes) : string :=
  pretty (foldl (λ acc x, (acc * 31 + Z.of_N (Byte.to_N x)) mod 4294967296) 7 b).

(** Signing prepends the salt, verification looks for the data at the end
    of the signature; the digest is a 32-bit polynomial checksum. *)
Definition sample_backend : Backend := {|
  private_key_t := ();
  public_key_t := ();
  public_key_of := λ _, ();
  pss_sign := λ _ salt data, inr (salt ++ data);
  pss_verify := λ _ signature data, bool_decide (data `suffix_of` signature);
  sha256_hex := sample_digest;
  json_dumps_sorted := sample_dumps;
  isoformat := λ t, pretty t;
  isoformat_utc := λ t, pretty t +:+ "+00:00";
  strftime_compact := λ t, pretty t
|}.

Definition sample_generator : CertificateGenerator (H := sample_backend) :=
  new_CertificateGenerator (H := sample_backend) () "JNARDDC" "BitWipers System".

Definition sample_issue : IssueEnv := mkIssueEnv 7 (λ _, xab) 9 [x01; xfe].

Definition sample_completed : WipeResult :=
  mkWipeResult "/dev/sdx" ZERO_FILL COMPLETED 5 (Some 8) 10 10 1 1 None None.

Definition sample_pending : WipeResult :=
  new_WipeResult "/dev/sdx" ZERO_FILL PENDING 5.

Definition sample_certificate : WipeCertificate :=
  Eval vm_compute in
    match generate_certificate (H := sample_backend) sample_generator
            sample_completed None sample_issue with
    | inr c => c
    | inl _ => Cert.mk "" "" None None 0 "" "" "" 0 0 0 None "" "" "" "" "" "" "" ""
    end.

Definition sample_pending_certificate : WipeCertificate :=
  Eval vm_compute in
    match generate_certificate (H := sample_backend) sample_generator
            sample_pending None sample_issue with
    | inr c => c
    | inl _ => Cert.mk "" "" None None 0 "" "" "" 0 0 0 None "" "" "" "" "" "" "" ""
    end.

Definition sample_recased : WipeCertificate :=
  Cert.set_digital_signature (str_upper (Cert.digital_signature sample_certificate))
    sample_certificate.

Definition sample_respaced : WipeCertificate :=
  Cert.set_digital_signature (Cert.digital_signature sample_certificate +:+ " ")
    sample_certificate.

(** The issued sample with [bytes_wiped] raised from 10 to 11. *)
Definition sample_tampered : WipeCertificate :=
  Eval vm_compute in
    match sample_certificate with
    | Cert.mk a b c d e f g h i _ k l m n o p q r s t =>
        Cert.mk a b c d e f g h i 11 k l m n o p q r s t
    end.


(* ===================================================================== *)
(** * Vocabulary for the engine's properties *)
(* ===================================================================== *)

(** ** Reading the device log *)

Fixpoint written_bytes (io : list io_event) : Z :=
  match io with
  | [] => 0
  | Wrote _ chunk :: io => Z.of_nat (length chunk) + written_bytes io
  | Yielded _ :: io => written_bytes io
  end.

(** How many blocks the generator has handed over. *)
Fixpoint yields (io : list io_event) : Z :=
  match io with
  | [] => 0
  | Wrote _ _ :: io => yields io
  | Yielded _ :: io => 1 + yields io
  end.

(** The block handed over last. *)
Fixpoint current_block (io : list io_event) : option bytes :=
  match io with
  | [] => None
  | Wrote _ _ :: io => current_block io
  | Yielded block :: _ => Some block
  end.

(** Every chunk that was written is the block handed over last before
    the write, or the first bytes of that block. *)
Fixpoint well_chunked (io : list io_event) : Prop :=
  match io with
  | [] => True
  | Wrote _ chunk :: io =>
      (∃ block, current_block io = Some block ∧ chunk = take (length chunk) block) ∧
      well_chunked io
  | Yielded _ :: io => well_chunked io
  end.

(** No write reaches past byte [size] of the target. *)
Definition within (size : Z) (io : list io_event) : Prop :=
  Forall (λ e, match e with
               | Wrote offset chunk => Z.of_nat (offset + length chunk) ≤ size
               | Yielded _ => True
               end) io.

(** [content] repeats [block] from its first byte on. *)
Definition tiled (block content : bytes) : Prop :=
  ∀ i x, content !! i = Some x → block !! (i mod length block)%nat = Some x.

(** ** Reading the history of the result object *)

(** [R older newer] holds between every two neighbours of a log that has
    its newest entry first. *)
Fixpoint chain {A : Type} (R : A → A → Prop) (h : list A) : Prop :=
  match h with
  | [] => True
  | newer :: rest =>
      match rest with
      | [] => True
      | older :: _ => R older newer
      end ∧ chain R rest
  end.

(** The status changes the specification's state machine allows:
    pending to in_progress, in_progress to one of the three outcomes. *)
Definition spec_transition (a b : WipeStatus) : bool :=
  match a, b with
  | PENDING, (PENDING | IN_PROGRESS) => true
  | IN_PROGRESS, (IN_PROGRESS | COMPLETED | FAILED | CANCELLED) => true
  | COMPLETED, COMPLETED => true
  | FAILED, FAILED => true
  | CANCELLED, CANCELLED => true
  | _, _ => false
  end.

(** The status changes the two public operations make: the ones above,
    pending to failed, and completed to failed. *)
Definition transition (a b : WipeStatus) : bool :=
  match a, b with
  | PENDING, FAILED => true
  | COMPLETED, FAILED => true
  | _, _ => spec_transition a b
  end.

Definition terminal (a : WipeStatus) : bool :=
  match a with
  | COMPLETED | FAILED | CANCELLED => true
  | _ => false
  end.

Definition lawful (h : list WipeResult) : Prop :=
  chain (λ older newer, transition (status older) (status newer) = true) h.


Definition monotone (h : list WipeResult) : Prop :=
  chain (λ older newer, bytes_wiped older ≤ bytes_wiped newer) h.

(** The newest entry of the history is the result object as it is. *)
Definition consistent (s : State) : Prop :=
  head (st_history s) = Some (st_result s).

(** The flag has read [False] at every read so far. *)
Definition unseen (env : Env) (s : State) : Prop :=
  match cancel_after env with
  | Some k => (st_flag_reads s ≤ k)%nat
  | None => True
  end.

(** ** Generators whose blocks have the block size *)

Definition unit_source (p : pass_source) : bool :=
  match p with
  | Fill [_] => true
  | Random => true
  | _ => false
  end.

Definition unit_generator (g : generator) : bool :=
  match g with
  | Forever p => unit_source p
  | Passes ps => forallb unit_source ps
  end.

(** The generator has [n] more yields in it. *)
Definition can_yield (n : Z) (g : generator) : Prop :=
  match g with
  | Forever _ => True
  | Passes ps => n ≤ Z.of_nat (length ps)
  end.

(** ** Sample surroundings on which the engine can be run *)

Definition sample_wiper : DataWiper := mkDataWiper 4 false false.

(** A target that answers every call, with a random source that returns
    the byte [0x41] and a clock that advances by a millisecond per read. *)
Definition sample_env : Env :=
  mkEnv None None (λ _ _, x41) (λ k, Z.of_nat k * 1000)
    true true true true false false FormatDone None sample_digest.

Definition with_cancel_after (k : nat) (env : Env) : Env :=
  mkEnv (Some k) (write_fault env) (entropy env) (now env)
    (path_exists env) (path_isfile env) (opens_for_read env) (opens_for_update env)
    (size_query_fails env) (read_back_fails env) (quick_format_ends env)
    (remove_error env) (sha256_hexdigest env).



Definition sample_content : bytes := replicate 10 x07.

(** ** Progress of one pass *)

(** The length the last chunk of a pass over [size] bytes should have. *)
Definition final_length (size block : Z) : Z :=
  if size mod block =? 0 then block else size mod block.

(** Where a pass stands after writing [p] bytes: the handle is at [p],
    the writes since the pass began ([io0] is the log at that moment) add
    up to [p] and stay inside the target, [p] is a multiple of the block
    size until the pass is over, and the write that ends the pass has the
    final length. *)
Definition pass_progress (size block : Z) (io0 : list io_event)
    (p : Z) (io : list io_event) (pos : nat) : Prop :=
  0 ≤ p ≤ size ∧ Z.of_nat pos = p ∧
  (p < size → ∃ k, 0 ≤ k ∧ p = k * block) ∧
  ∃ new,
    io = new ++ io0 ∧ written_bytes new = p ∧ within size new ∧
    (0 < p →
     ∃ offset chunk rest,
       new = Wrote offset chunk :: rest ∧
       Z.of_nat (offset + length chunk) = p ∧
       (p = size → Z.of_nat (length chunk) = final_length size block)).

(** The state in which the first pass of the sample device wipe starts
    writing (the first block has not been logged). *)
Definition sample_pass_start : State :=
  seek0 (device_ready sample_wiper sample_env sample_content "/dev/sdx" ZERO_FILL).

(** ** What holds all through [_perform_wipe] *)

(** The result object and the logs between any two statements of
    [_perform_wipe]: the history is faithful, lawful and monotone, the
    chunks come from the blocks, the operation is in progress on a target
    of [size] bytes with [passes] declared passes, and the reported count
    is the number of bytes written, at most [size] per pass begun. *)
Definition steady (size passes : Z) (s : State) : Prop :=
  consistent s ∧ lawful (st_history s) ∧ monotone (st_history s) ∧
  well_chunked (st_io s) ∧
  status (st_result s) = IN_PROGRESS ∧
  total_bytes (st_result s) = size ∧ total_passes (st_result s) = passes ∧
  0 ≤ size ∧
  written_bytes (st_io s) = bytes_wiped (st_result s) ∧
  0 ≤ bytes_wiped (st_result s) ≤ size * passes_completed (st_result s).

(** At the top of the [for] loop, [pn] passes done. *)
Definition at_boundary (size passes : Z) (env : Env) (pn t : Z) (s : State) : Prop :=
  steady size passes s ∧ unseen env s ∧
  passes_completed (st_result s) = pn ∧ 0 ≤ pn ∧
  t = pn * size ∧ bytes_wiped (st_result s) = t ∧ yields (st_io s) = pn.

(** After the generator handed over [pass_data] for pass [pn + 1]. *)
Definition poised (size passes : Z) (self : DataWiper) (env : Env)
    (pass_data : bytes) (pn t : Z) (s : State) : Prop :=
  steady size passes s ∧ unseen env s ∧
  passes_completed (st_result s) = pn ∧ 0 ≤ pn ∧
  t = pn * size ∧ bytes_wiped (st_result s) = t ∧ yields (st_io s) = pn + 1 ∧
  current_block (st_io s) = Some pass_data ∧
  length pass_data = Z.to_nat (block_size self).

(** Inside pass [pn], [p] bytes into it. *)
Definition in_pass (size passes : Z) (self : DataWiper) (env : Env)
    (pass_data : bytes) (pn p t : Z) (s : State) : Prop :=
  steady size passes s ∧ unseen env s ∧
  passes_completed (st_result s) = pn ∧ 1 ≤ pn ∧ 0 ≤ p ≤ size ∧
  t = (pn - 1) * size + p ∧ bytes_wiped (st_result s) = t ∧ yields (st_io s) = pn ∧
  current_block (st_io s) = Some pass_data ∧
  length pass_data = Z.to_nat (block_size self).

(** How [_perform_wipe] can leave its loops. *)
Definition exit_ok {A : Type} (size passes : Z) (env : Env) (out : flow A) : Prop :=
  match out with
  | Next _ s => ∃ pn t, at_boundary size passes env pn t s
  | ReturnFalse s =>
      steady size passes s ∧
      ∃ k, cancel_after env = Some k ∧ st_flag_reads s = S k
  | Raise _ s => steady size passes s ∧ unseen env s
  end.

(** ** What holds all through a public operation *)

(** The history is faithful and [R] holds along it. *)
Definition follows (R : WipeResult → WipeResult → Prop) (s : State) : Prop :=
  consistent s ∧ chain R (st_history s).

Definition status_step (older newer : WipeResult) : Prop :=
  transition (status older) (status newer) = true.

Definition count_step (older newer : WipeResult) : Prop :=
  bytes_wiped older ≤ bytes_wiped newer.

(** ** Sample runs *)







(** [wipe_file] and [wipe_device] with the three-pass scheme on ten bytes,
    block size 4. *)
Definition sample_file_three_pass : State :=
  Eval vm_compute in
    match wipe_file 20 sample_wiper sample_env sample_content
            "/tmp/secret.bin" DOD_3_PASS false with
    | Some s => s
    | None => sample_pass_start
    end.

Definition sample_device_three_pass : State :=
  Eval vm_compute in
    match wipe_device 20 sample_wiper sample_env sample_content
            "/dev/sdx" DOD_3_PASS false with
    | Some s => s
    | None => sample_pass_start
    end.



(** ** Counting the random blocks *)

(** The next [n] yields of a generator. *)
Definition upcoming (n : nat) (g : generator) : list pass_source :=
  match g with
  | Forever p => replicate n p
  | Passes ps => take n ps
  end.

(** Everything a generator can yield. *)
Definition gen_sources (g : generator) : list pass_source :=
  match g with
  | Forever p => [p]
  | Passes ps => ps
  end.

(** How many of the next [n] yields call [secrets.token_bytes]. *)
Definition randoms (n : nat) (g : generator) : nat :=
  length (filter (λ p, uses_entropy p = true) (upcoming n g)).

(** The passes of each scheme that write random data. *)
Definition random_passes (pattern : WipePattern) : nat :=
  match pattern with
  | RANDOM | NIST_CLEAR | DOD_3_PASS | DOD_7_PASS => 1
  | NIST_PURGE => 2
  | ZERO_FILL | ONE_FILL | GUTMANN => 0
  end.

(** ** An undisturbed run, between two passes *)


(** ** What holds all through [_perform_file_wipe] *)




(** ** How a cancelled operation ends *)


(** ** What the loops never change *)

(** A property of the result object that the two counters have no part
    in. *)
Definition count_blind (I : WipeResult → Prop) : Prop :=
  ∀ r v, I r → I (set_bytes_wiped v r) ∧ I (set_passes_completed v r).

(** The result object has the property when a block of statements ends. *)
Definition result_exit {A : Type} (I : WipeResult → Prop) (out : flow A) : Prop :=
  match out with
  | Next _ s | ReturnFalse s | Raise _ s => I (st_result s)
  end.

(** The size and the pass count the result object was given. *)
Definition sized (size passes : Z) (r : WipeResult) : Prop :=
  total_bytes r = size ∧ total_passes r = passes.

(** A wiper built with [block_size=0]. *)
Definition zero_block_wiper : DataWiper := mkDataWiper 0 false false.


(** The [k]-th [write] call raises. *)
Definition with_write_fault (k : nat) (env : Env) : Env :=
  mkEnv (cancel_after env) (Some k) (entropy env) (now env)
    (path_exists env) (path_isfile env) (opens_for_read env) (opens_for_update env)
    (size_query_fails env) (read_back_fails env) (quick_format_ends env)
    (remove_error env) (sha256_hexdigest env).

(** A device wipe whose second [write] call raises. *)
Definition sample_faulted_state : State :=
  Eval vm_compute in
    match _perform_wipe 20 sample_wiper (with_write_fault 1 sample_env) DOD_3_PASS
            (device_ready sample_wiper (with_write_fault 1 sample_env) sample_content
               "/dev/sdx" DOD_3_PASS) with
    | Some (_, s) => s
    | None => sample_pass_start
    end.

(** The byte a one-byte fill scheme writes. *)
Definition fill_byte (pattern : WipePattern) : option byte :=
  match get_pattern_data pattern with
  | Forever (Fill [b]) => Some b
  | _ => None
  end.

(** ** An undisturbed file wipe, between two passes *)

(** At the top of the [for] loop of [_perform_file_wipe] when pass [pn]
    (counted from 1) comes next, in a run that nothing disturbs: the
    earlier passes are counted and each wrote the whole file, the reported
    count is that of one pass, the file has kept its size and is tiled
    with the block handed over last, which came from one of [sources]. *)
Definition file_running (size passes : Z) (self : DataWiper) (env : Env)
    (sources : list pass_source) (g : generator) (pn : Z) (s : State) : Prop :=
  sized size passes (st_result s) ∧ 0 ≤ size ∧ 1 ≤ pn ∧
  passes_completed (st_result s) = pn - 1 ∧
  bytes_wiped (st_result s) = (if 1 <? pn then size else 0) ∧
  written_bytes (st_io s) = (pn - 1) * size ∧ yields (st_io s) = pn - 1 ∧
  unit_generator g = true ∧ can_yield (passes - pn + 1) g ∧
  gen_sources g ⊆ sources ∧
  length (st_data s) = Z.to_nat size ∧
  (1 < pn →
   ∃ p d block,
     current_block (st_io s) = Some block ∧
     length block = Z.to_nat (block_size self) ∧
     p ∈ sources ∧
     block_of (entropy env) d (block_size self) p = inr block ∧
     tiled block (st_data s)).

(** A wiper with a progress callback and verification, block size 4. *)
Definition verifying_wiper : DataWiper := mkDataWiper 4 true true.

(** [wipe_device] and [wipe_file] of that wiper on the ten sample bytes. *)
Definition sample_verified_device : State :=
  Eval vm_compute in
    match wipe_device 20 verifying_wiper sample_env sample_content
            "/tmp/secret.bin" ZERO_FILL false with
    | Some s => s
    | None => sample_pass_start
    end.

Definition sample_wiped_file : State :=
  Eval vm_compute in
    match wipe_file 20 verifying_wiper sample_env sample_content
            "/tmp/secret.bin" ZERO_FILL false with
    | Some s => s
    | None => sample_pass_start
    end.

(** ** Reading the log of the progress callback *)




(** ** Running a generator *)



(** Text whose characters are all in the ASCII range. *)
Definition is_ascii_text (s : string) : Prop :=
  Forall (λ c, (N_of_ascii c < 128)%N) (String.list_ascii_of_string s).

(** ** Certificate identifiers *)

(** A digit or one of the capital letters [A] to [F]. *)
Definition upper_hex_digit (c : ascii) : bool :=
  let n := N_of_ascii c in
  (((48 <=? n) && (n <=? 57)) || ((65 <=? n) && (n <=? 70)))%N.

(** Two issuances in the same second whose random bytes differ. *)
Definition sample_issue_again : IssueEnv :=
  mkIssueEnv 7 (λ i, if (i =? 2)%nat then xac else xab) 12 [x02; xfd].

(** ** Reading a log line *)

(** The text has no line feed, carriage return or tab in it. *)
Definition one_line (s : text) : Prop := (LF ∉ s) ∧ (CR ∉ s) ∧ (TAB ∉ s).

(** All characters are in the ASCII range. *)
Definition ascii_only (s : text) : Prop := Forall (λ c, (N_of_ascii c < 128)%N) s.

(** The key under which [_sanitize_context] files a keyword. *)
Definition clean_key (key : text) : text :=
  replace_char " " (lit "_") (ascii_lower <$> key).

(** A cleaned key has one of the sensitive words in it. *)
Definition is_sensitive (k : text) : bool :=
  existsb (λ word, str_in word k) sensitive_keys.

(** A call with a password among its keyword arguments and a message of
    two lines. *)
Definition sample_message : text :=
  lit "Wipe operation started" ++ [LF] ++ lit "forged".

Definition sample_kwargs : list (text * text) :=
  [ (lit "device_path", lit ".../sdx");
    (lit "User Password", lit "hunter2");
    (lit "note", lit "first" ++ [LF] ++ lit "second") ].

(** [d.get(k)] on a dictionary in insertion order. *)
Fixpoint dict_get (k : text) (d : list (text * text)) : option text :=
  match d with
  | [] => None
  | (k', v) :: d => if decide (k' = k) then Some v else dict_get k d
  end.

(** ** Sample surroundings of the command *)

(** A key of the sample backend, and certificate files that can be
    written. *)
Definition sample_cli_env : CliEnv (H := sample_backend) :=
  mkCliEnv (H := sample_backend) () sample_issue true true.


(* ===================================================================== *)
(** * Properties of the wipe engine *)
(* ===================================================================== *)

(** ** Blocks and chunks *)

Lemma bytes_mul_unit_length (b : byte) (n : Z) :
  length (bytes_mul [b] n) = Z.to_nat n.
Proof.
  unfold bytes_mul. induction (Z.to_nat n) as [|k IH]; simpl; [done|].
  by rewrite IH.
Qed.

Lemma token_bytes_length (entropy : nat → nat → byte) (d : nat) (n : Z) (block : bytes) :
  token_bytes entropy d n = inr block → length block = Z.to_nat n.
Proof.
  unfold token_bytes. case_match; [discriminate|]. intros [= <-].
  by rewrite length_fmap, length_seq.
Qed.

Lemma block_of_length (entropy : nat → nat → byte) (d : nat) (n : Z)
    (p : pass_source) (block : bytes) :
  unit_source p = true →
  block_of entropy d n p = inr block → length block = Z.to_nat n.
Proof.
  destruct p as [[|b [|]]| |]; simpl; try discriminate; intros _.
  - intros [= <-]. apply bytes_mul_unit_length.
  - apply token_bytes_length.
Qed.

Lemma take_own_length {A : Type} (k : nat) (l : list A) :
  take (length (take k l)) l = take k l.
Proof.
  rewrite length_take. destruct (Nat.le_gt_cases k (length l)).
  - by rewrite Nat.min_l.
  - rewrite Nat.min_r by lia. rewrite !take_ge; [done|lia|lia].
Qed.

(** A chunk is always the first bytes of the block it is cut from. *)
Lemma next_chunk_prefix (self : DataWiper) (pass_data : bytes) (remaining : Z) :
  next_chunk self pass_data remaining =
  take (length (next_chunk self pass_data remaining)) pass_data.
Proof.
  unfold next_chunk, slice_to. repeat case_match.
  - by rewrite take_ge.
  - by rewrite take_own_length.
  - by rewrite take_own_length.
Qed.

(** Its length is the block size, cut down to what remains of the pass. *)
Lemma next_chunk_length (self : DataWiper) (pass_data : bytes) (remaining : Z) :
  length pass_data = Z.to_nat (block_size self) → 0 < remaining →
  Z.of_nat (length (next_chunk self pass_data remaining)) =
  Z.max 0 (Z.min (block_size self) remaining).
Proof.
  intros Hlen Hrem. unfold next_chunk, slice_to.
  destruct (Z.eqb_spec (Z.min (block_size self) remaining) (block_size self)) as [E|E].
  - rewrite Hlen. lia.
  - destruct (Z.ltb_spec (Z.min (block_size self) remaining) 0); [lia|].
    rewrite length_take, Hlen. lia.
Qed.

(** ** The primitive steps *)

Lemma transition_refl (a : WipeStatus) : transition a a = true.
Proof. by destruct a. Qed.

Lemma set_bytes_wiped_same (r : WipeResult) : set_bytes_wiped (bytes_wiped r) r = r.
Proof. by destruct r. Qed.

(** An assignment extends a chain when the new value stands in the
    relation to the value it replaces. *)
Lemma chain_assign (R : WipeResult → WipeResult → Prop)
    (f : WipeResult → WipeResult) (s : State) :
  consistent s → chain R (st_history s) →
  R (st_result s) (f (st_result s)) →
  chain R (st_history (assign f s)).
Proof.
  unfold consistent. intros Hc Hch HR. simpl.
  destruct (st_history s) as [|r h]; [done|].
  simpl in Hc. injection Hc as ->. by split.
Qed.

Lemma consistent_assign (f : WipeResult → WipeResult) (s : State) :
  consistent (assign f s).
Proof. reflexivity. Qed.

(** What one read of the flag does. *)
Lemma read_cancelled_spec (env : Env) (s : State) :
  let '(b, s') := read_cancelled env s in
  (if b then ∃ k, cancel_after env = Some k ∧ (k ≤ st_flag_reads s)%nat
   else unseen env s') ∧
  st_flag_reads s' = S (st_flag_reads s) ∧
  st_result s' = st_result s ∧ st_history s' = st_history s ∧
  st_io s' = st_io s ∧ st_data s' = st_data s ∧ st_pos s' = st_pos s ∧
  st_write_calls s' = st_write_calls s ∧ st_draws s' = st_draws s ∧
  st_clock_reads s' = st_clock_reads s.
Proof.
  unfold read_cancelled, unseen. simpl.
  destruct (cancel_after env) as [k|]; [|done].
  case_bool_decide; simpl; repeat split; eauto with lia.
Qed.

Lemma read_cancelled_never (env : Env) (s : State) :
  cancel_after env = None → (read_cancelled env s).1 = false.
Proof. unfold read_cancelled. by intros ->. Qed.

(** What one iteration of the write loop of [_perform_wipe] does. *)
Lemma write_block_spec (self : DataWiper) (env : Env) (pass_data : bytes)
    (p t : Z) (s : State) :
  let chunk := next_chunk self pass_data (total_bytes (st_result s) - p) in
  let n := Z.of_nat (length chunk) in
  match write_block self env pass_data p t s with
  | Next (p', t') s' =>
      p' = p + n ∧ t' = t + n ∧ unseen env s' ∧
      st_result s' = set_bytes_wiped (t + n) (st_result s) ∧
      st_history s' = st_result s' :: st_history s ∧
      st_io s' = Wrote (st_pos s) chunk :: st_io s ∧
      st_data s' = overwrite (st_data s) (st_pos s) chunk ∧
      st_pos s' = (st_pos s + length chunk)%nat ∧
      st_draws s' = st_draws s ∧ st_clock_reads s' = st_clock_reads s
  | ReturnFalse s' =>
      (∃ k, cancel_after env = Some k ∧ (k ≤ st_flag_reads s)%nat) ∧
      st_flag_reads s' = S (st_flag_reads s) ∧
      st_result s' = st_result s ∧ st_history s' = st_history s ∧
      st_io s' = st_io s ∧ st_data s' = st_data s ∧
      st_draws s' = st_draws s ∧ st_clock_reads s' = st_clock_reads s
  | Raise _ s' =>
      write_fault env = Some (st_write_calls s) ∧ unseen env s' ∧
      st_result s' = st_result s ∧ st_history s' = st_history s ∧
      st_io s' = st_io s ∧ st_data s' = st_data s ∧
      st_draws s' = st_draws s ∧ st_clock_reads s' = st_clock_reads s
  end.
Proof.
  intros chunk n. subst chunk n. unfold write_block.
  pose proof (read_cancelled_spec env s) as Hr.
  destruct (read_cancelled env s) as [b s1].
  destruct Hr as (Hb & Hfr & Hres & Hh & Hio & Hd & Hpos & Hwc & Hdr & Hck).
  destruct b; [done|].
  unfold device_write. rewrite Hres, Hpos, Hwc.
  case_bool_decide; simpl.
  - done.
  - unfold _update_progress. destruct (progress_callback self); simpl;
      rewrite ?Hres, ?Hh, ?Hio, ?Hd, ?Hdr, ?Hck; done.
Qed.

(** Without a cancellation and without a fault an iteration goes through. *)
Lemma write_block_goes_on (self : DataWiper) (env : Env) (pass_data : bytes)
    (p t : Z) (s : State) :
  cancel_after env = None → write_fault env = None →
  ∃ q s', write_block self env pass_data p t s = Next q s'.
Proof.
  intros Hc Hf. unfold write_block, read_cancelled, device_write.
  rewrite Hc, Hf. simpl. eauto.
Qed.

(** ** Rules for the write loop *)

Section write_loop_rules.
Variables (self : DataWiper) (env : Env) (pass_data : bytes).

(** An invariant [P] of the iterations yields [Q] of however the loop
    ends. *)
Lemma write_loop_rule (P : Z → Z → State → Prop) (Q : flow (Z * Z) → Prop) :
  (∀ p t s, P p t s → ¬ p < total_bytes (st_result s) → Q (Next (p, t) s)) →
  (∀ p t s, P p t s → p < total_bytes (st_result s) →
     match write_block self env pass_data p t s with
     | Next (p', t') s' => P p' t' s'
     | out => Q out
     end) →
  ∀ fuel p t s out,
    P p t s → write_loop fuel self env pass_data p t s = Some out → Q out.
Proof.
  intros Hexit Hstep fuel.
  induction fuel as [|fuel IH]; intros p t s out HP; simpl;
    destruct (Z.ltb_spec p (total_bytes (st_result s))) as [Hlt|Hge];
    try (intros [= <-]; apply Hexit; [done|lia]); [done|].
  specialize (Hstep p t s HP Hlt).
  destruct (write_block self env pass_data p t s) as [[p' t'] s'|s'|msg s'].
  - by apply IH.
  - by intros [= <-].
  - by intros [= <-].
Qed.

(** With a measure that [fuel] bounds, that is positive while the loop
    condition holds and that every iteration lowers, the loop also ends. *)
Lemma write_loop_total (P : Z → Z → State → Prop) (Q : flow (Z * Z) → Prop)
    (m : Z → State → nat) :
  (∀ p t s, P p t s → ¬ p < total_bytes (st_result s) → Q (Next (p, t) s)) →
  (∀ p t s, P p t s → p < total_bytes (st_result s) →
     (0 < m p s)%nat ∧
     match write_block self env pass_data p t s with
     | Next (p', t') s' => P p' t' s' ∧ (m p' s' < m p s)%nat
     | out => Q out
     end) →
  ∀ fuel p t s,
    P p t s → (m p s ≤ fuel)%nat →
    ∃ out, write_loop fuel self env pass_data p t s = Some out ∧ Q out.
Proof.
  intros Hexit Hstep fuel.
  induction fuel as [|fuel IH]; intros p t s HP Hm; simpl;
    destruct (Z.ltb_spec p (total_bytes (st_result s))) as [Hlt|Hge];
    try (eexists; split; [reflexivity|]; apply Hexit; [done|lia]);
    destruct (Hstep p t s HP Hlt) as [Hpos Hnext]; [lia|].
  destruct (write_block self env pass_data p t s) as [[p' t'] s'|s'|msg s'];
    [|by eauto..].
  destruct Hnext. apply IH; [done|lia].
Qed.
End write_loop_rules.

(** The write loop of [_perform_file_wipe] differs in what it reports. *)
Lemma write_file_block_spec (self : DataWiper) (env : Env) (pass_data : bytes)
    (p : Z) (s : State) :
  let chunk := next_chunk self pass_data (total_bytes (st_result s) - p) in
  let n := Z.of_nat (length chunk) in
  match write_file_block self env pass_data p s with
  | Next p' s' =>
      p' = p + n ∧ unseen env s' ∧
      st_result s' = set_bytes_wiped (p + n) (st_result s) ∧
      st_history s' = st_result s' :: st_history s ∧
      st_io s' = Wrote (st_pos s) chunk :: st_io s ∧
      st_data s' = overwrite (st_data s) (st_pos s) chunk ∧
      st_pos s' = (st_pos s + length chunk)%nat ∧
      st_draws s' = st_draws s ∧ st_clock_reads s' = st_clock_reads s
  | ReturnFalse s' =>
      (∃ k, cancel_after env = Some k ∧ (k ≤ st_flag_reads s)%nat) ∧
      st_flag_reads s' = S (st_flag_reads s) ∧
      st_result s' = st_result s ∧ st_history s' = st_history s ∧
      st_io s' = st_io s ∧ st_data s' = st_data s ∧
      st_draws s' = st_draws s ∧ st_clock_reads s' = st_clock_reads s
  | Raise _ s' =>
      write_fault env = Some (st_write_calls s) ∧ unseen env s' ∧
      st_result s' = st_result s ∧ st_history s' = st_history s ∧
      st_io s' = st_io s ∧ st_data s' = st_data s ∧
      st_draws s' = st_draws s ∧ st_clock_reads s' = st_clock_reads s
  end.
Proof.
  intros chunk n. subst chunk n. unfold write_file_block.
  pose proof (read_cancelled_spec env s) as Hr.
  destruct (read_cancelled env s) as [b s1].
  destruct Hr as (Hb & Hfr & Hres & Hh & Hio & Hd & Hpos & Hwc & Hdr & Hck).
  destruct b; [done|].
  unfold device_write. rewrite Hres, Hpos, Hwc.
  case_bool_decide; simpl.
  - done.
  - unfold _update_progress. destruct (progress_callback self); simpl;
      rewrite ?Hres, ?Hh, ?Hio, ?Hd, ?Hdr, ?Hck; done.
Qed.

Lemma write_file_block_goes_on (self : DataWiper) (env : Env) (pass_data : bytes)
    (p : Z) (s : State) :
  cancel_after env = None → write_fault env = None →
  ∃ q s', write_file_block self env pass_data p s = Next q s'.
Proof.
  intros Hc Hf. unfold write_file_block, read_cancelled, device_write.
  rewrite Hc, Hf. simpl. eauto.
Qed.

Section write_file_loop_rules.
Variables (self : DataWiper) (env : Env) (pass_data : bytes).

Lemma write_file_loop_rule (P : Z → State → Prop) (Q : flow Z → Prop) :
  (∀ p s, P p s → ¬ p < total_bytes (st_result s) → Q (Next p s)) →
  (∀ p s, P p s → p < total_bytes (st_result s) →
     match write_file_block self env pass_data p s with
     | Next p' s' => P p' s'
     | out => Q out
     end) →
  ∀ fuel p s out,
    P p s → write_file_loop fuel self env pass_data p s = Some out → Q out.
Proof.
  intros Hexit Hstep fuel.
  induction fuel as [|fuel IH]; intros p s out HP; simpl;
    destruct (Z.ltb_spec p (total_bytes (st_result s))) as [Hlt|Hge];
    try (intros [= <-]; apply Hexit; [done|lia]); [done|].
  specialize (Hstep p s HP Hlt).
  destruct (write_file_block self env pass_data p s) as [p' s'|s'|msg s'].
  - by apply IH.
  - by intros [= <-].
  - by intros [= <-].
Qed.

Lemma write_file_loop_total (P : Z → State → Prop) (Q : flow Z → Prop)
    (m : Z → State → nat) :
  (∀ p s, P p s → ¬ p < total_bytes (st_result s) → Q (Next p s)) →
  (∀ p s, P p s → p < total_bytes (st_result s) →
     (0 < m p s)%nat ∧
     match write_file_block self env pass_data p s with
     | Next p' s' => P p' s' ∧ (m p' s' < m p s)%nat
     | out => Q out
     end) →
  ∀ fuel p s,
    P p s → (m p s ≤ fuel)%nat →
    ∃ out, write_file_loop fuel self env pass_data p s = Some out ∧ Q out.
Proof.
  intros Hexit Hstep fuel.
  induction fuel as [|fuel IH]; intros p s HP Hm; simpl;
    destruct (Z.ltb_spec p (total_bytes (st_result s))) as [Hlt|Hge];
    try (eexists; split; [reflexivity|]; apply Hexit; [done|lia]);
    destruct (Hstep p s HP Hlt) as [Hpos Hnext]; [lia|].
  destruct (write_file_block self env pass_data p s) as [p' s'|s'|msg s'];
    [|by eauto..].
  destruct Hnext. apply IH; [done|lia].
Qed.
End write_file_loop_rules.

(** ** One pass *)

Lemma final_length_spec (size block k : Z) :
  0 < block → 0 < size - k * block ≤ block →
  size - k * block = final_length size block.
Proof.
  intros Hb Hr. unfold final_length.
  destruct (decide (size - k * block = block)) as [E|E].
  - assert (size mod block = 0) as ->.
    { replace size with ((k + 1) * block) by lia. apply Z.mod_mul. lia. }
    simpl. lia.
  - assert (size mod block = size - k * block) as ->.
    { replace size with ((size - k * block) + k * block) at 1 by lia.
      rewrite Z.mod_add by lia. apply Z.mod_small. lia. }
    destruct (Z.eqb_spec (size - k * block) 0); lia.
Qed.

Lemma pass_progress_start (size block : Z) (io0 : list io_event) :
  0 ≤ size → pass_progress size block io0 0 io0 0.
Proof.
  intros Hs. repeat split; try lia.
  - intros _. exists 0. lia.
  - exists []. repeat split; [constructor|lia].
Qed.

Lemma pass_progress_step (self : DataWiper) (pass_data : bytes) (size : Z)
    (io0 io : list io_event) (p : Z) (pos : nat) :
  0 < block_size self → length pass_data = Z.to_nat (block_size self) →
  pass_progress size (block_size self) io0 p io pos → p < size →
  let chunk := next_chunk self pass_data (size - p) in
  p < p + Z.of_nat (length chunk) ∧
  pass_progress size (block_size self) io0 (p + Z.of_nat (length chunk))
    (Wrote pos chunk :: io) (pos + length chunk).
Proof.
  intros HB Hlen (Hp & Hpos & Hal & new & -> & Hw & Hin & Hhd) Hlt chunk.
  pose proof (next_chunk_length self pass_data (size - p) Hlen ltac:(lia)) as Hn.
  fold chunk in Hn.
  destruct (Hal Hlt) as (k & Hk & ->).
  split; [lia|]. repeat split; try lia.
  - intros Hlt'. exists (k + 1). lia.
  - exists (Wrote pos chunk :: new). repeat split.
    + simpl. lia.
    + constructor; [lia|done].
    + intros _. exists pos, chunk, new. repeat split; [lia|].
      intros Hend. rewrite <- (final_length_spec size (block_size self) k); lia.
Qed.

Lemma write_block_progress (self : DataWiper) (env : Env) (pass_data : bytes)
    (size : Z) (io0 : list io_event) (p t : Z) (s : State) :
  0 < block_size self → length pass_data = Z.to_nat (block_size self) →
  cancel_after env = None → write_fault env = None →
  total_bytes (st_result s) = size →
  pass_progress size (block_size self) io0 p (st_io s) (st_pos s) → p < size →
  ∃ p' t' s',
    write_block self env pass_data p t s = Next (p', t') s' ∧
    p < p' ∧ t' = t + (p' - p) ∧ total_bytes (st_result s') = size ∧
    pass_progress size (block_size self) io0 p' (st_io s') (st_pos s').
Proof.
  intros HB Hlen Hc Hf Hsize Hprog Hlt.
  destruct (write_block_goes_on self env pass_data p t s Hc Hf) as ([p' t'] & s' & E).
  pose proof (write_block_spec self env pass_data p t s) as Hspec.
  rewrite E in Hspec. cbv zeta in Hspec. rewrite Hsize in Hspec.
  destruct Hspec as (-> & -> & _ & Hres & _ & Hio & _ & Hpos & _).
  destruct (pass_progress_step self pass_data size io0 (st_io s) p (st_pos s)
              HB Hlen Hprog Hlt) as [Hgt Hnext].
  eexists _, _, s'. split; [exact E|].
  rewrite Hio, Hpos, Hres.
  split; [done|]. split; [lia|]. split; [done|]. exact Hnext.
Qed.

Lemma write_file_block_progress (self : DataWiper) (env : Env) (pass_data : bytes)
    (size : Z) (io0 : list io_event) (p : Z) (s : State) :
  0 < block_size self → length pass_data = Z.to_nat (block_size self) →
  cancel_after env = None → write_fault env = None →
  total_bytes (st_result s) = size →
  pass_progress size (block_size self) io0 p (st_io s) (st_pos s) → p < size →
  ∃ p' s',
    write_file_block self env pass_data p s = Next p' s' ∧
    p < p' ∧ total_bytes (st_result s') = size ∧
    pass_progress size (block_size self) io0 p' (st_io s') (st_pos s').
Proof.
  intros HB Hlen Hc Hf Hsize Hprog Hlt.
  destruct (write_file_block_goes_on self env pass_data p s Hc Hf) as (p' & s' & E).
  pose proof (write_file_block_spec self env pass_data p s) as Hspec.
  rewrite E in Hspec. cbv zeta in Hspec. rewrite Hsize in Hspec.
  destruct Hspec as (-> & _ & Hres & _ & Hio & _ & Hpos & _).
  destruct (pass_progress_step self pass_data size io0 (st_io s) p (st_pos s)
              HB Hlen Hprog Hlt) as [Hgt Hnext].
  eexists _, s'. split; [exact E|].
  rewrite Hio, Hpos, Hres.
  split; [done|]. split; [done|]. exact Hnext.
Qed.

(** An undisturbed pass of [_perform_wipe] runs to its end. *)
Lemma write_loop_completes (self : DataWiper) (env : Env) (pass_data : bytes)
    (t : Z) (s : State) (fuel : nat) :
  0 < block_size self → length pass_data = Z.to_nat (block_size self) →
  cancel_after env = None → write_fault env = None →
  0 ≤ total_bytes (st_result s) → st_pos s = 0%nat →
  (Z.to_nat (total_bytes (st_result s)) ≤ fuel)%nat →
  ∃ s',
    write_loop fuel self env pass_data 0 t s =
      Some (Next (total_bytes (st_result s), t + total_bytes (st_result s)) s') ∧
    total_bytes (st_result s') = total_bytes (st_result s) ∧
    pass_progress (total_bytes (st_result s)) (block_size self) (st_io s)
      (total_bytes (st_result s)) (st_io s') (st_pos s').
Proof.
  intros HB Hlen Hc Hf Hsize Hpos Hfuel.
  set (size := total_bytes (st_result s)) in *.
  set (P := λ (p t' : Z) (s' : State),
         t' = t + p ∧ total_bytes (st_result s') = size ∧
         pass_progress size (block_size self) (st_io s) p (st_io s') (st_pos s')).
  set (Q := λ out : flow (Z * Z),
         ∃ s', out = Next (size, t + size) s' ∧
               total_bytes (st_result s') = size ∧
               pass_progress size (block_size self) (st_io s) size
                 (st_io s') (st_pos s')).
  destruct (write_loop_total self env pass_data P Q (λ p _, Z.to_nat (size - p)))
    with (fuel := fuel) (p := 0) (t := t) (s := s)
    as (out & Hout & s' & -> & Hs' & Hprog).
  - intros p t' s' (-> & Hs' & Hprog) Hge. rewrite Hs' in Hge.
    assert (p = size) as -> by (destruct Hprog as [? _]; lia).
    by exists s'.
  - intros p t' s' (-> & Hs' & Hprog). rewrite Hs'. intros Hlt. split; [lia|].
    destruct (write_block_progress self env pass_data size (st_io s) p (t + p) s')
      as (p' & t'' & s'' & -> & Hgt & -> & Hs'' & Hprog'); try done.
    split; [|lia]. split; [lia|]. by split.
  - split; [lia|]. split; [done|]. rewrite Hpos. by apply pass_progress_start.
  - lia.
  - by exists s'.
Qed.

(** And so does an undisturbed pass of [_perform_file_wipe]. *)
Lemma write_file_loop_completes (self : DataWiper) (env : Env) (pass_data : bytes)
    (s : State) (fuel : nat) :
  0 < block_size self → length pass_data = Z.to_nat (block_size self) →
  cancel_after env = None → write_fault env = None →
  0 ≤ total_bytes (st_result s) → st_pos s = 0%nat →
  (Z.to_nat (total_bytes (st_result s)) ≤ fuel)%nat →
  ∃ s',
    write_file_loop fuel self env pass_data 0 s =
      Some (Next (total_bytes (st_result s)) s') ∧
    total_bytes (st_result s') = total_bytes (st_result s) ∧
    pass_progress (total_bytes (st_result s)) (block_size self) (st_io s)
      (total_bytes (st_result s)) (st_io s') (st_pos s').
Proof.
  intros HB Hlen Hc Hf Hsize Hpos Hfuel.
  set (size := total_bytes (st_result s)) in *.
  set (P := λ (p : Z) (s' : State),
         total_bytes (st_result s') = size ∧
         pass_progress size (block_size self) (st_io s) p (st_io s') (st_pos s')).
  set (Q := λ out : flow Z,
         ∃ s', out = Next size s' ∧
               total_bytes (st_result s') = size ∧
               pass_progress size (block_size self) (st_io s) size
                 (st_io s') (st_pos s')).
  destruct (write_file_loop_total self env pass_data P Q (λ p _, Z.to_nat (size - p)))
    with (fuel := fuel) (p := 0) (s := s)
    as (out & Hout & s' & -> & Hs' & Hprog).
  - intros p s' (Hs' & Hprog) Hge. rewrite Hs' in Hge.
    assert (p = size) as -> by (destruct Hprog as [? _]; lia).
    by exists s'.
  - intros p s' (Hs' & Hprog). rewrite Hs'. intros Hlt. split; [lia|].
    destruct (write_file_block_progress self env pass_data size (st_io s) p s')
      as (p' & s'' & -> & Hgt & Hs'' & Hprog'); try done.
    split; [|lia]. by split.
  - split; [done|]. rewrite Hpos. by apply pass_progress_start.
  - lia.
  - by exists s'.
Qed.

(** C1 — One pass writes exactly the target's size.  Let the target have
    [size > 0] bytes, the block size be [block > 0] and [pass_data] be a
    block of that size; let no cancellation and no write fault occur and
    the handle stand at offset 0.  Then the write loop of [_perform_wipe]
    and the write loop of [_perform_file_wipe] both end normally with a
    per-pass count of [size]; the writes they logged add up to [size],
    none reaches past byte [size], and the last one has [size mod block]
    bytes when that is not zero and [block] bytes otherwise. *)
Theorem one_pass_writes_exactly (self : DataWiper) (env : Env) (pass_data : bytes)
    (t : Z) (s : State) (fuel : nat) :
  let size := total_bytes (st_result s) in
  let block := block_size self in
  let exact (io' : list io_event) :=
    ∃ new offset chunk rest,
      io' = new ++ st_io s ∧ written_bytes new = size ∧ within size new ∧
      new = Wrote offset chunk :: rest ∧
      Z.of_nat (length chunk) = if size mod block =? 0 then block else size mod block in
  0 < size → 0 < block → length pass_data = Z.to_nat block →
  cancel_after env = None → write_fault env = None → st_pos s = 0%nat →
  (Z.to_nat size ≤ fuel)%nat →
  (∃ s', write_loop fuel self env pass_data 0 t s = Some (Next (size, t + size) s') ∧
         exact (st_io s')) ∧
  (∃ s', write_file_loop fuel self env pass_data 0 s = Some (Next size s') ∧
         exact (st_io s')).
Proof.
  intros size block exact Hsize HB Hlen Hc Hf Hpos Hfuel.
  assert (Hexact : ∀ io' pos',
            pass_progress size block (st_io s) size io' pos' → exact io').
  { intros io' pos' (_ & _ & _ & new & -> & Hw & Hin & Hhd).
    destruct (Hhd Hsize) as (offset & chunk & rest & -> & _ & Hfin).
    exists (Wrote offset chunk :: rest), offset, chunk, rest.
    repeat split; try done. by apply Hfin. }
  split.
  - destruct (write_loop_completes self env pass_data t s fuel)
      as (s' & Hrun & _ & Hprog); try done; [fold size; lia|].
    exists s'. split; [exact Hrun|]. by eapply Hexact.
  - destruct (write_file_loop_completes self env pass_data s fuel)
      as (s' & Hrun & _ & Hprog); try done; [fold size; lia|].
    exists s'. split; [exact Hrun|]. by eapply Hexact.
Qed.

Lemma one_pass_writes_exactly_witness :
  (∃ s', write_loop 10 sample_wiper sample_env (replicate 4 x00) 0 0 sample_pass_start
           = Some (Next (10, 0 + 10) s') ∧
         ∃ new offset chunk rest,
           st_io s' = new ++ st_io sample_pass_start ∧ written_bytes new = 10 ∧
           within 10 new ∧ new = Wrote offset chunk :: rest ∧
           Z.of_nat (length chunk) = 2) ∧
  (∃ s', write_file_loop 10 sample_wiper sample_env (replicate 4 x00) 0 sample_pass_start
           = Some (Next 10 s') ∧
         ∃ new offset chunk rest,
           st_io s' = new ++ st_io sample_pass_start ∧ written_bytes new = 10 ∧
           within 10 new ∧ new = Wrote offset chunk :: rest ∧
           Z.of_nat (length chunk) = 2).
Proof.
  apply (one_pass_writes_exactly sample_wiper sample_env (replicate 4 x00) 0
           sample_pass_start 10); vm_compute; (reflexivity || intros [=] || lia).
Defined.

(** ** What holds all through [_perform_wipe] *)

Lemma chain_cons {A : Type} (R : A → A → Prop) (h : list A) (older newer : A) :
  head h = Some older → chain R h → R older newer → chain R (newer :: h).
Proof. destruct h as [|x h]; [done|]. simpl. intros [= ->] Hc HR. by split. Qed.

Lemma steady_frame (size passes : Z) (s s' : State) :
  steady size passes s →
  st_result s' = st_result s → st_history s' = st_history s → st_io s' = st_io s →
  steady size passes s'.
Proof.
  unfold steady, consistent. intros Hs Hr Hh Hio. by rewrite Hr, Hh, Hio.
Qed.

(** An assignment that leaves status, sizes and the count alone and does
    not lower the number of passes begun. *)
Lemma steady_assign (size passes : Z) (f : WipeResult → WipeResult) (s : State) :
  steady size passes s →
  status (f (st_result s)) = status (st_result s) →
  total_bytes (f (st_result s)) = total_bytes (st_result s) →
  total_passes (f (st_result s)) = total_passes (st_result s) →
  bytes_wiped (f (st_result s)) = bytes_wiped (st_result s) →
  passes_completed (st_result s) ≤ passes_completed (f (st_result s)) →
  steady size passes (assign f s).
Proof.
  intros (Hc & Hl & Hm & Hw & Hst & Htb & Htp & Hsz & Hwr & Hbw) E1 E2 E3 E4 E5.
  unfold steady. simpl. rewrite E1, E2, E3, E4.
  split; [done|]. split; [|split].
  - apply (chain_cons _ _ (st_result s)); [done..|]. rewrite E1. apply transition_refl.
  - apply (chain_cons _ _ (st_result s)); [done..|]. lia.
  - repeat split; try done; nia.
Qed.

(** One more block written and counted. *)
Lemma steady_write (size passes : Z) (s s' : State) (block chunk : bytes) (pos : nat) :
  steady size passes s →
  current_block (st_io s) = Some block → chunk = take (length chunk) block →
  st_result s' =
    set_bytes_wiped (bytes_wiped (st_result s) + Z.of_nat (length chunk)) (st_result s) →
  st_history s' = st_result s' :: st_history s →
  st_io s' = Wrote pos chunk :: st_io s →
  bytes_wiped (st_result s) + Z.of_nat (length chunk)
    ≤ size * passes_completed (st_result s) →
  steady size passes s'.
Proof.
  intros (Hc & Hl & Hm & Hw & Hst & Htb & Htp & Hsz & Hwr & Hbw) Hb Hch Hr Hh Hio Hle.
  unfold steady, consistent. rewrite Hh, Hio, Hr. simpl.
  split; [done|]. split; [|split].
  - apply (chain_cons _ _ (st_result s)); [done..|]. simpl. apply transition_refl.
  - apply (chain_cons _ _ (st_result s)); [done..|]. simpl. lia.
  - repeat split; try done; try lia. by exists block.
Qed.

Section device_passes.
Variables (self : DataWiper) (env : Env) (size passes : Z).

Lemma write_block_in_pass (pass_data : bytes) (pn p t : Z) (s : State) :
  in_pass size passes self env pass_data pn p t s → p < size →
  match write_block self env pass_data p t s with
  | Next (p', t') s' => in_pass size passes self env pass_data pn p' t' s'
  | out => exit_ok size passes env out
  end.
Proof.
  intros (Hst & Hun & Hpc & Hpn & Hp & Ht & Hbw & Hy & Hcb & Hlen) Hlt.
  pose proof (write_block_spec self env pass_data p t s) as Hspec.
  assert (Hsize : total_bytes (st_result s) = size) by apply Hst.
  rewrite Hsize in Hspec. cbv zeta in Hspec.
  pose proof (next_chunk_length self pass_data (size - p) Hlen ltac:(lia)) as Hn.
  pose proof (next_chunk_prefix self pass_data (size - p)) as Hpre.
  set (chunk := next_chunk self pass_data (size - p)) in *.
  destruct (write_block self env pass_data p t s) as [[p' t'] s'|s'|msg s'].
  - destruct Hspec as (-> & -> & Hun' & Hr & Hh & Hio & _).
    assert (steady size passes s') as Hst'.
    { eapply steady_write; try done.
      - by rewrite Hbw.
      - rewrite Hbw, Hpc. nia. }
    unfold in_pass. split; [exact Hst'|]. rewrite Hio, Hr. simpl.
    repeat split; try done; lia.
  - destruct Hspec as ((k & Hk & Hle) & Hfr & Hr & Hh & Hio & _).
    split; [by eapply steady_frame|].
    exists k. split; [done|]. unfold unseen in Hun. rewrite Hk in Hun. lia.
  - destruct Hspec as (_ & Hun' & Hr & Hh & Hio & _).
    split; [by eapply steady_frame|done].
Qed.

Lemma run_pass_poised (fuel : nat) (pass_data : bytes) (pn t : Z) (s : State)
    (out : flow (Z * Z)) :
  poised size passes self env pass_data pn t s →
  run_pass fuel self env pass_data pn t s = Some out →
  match out with
  | Next (pn', t') s' => pn' = pn + 1 ∧ at_boundary size passes env pn' t' s'
  | out => exit_ok size passes env out
  end.
Proof.
  intros (Hst & Hun & Hpc & Hpn & Ht & Hbw & Hy & Hcb & Hlen).
  unfold run_pass.
  pose proof (read_cancelled_spec env s) as Hr.
  destruct (read_cancelled env s) as [b s1].
  destruct Hr as (Hb & Hfr & Hres & Hh & Hio & _).
  assert (steady size passes s1) as Hst1 by (by eapply steady_frame).
  destruct b.
  { intros [= <-]. split; [done|].
    destruct Hb as (k & Hk & Hle). exists k. split; [done|].
    unfold unseen in Hun. rewrite Hk in Hun. lia. }
  set (s2 := seek0 (assign (set_passes_completed (pn + 1)) s1)).
  assert (in_pass size passes self env pass_data (pn + 1) 0 t s2) as Hin.
  { assert (steady size passes s2) as Hst2.
    { apply (steady_frame _ _ (assign (set_passes_completed (pn + 1)) s1));
        [|done..].
      apply steady_assign; try done. simpl. rewrite Hres. lia. }
    assert (0 ≤ size) by apply Hst.
    unfold in_pass. split; [exact Hst2|]. subst s2. simpl. rewrite Hres, Hio.
    repeat split; try done; lia. }
  destruct (write_loop fuel self env pass_data 0 t s2) as [out'|] eqn:Hloop;
    [|discriminate].
  pose proof (write_loop_rule self env pass_data
                (in_pass size passes self env pass_data (pn + 1))
                (λ o, match o with
                      | Next (_, t') s' => at_boundary size passes env (pn + 1) t' s'
                      | o => exit_ok size passes env o
                      end)) as Hrule.
  specialize (Hrule ltac:(
    intros p t0 s0 (Hst0 & Hun0 & Hpc0 & Hpn0 & Hp0 & Ht0 & Hbw0 & Hy0 & _) Hge;
    assert (total_bytes (st_result s0) = size) as E by apply Hst0;
    rewrite E in Hge; unfold at_boundary; split; [exact Hst0|];
    repeat split; try done; lia)).
  specialize (Hrule ltac:(
    intros p t0 s0 Hin0 Hlt0;
    assert (total_bytes (st_result s0) = size) as E by apply Hin0;
    rewrite E in Hlt0;
    pose proof (write_block_in_pass pass_data (pn + 1) p t0 s0 Hin0 Hlt0) as Hw;
    destruct (write_block self env pass_data p t0 s0) as [[??]?|?|??]; exact Hw)).
  specialize (Hrule fuel 0 t s2 out' Hin Hloop).
  destruct out' as [[p' t'] s'|s'|msg s']; intros [= <-]; [by split|done..].
Qed.
End device_passes.

(** What one [next()] on the generator does. *)
Lemma gen_next_spec (self : DataWiper) (env : Env) (g : generator) (s : State) :
  match gen_next self env g s with
  | GenYield block g' s' =>
      ∃ p, gen_step g = Some (p, g') ∧
           block_of (entropy env) (st_draws s) (block_size self) p = inr block ∧
           st_draws s' = (if uses_entropy p then S (st_draws s) else st_draws s) ∧
           st_io s' = Yielded block :: st_io s ∧
           st_result s' = st_result s ∧ st_history s' = st_history s ∧
           st_data s' = st_data s ∧ st_flag_reads s' = st_flag_reads s ∧
           st_clock_reads s' = st_clock_reads s
  | GenStop => gen_step g = None
  | GenRaise _ s' =>
      st_io s' = st_io s ∧
      st_result s' = st_result s ∧ st_history s' = st_history s ∧
      st_data s' = st_data s ∧ st_flag_reads s' = st_flag_reads s ∧
      st_clock_reads s' = st_clock_reads s
  end.
Proof.
  unfold gen_next. destruct (gen_step g) as [[p g']|]; [|done].
  destruct (block_of _ _ _ p) as [msg|block] eqn:Hb; simpl; [done|].
  exists p. by rewrite Hb.
Qed.

Lemma gen_step_unit (g g' : generator) (p : pass_source) :
  unit_generator g = true → gen_step g = Some (p, g') →
  unit_source p = true ∧ unit_generator g' = true.
Proof.
  destruct g as [q|[|q ps]]; simpl; try discriminate.
  - intros Hq [= <- <-]. by split.
  - intros Hq [= <- <-]. by apply andb_prop in Hq.
Qed.

Lemma get_pattern_data_unit (pattern : WipePattern) :
  unit_generator (get_pattern_data pattern) = true.
Proof. by destruct pattern. Qed.

Section device_run.
Variables (self : DataWiper) (env : Env) (size passes : Z).

Lemma gen_next_boundary (g : generator) (pn t : Z) (s : State) :
  at_boundary size passes env pn t s → unit_generator g = true →
  match gen_next self env g s with
  | GenYield block g' s' =>
      poised size passes self env block pn t s' ∧ unit_generator g' = true
  | GenStop => True
  | GenRaise msg s' => exit_ok size passes env (Raise (A := ()) msg s')
  end.
Proof.
  intros (Hst & Hun & Hpc & Hpn & Ht & Hbw & Hy) Hg.
  pose proof (gen_next_spec self env g s) as Hspec.
  destruct (gen_next self env g s) as [block g' s'| |msg s']; [|done|].
  - destruct Hspec as (p & Hstep & Hblock & _ & Hio & Hr & Hh & _ & Hfr & _).
    destruct (gen_step_unit g g' p Hg Hstep) as [Hp Hg'].
    split; [|done].
    assert (steady size passes s') as Hst'.
    { destruct Hst as (Hc & Hl & Hm & Hw & Hrest).
      unfold steady, consistent. by rewrite Hh, Hr, Hio. }
    unfold poised. split; [exact Hst'|]. rewrite Hr, Hio. simpl.
    repeat split; try done.
    + unfold unseen in *. by rewrite Hfr.
    + lia.
    + by eapply block_of_length.
  - destruct Hspec as (Hio & Hr & Hh & _ & Hfr & _).
    split; [by eapply steady_frame|]. unfold unseen in *. by rewrite Hfr.
Qed.

(** An invariant [P] of the passes yields [Q] of however the [for]
    loop ends. *)
Lemma pass_loop_rule (wfuel : nat) (P : generator → Z → Z → State → Prop)
    (Q : flow () → Prop) :
  (∀ g pn t s, P g pn t s →
     match gen_next self env g s with
     | GenStop => Q (Next () s)
     | GenRaise msg s' => Q (Raise msg s')
     | GenYield pass_data g' s' =>
         ∀ out, run_pass wfuel self env pass_data pn t s' = Some out →
           match out with
           | Next (pn', t') s'' =>
               if total_passes (st_result s'') <=? pn' then Q (Next () s'')
               else P g' pn' t' s''
           | ReturnFalse s'' => Q (ReturnFalse s'')
           | Raise msg s'' => Q (Raise msg s'')
           end
     end) →
  ∀ fuel g pn t s out,
    P g pn t s → pass_loop fuel wfuel self env g pn t s = Some out → Q out.
Proof.
  intros Hstep fuel.
  induction fuel as [|fuel IH]; intros g pn t s out HP; simpl; [done|].
  specialize (Hstep g pn t s HP).
  destruct (gen_next self env g s) as [block g' s'| |msg s'].
  - destruct (run_pass wfuel self env block pn t s') as [o|]; [|done].
    specialize (Hstep o eq_refl).
    destruct o as [[pn' t'] s''|s''|msg s'']; try by intros [= <-].
    destruct (total_passes (st_result s'') <=? pn'); [by intros [= <-]|].
    by apply IH.
  - by intros [= <-].
  - by intros [= <-].
Qed.

(** However the loops of [_perform_wipe] end, they end in order. *)
Lemma pass_loop_steady (fuel wfuel : nat) (g : generator) (pn t : Z) (s : State)
    (out : flow ()) :
  at_boundary size passes env pn t s → unit_generator g = true →
  pass_loop fuel wfuel self env g pn t s = Some out →
  exit_ok size passes env out.
Proof.
  intros Hb Hg.
  apply (pass_loop_rule wfuel
           (λ g pn t s, at_boundary size passes env pn t s ∧ unit_generator g = true)
           (exit_ok size passes env)); [|by split].
  clear. intros g pn t s [Hb Hg].
  pose proof (gen_next_boundary g pn t s Hb Hg) as Hgen.
  destruct (gen_next self env g s) as [block g' s'| |msg s']; [|by exists pn, t|done].
  destruct Hgen as [Hpo Hg']. intros out Hrun.
  pose proof (run_pass_poised self env size passes wfuel block pn t s' out Hpo Hrun)
    as Hout.
  destruct out as [[pn' t'] s''|s''|msg s'']; [|done..].
  destruct Hout as [-> Hb'].
  destruct (total_passes (st_result s'') <=? pn + 1); [by exists (pn + 1), t'|by split].
Qed.

Lemma perform_wipe_steady (fuel : nat) (pattern : WipePattern) (s s1 : State)
    (e : wipe_exit) :
  at_boundary size passes env 0 0 s →
  _perform_wipe fuel self env pattern s = Some (e, s1) →
  match e with
  | WipeDone => ∃ pn t, at_boundary size passes env pn t s1
  | WipeCancelled =>
      steady size passes s1 ∧ ∃ k, cancel_after env = Some k ∧ st_flag_reads s1 = S k
  | WipeError =>
      steady size passes s1 ∧ unseen env s1 ∧ is_Some (error_message (st_result s1))
  end.
Proof.
  intros Hb. unfold _perform_wipe.
  destruct (opens_for_update env).
  - destruct (pass_loop fuel fuel self env (get_pattern_data pattern) 0 0 s)
      as [out|] eqn:Hloop; [|done].
    pose proof (pass_loop_steady fuel fuel _ 0 0 s out Hb
                  (get_pattern_data_unit pattern) Hloop) as Hout.
    destruct out as [[] s'|s'|msg s']; intros [= <- <-]; try done.
    destruct Hout as [Hst Hun]. split; [|split; [done|by eexists]].
    by apply steady_assign.
  - intros [= <- <-]. destruct Hb as (Hst & Hun & _).
    split; [|split; [done|by eexists]]. by apply steady_assign.
Qed.
End device_run.

(** ** From the loops to the public operations *)

Lemma follows_frame (R : WipeResult → WipeResult → Prop) (s s' : State) :
  follows R s → st_result s' = st_result s → st_history s' = st_history s →
  follows R s'.
Proof. unfold follows, consistent. intros H Hr Hh. by rewrite Hr, Hh. Qed.

Lemma follows_assign (R : WipeResult → WipeResult → Prop)
    (f : WipeResult → WipeResult) (s : State) :
  follows R s → R (st_result s) (f (st_result s)) → follows R (assign f s).
Proof.
  intros [Hc Hch] HR. split; [done|]. by apply (chain_cons _ _ (st_result s)).
Qed.

Lemma follows_update_progress (R : WipeResult → WipeResult → Prop)
    (self : DataWiper) (s : State) :
  follows R s → follows R (_update_progress self s).
Proof.
  intros H. unfold _update_progress. destruct (progress_callback self); [|done].
  by eapply follows_frame.
Qed.

Lemma follows_stamp_end (R : WipeResult → WipeResult → Prop) (env : Env) (s : State) :
  follows R s →
  (∀ t, R (st_result s) (set_end_time t (st_result s))) →
  follows R (stamp_end env s).
Proof.
  intros H HR. unfold stamp_end, read_clock. apply follows_assign; [|apply HR].
  by eapply follows_frame.
Qed.

Lemma steady_follows (size passes : Z) (s : State) :
  steady size passes s → follows status_step s ∧ follows count_step s.
Proof. intros (Hc & Hl & Hm & _). by split. Qed.

(** The state in which [wipe_device] enters [_perform_wipe]. *)
Lemma device_ready_boundary (self : DataWiper) (env : Env) (content : bytes)
    (path : string) (pattern : WipePattern) :
  at_boundary (_get_device_size env content) (_get_pass_count pattern) env 0 0
    (device_ready self env content path pattern).
Proof.
  assert (0 ≤ _get_device_size env content)
    by (unfold _get_device_size; destruct (size_query_fails env); lia).
  unfold device_ready, _update_progress.
  destruct (progress_callback self); simpl;
    (split; [unfold steady, consistent, lawful, monotone; simpl;
             repeat split; try done; lia|]);
    unfold unseen; simpl; repeat split; try done;
    destruct (cancel_after env); lia || done.
Qed.

(** What [conclude] decides: a terminal status, stamped with an end time,
    [cancelled] whenever the flag is set by then, [completed] only after
    [return True]. *)
Lemma conclude_spec (env : Env) (e : wipe_exit) (s : State) :
  ∃ s',
    (conclude env e s).2 = stamp_end env (assign (set_status (conclude env e s).1) s') ∧
    st_result s' = st_result s ∧ st_history s' = st_history s ∧
    st_io s' = st_io s ∧ st_data s' = st_data s ∧
    terminal (conclude env e s).1 = true ∧
    ((∃ k, cancel_after env = Some k ∧ (k ≤ st_flag_reads s)%nat) →
     (conclude env e s).1 = CANCELLED) ∧
    ((conclude env e s).1 = COMPLETED → e = WipeDone).
Proof.
  unfold conclude, read_cancelled.
  destruct e; simpl; destruct (cancel_after env) as [k|]; simpl;
    repeat case_bool_decide; simpl;
    eexists; (split; [reflexivity|]); simpl; repeat split; try done;
    try (intros (k' & [= <-] & Hle); lia || done);
    try (intros (k' & [=] & _)); try lia.
Qed.

Lemma stamp_end_spec (env : Env) (s : State) :
  ∃ t,
    st_result (stamp_end env s) = set_end_time (Some t) (st_result s) ∧
    st_history (stamp_end env s) = st_result (stamp_end env s) :: st_history s ∧
    st_io (stamp_end env s) = st_io s ∧ st_data (stamp_end env s) = st_data s.
Proof. by eexists. Qed.

(** ** The status along the history *)




Section file_run.
Variables (self : DataWiper) (env : Env).

Lemma file_pass_loop_rule (wfuel : nat) (P : generator → Z → State → Prop)
    (Q : flow () → Prop) :
  (∀ g pn s, P g pn s →
     match gen_next self env g s with
     | GenStop => Q (Next () s)
     | GenRaise msg s' => Q (Raise msg s')
     | GenYield pass_data g' s' =>
         ∀ out, run_file_pass wfuel self env pass_data pn s' = Some out →
           match out with
           | Next _ s'' =>
               if total_passes (st_result s'') <=? pn then Q (Next () s'')
               else P g' (pn + 1) s''
           | ReturnFalse s'' => Q (ReturnFalse s'')
           | Raise msg s'' => Q (Raise msg s'')
           end
     end) →
  ∀ fuel g pn s out,
    P g pn s → file_pass_loop fuel wfuel self env g pn s = Some out → Q out.
Proof.
  intros Hstep fuel.
  induction fuel as [|fuel IH]; intros g pn s out HP; simpl; [done|].
  specialize (Hstep g pn s HP).
  destruct (gen_next self env g s) as [block g' s'| |msg s'].
  - destruct (run_file_pass wfuel self env block pn s') as [o|]; [|done].
    specialize (Hstep o eq_refl).
    destruct o as [[] s''|s''|msg s'']; try by intros [= <-].
    destruct (total_passes (st_result s'') <=? pn); [by intros [= <-]|].
    by apply IH.
  - by intros [= <-].
  - by intros [= <-].
Qed.



End file_run.







(** ** The reported count *)

(** In [wipe_device] the reported count never decreases. *)
Lemma wipe_device_count_is_monotone (fuel : nat) (self : DataWiper) (env : Env)
    (content : bytes) (path : string) (pattern : WipePattern) (quick_format : bool)
    (s : State) :
  wipe_device fuel self env content path pattern quick_format = Some s →
  monotone (st_history s).
Proof.
  unfold wipe_device. destruct (_validate_device env); simpl negb; cbv iota;
    [|intros [= <-]; by repeat split].
  destruct (_perform_wipe fuel self env pattern _) as [[e s1]|] eqn:Hp; [|done].
  assert (follows count_step s1) as Hf.
  { pose proof (perform_wipe_steady self env _ _ fuel pattern _ s1 e
                  (device_ready_boundary self env content path pattern) Hp) as H.
    destruct e; [destruct H as (? & ? & H)|destruct H as [H _]..];
      eapply steady_follows; apply H. }
  destruct (conclude_spec env e s1) as (s' & Hs2 & Hr & Hh & _).
  destruct (conclude env e s1) as [st s2]. simpl in Hs2. subst s2.
  assert (follows count_step (stamp_end env (assign (set_status st) s'))) as Hf2.
  { apply follows_stamp_end; [|intros t; unfold count_step; simpl; lia].
    apply follows_assign; [by apply (follows_frame _ s1)|].
    unfold count_step. simpl. lia. }
  intros [= <-]. apply (follows_update_progress _ self).
  destruct st; try done.
  assert (follows count_step
            (if verify_wipe self
             then assign (set_verification_hash
                            (Some (_verify_wipe_completion self env
                                     (stamp_end env (assign (set_status COMPLETED) s')))))
                    (stamp_end env (assign (set_status COMPLETED) s'))
             else stamp_end env (assign (set_status COMPLETED) s'))) as Hf3.
  { destruct (verify_wipe self); [|done].
    apply follows_assign; [done|]. unfold count_step. simpl. lia. }
  destruct quick_format; [|done]. destruct (_quick_format env); [|done].
  unfold on_exception.
  apply follows_stamp_end; [|intros t; unfold count_step; simpl; lia].
  apply follows_assign; [|unfold count_step; simpl; lia].
  apply follows_assign; [done|]. unfold count_step. simpl. lia.
Qed.

(** C6 — the defect.  [wipe_file] with the three-pass scheme on a file of
    ten bytes, block size 4: the reported [bytes_wiped] goes 4, 8, 10 and
    falls back to 4 at the start of the second and of the third pass, and
    ends at 10, not 30.  [wipe_device] on the same input counts on:
    4, 8, 10, 14, 18, 20, 24, 28, 30. *)
Theorem wipe_file_count_restarts :
  wipe_file 20 sample_wiper sample_env sample_content "/tmp/secret.bin"
    DOD_3_PASS false = Some sample_file_three_pass ∧
  bytes_wiped <$> reverse (st_history sample_file_three_pass) =
    [0; 0; 0; 0; 0; 4; 8; 10; 10; 4; 8; 10; 10; 4; 8; 10; 10; 10] ∧
  ¬ monotone (st_history sample_file_three_pass) ∧
  wipe_device 20 sample_wiper sample_env sample_content "/dev/sdx"
    DOD_3_PASS false = Some sample_device_three_pass ∧
  bytes_wiped <$> reverse (st_history sample_device_three_pass) =
    [0; 0; 0; 0; 0; 4; 8; 10; 10; 14; 18; 20; 20; 24; 28; 30; 30; 30].
Proof.
  repeat split; try (vm_compute; reflexivity).
  intros H. unfold monotone in H. simpl in H. lia.
Qed.

(** ** A target that cannot be reached *)




(** ** An undisturbed run *)

Lemma tiled_step (block data chunk : bytes) (k : nat) :
  (0 < length block)%nat →
  (k * length block + length chunk ≤ length data)%nat →
  chunk = take (length chunk) block →
  tiled block (take (k * length block) data) →
  length (overwrite data (k * length block) chunk) = length data ∧
  tiled block (take (k * length block + length chunk)
                 (overwrite data (k * length block) chunk)).
Proof.
  intros HB Hfit Hpre Htile. unfold overwrite.
  set (p := (k * length block)%nat) in *.
  assert (resize p x00 data = take p data) as ->
    by (rewrite resize_le by lia; done).
  assert (length chunk ≤ length block)%nat as Hcl
    by (rewrite Hpre, length_take; lia).
  split.
  - rewrite !length_app, length_take, length_drop. lia.
  - rewrite app_assoc, take_app_length'
      by (rewrite length_app, length_take; lia).
    intros i x Hi. apply lookup_app_Some in Hi as [Hi|[Hge Hi]].
    + by apply Htile.
    + rewrite length_take, Nat.min_l in Hge, Hi by lia.
      assert (i - p < length chunk)%nat as Hlt by (by eapply lookup_lt_Some).
      assert (i mod length block = i - p)%nat as ->.
      { replace i with ((i - p) + k * length block)%nat at 1 by lia.
        rewrite Nat.Div0.mod_add. apply Nat.mod_small. lia. }
      rewrite Hpre in Hi. by rewrite lookup_take_lt in Hi by lia.
Qed.



Lemma block_of_unit (entropy : nat → nat → byte) (d : nat) (n : Z) (p : pass_source) :
  unit_source p = true → 0 ≤ n → ∃ block, block_of entropy d n p = inr block.
Proof.
  destruct p as [[|b [|]]| |]; simpl; try discriminate; intros _ Hn; [by eexists|].
  unfold token_bytes. destruct (Z.ltb_spec n 0); [lia|by eexists].
Qed.

(** A generator with a yield left hands over its next source. *)
Lemma gen_step_can_yield (n : Z) (g : generator) :
  can_yield n g → 1 ≤ n →
  ∃ p g',
    gen_step g = Some (p, g') ∧ can_yield (n - 1) g' ∧
    p ∈ gen_sources g ∧ gen_sources g' ⊆ gen_sources g ∧
    ∀ k, upcoming (S k) g = p :: upcoming k g'.
Proof.
  destruct g as [p|[|p ps]]; simpl; intros Hc Hn.
  - exists p, (Forever p). repeat split; try done. by apply list_elem_of_here.
  - lia.
  - exists p, (Passes ps). simpl. repeat split; try done; try lia.
    + by apply list_elem_of_here.
    + intros x Hx. by apply list_elem_of_further.
Qed.

Section undisturbed.
Variables (self : DataWiper) (env : Env) (size passes : Z).
Hypothesis block_positive : 0 < block_size self.
Hypothesis never_cancelled : cancel_after env = None.
Hypothesis never_faulty : write_fault env = None.


End undisturbed.

Lemma pass_count_bounds (pattern : WipePattern) :
  1 ≤ _get_pass_count pattern ≤ 35 ∧
  can_yield (_get_pass_count pattern) (get_pattern_data pattern) ∧
  randoms (Z.to_nat (_get_pass_count pattern)) (get_pattern_data pattern)
    = random_passes pattern.
Proof. destruct pattern; simpl; repeat split; try lia; reflexivity. Qed.


(** ** Whole runs *)





(** ** Cancellation *)


Section file_cancellation.
Variables (self : DataWiper) (env : Env) (size : Z).



End file_cancellation.




(* ===================================================================== *)
(** * Properties of the certificate subsystem *)
(* ===================================================================== *)

(** ** Hexadecimal text *)

Lemma hex_pair_decodes (x : byte) :
  let n := Byte.to_N x in
  is_ascii_space (hex_digit (n / 16)) = false ∧
  hex_value (hex_digit (n / 16)) = Some (n / 16)%N ∧
  hex_value (hex_digit (n mod 16)) = Some (n mod 16)%N ∧
  Byte.of_N (16 * (n / 16) + n mod 16) = Some x.
Proof. destruct x; vm_compute; done. Qed.

Lemma string_app_nil_l (s : string) : "" +:+ s = s.
Proof. reflexivity. Qed.

Lemma string_app_cons (a : ascii) (s t : string) :
  String a s +:+ t = String a (s +:+ t).
Proof. reflexivity. Qed.

Lemma string_app_nil_r (s : string) : s +:+ "" = s.
Proof.
  induction s as [|a s IH]; [done|]. rewrite string_app_cons. by f_equal.
Qed.

Lemma bytes_fromhex_hex_app (b : bytes) (rest : string) :
  bytes_fromhex (bytes_hex b +:+ rest) = (b ++.) <$> bytes_fromhex rest.
Proof.
  induction b as [|x b IH].
  - cbn [bytes_hex]. rewrite string_app_nil_l. by destruct (bytes_fromhex rest).
  - destruct (hex_pair_decodes x) as (Hsp & Hhi & Hlo & Hx).
    cbv zeta in Hsp, Hhi, Hlo, Hx.
    cbn [bytes_hex]. rewrite !string_app_cons. cbn [bytes_fromhex].
    rewrite Hsp, Hhi, Hlo, Hx, IH. by destruct (bytes_fromhex rest).
Qed.

Lemma bytes_fromhex_hex (b : bytes) : bytes_fromhex (bytes_hex b) = Some b.
Proof.
  rewrite <- (string_app_nil_r (bytes_hex b)), bytes_fromhex_hex_app.
  simpl. by rewrite app_nil_r.
Qed.

(** Trailing white space does not change what a hexadecimal text decodes to. *)
Lemma bytes_fromhex_trailing_space (b : bytes) :
  bytes_fromhex (bytes_hex b +:+ " ") = Some b.
Proof. rewrite bytes_fromhex_hex_app. simpl. by rewrite app_nil_r. Qed.

(** ** The dictionary of a certificate *)

Lemma jopt_inj (a b : option string) : jopt a = jopt b → a = b.
Proof. destruct a, b; simpl; congruence. Qed.

Lemma to_dict_lookup (c : WipeCertificate) (f : cert_field) :
  to_dict c !! field_name f = Some (field_value f c).
Proof. destruct f; reflexivity. Qed.

(** Two certificates with the same field values are the same certificate. *)
Lemma certificate_ext (c c' : WipeCertificate) :
  (∀ f, field_value f c = field_value f c') → c = c'.
Proof.
  intros Hf. destruct c, c'.
  pose proof (Hf F_certificate_id); pose proof (Hf F_device_path);
  pose proof (Hf F_device_serial); pose proof (Hf F_device_model);
  pose proof (Hf F_device_size_bytes); pose proof (Hf F_wipe_pattern);
  pose proof (Hf F_wipe_start_time); pose proof (Hf F_wipe_end_time);
  pose proof (Hf F_wipe_duration_seconds); pose proof (Hf F_bytes_wiped);
  pose proof (Hf F_passes_completed); pose proof (Hf F_verification_hash);
  pose proof (Hf F_status); pose proof (Hf F_operator);
  pose proof (Hf F_organization); pose proof (Hf F_nist_compliance);
  pose proof (Hf F_certificate_hash); pose proof (Hf F_digital_signature);
  pose proof (Hf F_created_at); pose proof (Hf F_version).
  clear Hf. simpl in *.
  repeat match goal with
         | E : jopt _ = jopt _ |- _ => apply jopt_inj in E
         end.
  by simplify_eq.
Qed.

Section certificate_facts.
Context `{Backend}.

Lemma signed_dict_lookup (c : WipeCertificate) (f : cert_field) :
  f ≠ F_certificate_hash → f ≠ F_digital_signature →
  signed_dict c !! field_name f = Some (field_value f c).
Proof. destruct f; try reflexivity; congruence. Qed.

Lemma signed_dict_set_signature (v : string) (c : WipeCertificate) :
  signed_dict (Cert.set_digital_signature v c) = signed_dict c.
Proof. reflexivity. Qed.

Lemma signed_dict_set_hash (v : string) (c : WipeCertificate) :
  signed_dict (Cert.set_certificate_hash v c) = signed_dict c.
Proof. reflexivity. Qed.

(** The hashed dictionary is a function of the eighteen other fields. *)
Lemma signed_dict_ext (c c' : WipeCertificate) :
  (∀ f, f ≠ F_certificate_hash → f ≠ F_digital_signature →
        field_value f c = field_value f c') →
  signed_dict c = signed_dict c'.
Proof.
  intros Hf.
  rewrite <- (signed_dict_set_hash (Cert.certificate_hash c') c).
  rewrite <- (signed_dict_set_signature (Cert.digital_signature c')
                (Cert.set_certificate_hash _ c)).
  f_equal. apply certificate_ext. intros f.
  destruct f; try reflexivity;
    match goal with
    | |- field_value ?f _ = _ => exact (Hf f ltac:(discriminate) ltac:(discriminate))
    end.
Qed.

(** What [verify_certificate] computes, in terms of the fields. *)
Lemma verify_certificate_unfold (g : CertificateGenerator) (c : WipeCertificate) :
  verify_certificate g c =
  if bool_decide (Cert.certificate_hash c ≠ cert_digest c) then false
  else match bytes_fromhex (Cert.digital_signature c) with
       | Some signature =>
           pss_verify (public_key g) signature (str_encode (cert_digest c))
       | None => false
       end.
Proof.
  unfold verify_certificate, cert_digest, signed_dict, dict_pop.
  change (to_dict c !! "certificate_hash"%string)
    with (Some (JStr (Cert.certificate_hash c))).
  change (delete "certificate_hash"%string (to_dict c) !! "digital_signature"%string)
    with (Some (JStr (Cert.digital_signature c))).
  cbv beta iota zeta.
  repeat case_bool_decide; congruence || done.
Qed.

(** What an issued certificate carries. *)
Lemma generate_certificate_inr (g : CertificateGenerator) (r : WipeResult)
    (info : option (gmap string string)) (ienv : IssueEnv) (c : WipeCertificate) :
  generate_certificate g r info ienv = inr c →
  Cert.certificate_hash c = cert_digest c ∧
  Cert.status c = WipeStatus_value (status r) ∧
  Cert.bytes_wiped c = bytes_wiped r ∧
  Cert.wipe_end_time c =
    match end_time r with Some e => isoformat e | None => ""%string end ∧
  ∃ signature,
    pss_sign (private_key g) (pss_salt ienv) (str_encode (cert_digest c)) = inr signature ∧
    Cert.digital_signature c = bytes_hex signature.
Proof.
  unfold generate_certificate, _sign_data.
  set (c0 := Cert.mk _ _ _ _ _ _ _ _ _ _ _ _ _ _ _ _ _ _ _ _).
  destruct (pss_sign _ _ _) as [msg|signature] eqn:Hs; [discriminate|].
  intros [= <-]. unfold cert_digest in *.
  rewrite signed_dict_set_signature, signed_dict_set_hash.
  repeat split; eauto.
Qed.

Lemma generate_certificate_returns (g : CertificateGenerator) (r : WipeResult)
    (info : option (gmap string string)) (ienv : IssueEnv) :
  key_usable (private_key g) → ∃ c, generate_certificate g r info ienv = inr c.
Proof.
  intros Hk. unfold generate_certificate, _sign_data.
  set (c0 := Cert.mk _ _ _ _ _ _ _ _ _ _ _ _ _ _ _ _ _ _ _ _).
  destruct (Hk (pss_salt ienv) (str_encode (cert_digest c0))) as [sig ->]. eauto.
Qed.

(** An issued certificate verifies under the key pair that issued it. *)
Lemma issued_certificate_verifies (key : private_key_t) (organization operator : string)
    (r : WipeResult) (info : option (gmap string string)) (ienv : IssueEnv)
    (c : WipeCertificate) :
  pss_sound →
  generate_certificate (new_CertificateGenerator key organization operator)
    r info ienv = inr c →
  verify_certificate (new_CertificateGenerator key organization operator) c = true.
Proof.
  intros Hsound Hgen.
  apply generate_certificate_inr in Hgen as (Hh & _ & _ & _ & sig & Hsig & Hhex).
  rewrite verify_certificate_unfold, Hhex, bytes_fromhex_hex.
  rewrite bool_decide_eq_false_2 by (intros Hne; by apply Hne).
  simpl in *. by apply Hsound in Hsig.
Qed.
End certificate_facts.

Section tampering.
Context `{Backend}.

(** Changing a field other than the last two changes the hashed
    dictionary and leaves the stored hash alone. *)
Lemma hashed_field_change (f : cert_field) (c c' : WipeCertificate) :
  f ≠ F_certificate_hash → f ≠ F_digital_signature →
  differs_only_at f c c' →
  signed_dict c' ≠ signed_dict c ∧
  Cert.certificate_hash c' = Cert.certificate_hash c.
Proof.
  intros Hh Hs [Hne Hsame]. split.
  - intros Heq. apply Hne.
    pose proof (signed_dict_lookup c f Hh Hs) as E1.
    pose proof (signed_dict_lookup c' f Hh Hs) as E2.
    rewrite Heq in E2. congruence.
  - specialize (Hsame F_certificate_hash ltac:(congruence)).
    simpl in Hsame. congruence.
Qed.

(** Changing one of the last two fields leaves the digest alone. *)
Lemma unhashed_field_change (f : cert_field) (c c' : WipeCertificate) :
  f = F_certificate_hash ∨ f = F_digital_signature →
  differs_only_at f c c' →
  cert_digest c' = cert_digest c.
Proof.
  intros Hf [_ Hsame]. unfold cert_digest. f_equal. f_equal. f_equal.
  apply signed_dict_ext. intros g Hg1 Hg2. symmetry. apply Hsame.
  destruct Hf; congruence.
Qed.
End tampering.

Lemma sample_backend_sound : pss_sound (H := sample_backend).
Proof.
  intros key salt data signature [= <-]. simpl.
  apply bool_decide_eq_true. by apply suffix_app_r.
Qed.

Lemma sample_key_usable : key_usable (H := sample_backend) ().
Proof. intros salt data. simpl. eauto. Qed.

(** ** Issuing, verifying, tampering *)

(** C2 — Round trip.  For every result whose status is [completed] and
    whose [end_time] is set, and any device information or none, the
    generator whose key the library signs with issues a certificate, and
    [verify_certificate] of the same generator accepts it. *)
Theorem certificate_round_trip `{Backend} (key : private_key_t)
    (organization operator : string) (r : WipeResult)
    (info : option (gmap string string)) (ienv : IssueEnv) (t : datetime) :
  pss_sound → key_usable key →
  status r = COMPLETED → end_time r = Some t →
  ∃ c,
    generate_certificate (new_CertificateGenerator key organization operator)
      r info ienv = inr c ∧
    verify_certificate (new_CertificateGenerator key organization operator) c = true.
Proof.
  intros Hsound Hkey _ _.
  destruct (generate_certificate_returns
              (new_CertificateGenerator key organization operator) r info ienv Hkey)
    as [c Hc].
  exists c. split; [exact Hc|].
  by eapply issued_certificate_verifies.
Qed.

Lemma certificate_round_trip_witness :
  ∃ c,
    generate_certificate (H := sample_backend) sample_generator
      sample_completed None sample_issue = inr c ∧
    verify_certificate (H := sample_backend) sample_generator c = true.
Proof.
  apply (certificate_round_trip (H := sample_backend) () "JNARDDC" "BitWipers System"
           sample_completed None sample_issue 8).
  - exact sample_backend_sound.
  - exact sample_key_usable.
  - reflexivity.
  - reflexivity.
Defined.

(** C3, as the code has it.  Take a certificate [c] that
    [generate_certificate] issued and change the value of exactly one
    field [f].  If [f] is [certificate_hash], verification fails.  If [f]
    is [digital_signature], verification answers what the signature check
    says about the bytes the new text decodes to (and fails when the text
    is not hexadecimal).  For every other field the hashed dictionary
    changes, and verification fails as soon as the digest of the changed
    dictionary differs from the issued one. *)
Theorem tamper_detection `{Backend} (g : CertificateGenerator) (r : WipeResult)
    (info : option (gmap string string)) (ienv : IssueEnv)
    (c c' : WipeCertificate) (f : cert_field) :
  generate_certificate g r info ienv = inr c →
  differs_only_at f c c' →
  match f with
  | F_certificate_hash => verify_certificate g c' = false
  | F_digital_signature =>
      verify_certificate g c' =
      match bytes_fromhex (Cert.digital_signature c') with
      | Some signature =>
          pss_verify (public_key g) signature (str_encode (Cert.certificate_hash c))
      | None => false
      end
  | _ =>
      signed_dict c' ≠ signed_dict c ∧
      (cert_digest c' ≠ cert_digest c → verify_certificate g c' = false)
  end.
Proof.
  intros Hgen Hd.
  apply generate_certificate_inr in Hgen as (Hh & _).
  assert (Hother : f ≠ F_certificate_hash → f ≠ F_digital_signature →
            signed_dict c' ≠ signed_dict c ∧
            (cert_digest c' ≠ cert_digest c → verify_certificate g c' = false)).
  { intros H1 H2.
    destruct (hashed_field_change f c c' H1 H2 Hd) as [Hdict Hhash].
    split; [exact Hdict|]. intros Hdig.
    rewrite verify_certificate_unfold, bool_decide_eq_true_2; [done|congruence]. }
  destruct f; try (apply Hother; discriminate).
  - (* certificate_hash *)
    pose proof (unhashed_field_change _ c c' (or_introl eq_refl) Hd) as Hdig.
    destruct Hd as [Hne _]. simpl in Hne.
    rewrite verify_certificate_unfold, bool_decide_eq_true_2; [done|congruence].
  - (* digital_signature *)
    pose proof (unhashed_field_change _ c c' (or_intror eq_refl) Hd) as Hdig.
    destruct Hd as [_ Hsame].
    specialize (Hsame F_certificate_hash ltac:(discriminate)). simpl in Hsame.
    rewrite verify_certificate_unfold, bool_decide_eq_false_2 by (intros E; apply E; congruence).
    rewrite Hdig, Hh. reflexivity.
Qed.

Lemma tamper_detection_witness :
  verify_certificate (H := sample_backend) sample_generator sample_tampered = false.
Proof.
  refine (proj2 (tamper_detection (H := sample_backend) sample_generator
                   sample_completed None sample_issue
                   sample_certificate sample_tampered F_bytes_wiped _ _) _).
  - reflexivity.
  - split; [vm_compute; discriminate|].
    intros g Hg. destruct g; try reflexivity. congruence.
  - vm_compute. discriminate.
Defined.

(** C3, as stated, fails: the issued sample certificate with its signature
    text put in upper case, or followed by a space, differs from the issued
    one in [digital_signature] only, and still verifies. *)
Lemma altered_signature_text_verifies :
  generate_certificate (H := sample_backend) sample_generator
    sample_completed None sample_issue = inr sample_certificate ∧
  differs_only_at F_digital_signature sample_certificate sample_recased ∧
  verify_certificate (H := sample_backend) sample_generator sample_recased = true ∧
  differs_only_at F_digital_signature sample_certificate sample_respaced ∧
  verify_certificate (H := sample_backend) sample_generator sample_respaced = true.
Proof.
  split; [reflexivity|].
  repeat split; try (vm_compute; discriminate);
    try (intros g Hg; destruct g; try reflexivity; congruence).
Qed.

(** C9, as the code has it.  [generate_certificate] does not look at the
    status: for every result, terminal or not, a generator whose key the
    library signs with returns a certificate that carries the value of
    that status, with an empty [wipe_end_time] when [end_time] is unset. *)
Theorem issuance_ignores_status `{Backend} (g : CertificateGenerator)
    (r : WipeResult) (info : option (gmap string string)) (ienv : IssueEnv) :
  key_usable (private_key g) →
  ∃ c,
    generate_certificate g r info ienv = inr c ∧
    Cert.status c = WipeStatus_value (status r) ∧
    Cert.wipe_end_time c =
      match end_time r with Some e => isoformat e | None => ""%string end.
Proof.
  intros Hkey.
  destruct (generate_certificate_returns g r info ienv Hkey) as [c Hc].
  exists c. split; [exact Hc|].
  apply generate_certificate_inr in Hc as (_ & Hst & _ & Hend & _). by split.
Qed.

Lemma issuance_ignores_status_witness :
  ∃ c,
    generate_certificate (H := sample_backend) sample_generator
      sample_pending None sample_issue = inr c ∧
    Cert.status c = "pending"%string ∧
    Cert.wipe_end_time c = ""%string.
Proof.
  apply (issuance_ignores_status (H := sample_backend) sample_generator
           sample_pending None sample_issue).
  exact sample_key_usable.
Defined.

(** C9, as stated, fails: for the pending sample result the call returns
    a certificate, it does not raise. *)
Lemma pending_result_is_certified :
  status sample_pending = PENDING ∧
  generate_certificate (H := sample_backend) sample_generator
    sample_pending None sample_issue = inr sample_pending_certificate ∧
  Cert.status sample_pending_certificate = "pending"%string.
Proof. repeat split. Qed.

(** * Further properties of the engine *)

(** ** What the loops never change *)

Section kept.
Variables (self : DataWiper) (env : Env) (I : WipeResult → Prop).
Hypothesis blind : count_blind I.

Lemma write_block_keeps (pass_data : bytes) (p t : Z) (s : State) :
  I (st_result s) → result_exit I (write_block self env pass_data p t s).
Proof.
  intros Hs.
  pose proof (write_block_spec self env pass_data p t s) as Hspec. cbv zeta in Hspec.
  destruct (write_block self env pass_data p t s) as [[p' t'] s'|s'|msg s']; simpl.
  - destruct Hspec as (_ & _ & _ & -> & _). by apply blind.
  - by destruct Hspec as (_ & _ & -> & _).
  - by destruct Hspec as (_ & _ & -> & _).
Qed.

Lemma write_loop_keeps (pass_data : bytes) (fuel : nat) (p t : Z) (s : State)
    (out : flow (Z * Z)) :
  I (st_result s) →
  write_loop fuel self env pass_data p t s = Some out → result_exit I out.
Proof.
  intros Hs. revert fuel p t s out Hs.
  apply (write_loop_rule self env pass_data (λ _ _ s, I (st_result s))
           (result_exit I)); [done|].
  intros p t s Hs _. pose proof (write_block_keeps pass_data p t s Hs) as H.
  by destruct (write_block self env pass_data p t s) as [[p' t'] s'|s'|msg s'].
Qed.

Lemma run_pass_keeps (pass_data : bytes) (fuel : nat) (pn t : Z) (s : State)
    (out : flow (Z * Z)) :
  I (st_result s) →
  run_pass fuel self env pass_data pn t s = Some out →
  result_exit I out ∧
  match out with Next (pn', _) _ => pn' = pn + 1 | _ => True end.
Proof.
  intros Hs. unfold run_pass.
  destruct (read_cancelled env s) as [[|] s1] eqn:E;
    assert (st_result s1 = st_result s) as Hr
      by (unfold read_cancelled in E; by injection E as _ <-).
  { intros [= <-]. simpl. by rewrite Hr. }
  set (s2 := seek0 (assign (set_passes_completed (pn + 1)) s1)).
  assert (I (st_result s2)) as Hs2 by (simpl; rewrite Hr; by apply blind).
  destruct (write_loop fuel self env pass_data 0 t s2) as [out'|] eqn:Hloop; [|done].
  pose proof (write_loop_keeps pass_data fuel 0 t s2 out' Hs2 Hloop) as Hz.
  destruct out' as [[p' t'] s'|s'|msg s']; by intros [= <-].
Qed.

Lemma gen_next_keeps (g : generator) (s : State) :
  I (st_result s) →
  match gen_next self env g s with
  | GenYield _ _ s' | GenRaise _ s' => I (st_result s')
  | GenStop => True
  end.
Proof.
  intros Hs. pose proof (gen_next_spec self env g s) as Hspec.
  destruct (gen_next self env g s) as [block g' s'| |msg s']; [|done|].
  - by destruct Hspec as (p & _ & _ & _ & _ & -> & _).
  - by destruct Hspec as (_ & -> & _).
Qed.

Lemma pass_loop_keeps (fuel wfuel : nat) (g : generator) (pn t : Z) (s : State)
    (out : flow ()) :
  I (st_result s) →
  pass_loop fuel wfuel self env g pn t s = Some out → result_exit I out.
Proof.
  intros Hs. revert fuel g pn t s out Hs.
  apply (pass_loop_rule self env wfuel (λ _ _ _ s, I (st_result s)) (result_exit I)).
  intros g pn t s Hs. pose proof (gen_next_keeps g s Hs) as Hgen.
  destruct (gen_next self env g s) as [block g' s1| |msg s1]; [|done..].
  intros out Hout.
  destruct (run_pass_keeps block wfuel pn t s1 out Hgen Hout) as [Hz _].
  destruct out as [[pn' t'] s2|s2|msg s2]; [|done..].
  by destruct (total_passes (st_result s2) <=? pn').
Qed.

Lemma write_file_block_keeps (pass_data : bytes) (p : Z) (s : State) :
  I (st_result s) → result_exit I (write_file_block self env pass_data p s).
Proof.
  intros Hs.
  pose proof (write_file_block_spec self env pass_data p s) as Hspec. cbv zeta in Hspec.
  destruct (write_file_block self env pass_data p s) as [p' s'|s'|msg s']; simpl.
  - destruct Hspec as (_ & _ & -> & _). by apply blind.
  - by destruct Hspec as (_ & _ & -> & _).
  - by destruct Hspec as (_ & _ & -> & _).
Qed.

Lemma write_file_loop_keeps (pass_data : bytes) (fuel : nat) (p : Z) (s : State)
    (out : flow Z) :
  I (st_result s) →
  write_file_loop fuel self env pass_data p s = Some out → result_exit I out.
Proof.
  intros Hs. revert fuel p s out Hs.
  apply (write_file_loop_rule self env pass_data (λ _ s, I (st_result s))
           (result_exit I)); [done|].
  intros p s Hs _. pose proof (write_file_block_keeps pass_data p s Hs) as H.
  by destruct (write_file_block self env pass_data p s) as [p' s'|s'|msg s'].
Qed.

Lemma run_file_pass_keeps (pass_data : bytes) (fuel : nat) (pn : Z) (s : State)
    (out : flow ()) :
  I (st_result s) →
  run_file_pass fuel self env pass_data pn s = Some out → result_exit I out.
Proof.
  intros Hs. unfold run_file_pass.
  destruct (read_cancelled env s) as [[|] s1] eqn:E;
    assert (st_result s1 = st_result s) as Hr
      by (unfold read_cancelled in E; by injection E as _ <-).
  { intros [= <-]. simpl. by rewrite Hr. }
  set (s2 := assign (set_passes_completed pn) s1).
  assert (I (st_result s2)) as Hs2 by (simpl; rewrite Hr; by apply blind).
  destruct (opens_for_update env); [|by intros [= <-]].
  destruct (write_file_loop fuel self env pass_data 0 (seek0 s2)) as [out'|] eqn:Hloop;
    [|done].
  pose proof (write_file_loop_keeps pass_data fuel 0 (seek0 s2) out' Hs2 Hloop) as Hz.
  destruct out' as [p' s'|s'|msg s']; by intros [= <-].
Qed.

Lemma file_pass_loop_keeps (fuel wfuel : nat) (g : generator) (pn : Z) (s : State)
    (out : flow ()) :
  I (st_result s) →
  file_pass_loop fuel wfuel self env g pn s = Some out → result_exit I out.
Proof.
  intros Hs. revert fuel g pn s out Hs.
  apply (file_pass_loop_rule self env wfuel (λ _ _ s, I (st_result s)) (result_exit I)).
  intros g pn s Hs. pose proof (gen_next_keeps g s Hs) as Hgen.
  destruct (gen_next self env g s) as [block g' s1| |msg s1]; [|done..].
  intros out Hout.
  pose proof (run_file_pass_keeps block wfuel pn s1 out Hgen Hout) as Hz.
  destruct out as [[] s2|s2|msg s2]; [|done..].
  by destruct (total_passes (st_result s2) <=? pn).
Qed.
End kept.

Lemma sized_blind (size passes : Z) : count_blind (sized size passes).
Proof. by intros r v [? ?]. Qed.

(** ** The loops end *)








Lemma device_ready_result (self : DataWiper) (env : Env) (content : bytes)
    (path : string) (pattern : WipePattern) :
  st_result (device_ready self env content path pattern) =
    mkWipeResult path pattern IN_PROGRESS (now env 0) None 0
      (_get_device_size env content) 0 (_get_pass_count pattern) None None ∧
  st_data (device_ready self env content path pattern) = content ∧
  st_io (device_ready self env content path pattern) = [] ∧
  st_write_calls (device_ready self env content path pattern) = 0%nat ∧
  st_draws (device_ready self env content path pattern) = 0%nat.
Proof. unfold device_ready, _update_progress. by destruct (progress_callback self). Qed.

Lemma file_ready_result (self : DataWiper) (env : Env) (content : bytes)
    (path : string) (pattern : WipePattern) :
  st_result (file_ready self env content path pattern) =
    mkWipeResult path pattern IN_PROGRESS (now env 0) None 0
      (Z.of_nat (length content)) 0 (_get_pass_count pattern) None None ∧
  st_data (file_ready self env content path pattern) = content ∧
  st_io (file_ready self env content path pattern) = [] ∧
  st_write_calls (file_ready self env content path pattern) = 0%nat ∧
  st_draws (file_ready self env content path pattern) = 0%nat.
Proof. unfold file_ready, _update_progress. by destruct (progress_callback self). Qed.





(** ** A block size of zero *)

Lemma write_loop_stalls (self : DataWiper) (env : Env) (size passes : Z) :
  block_size self = 0 → cancel_after env = None → write_fault env = None →
  ∀ fuel p t s,
    sized size passes (st_result s) → p < size →
    write_loop fuel self env [] p t s = None.
Proof.
  intros HB Hc Hf fuel.
  induction fuel as [|fuel IH]; intros p t s Hs Hlt; simpl;
    assert (total_bytes (st_result s) = size) as Hsize by apply Hs;
    rewrite Hsize; destruct (Z.ltb_spec p size); try lia; [done|].
  pose proof (write_block_keeps self env _ (sized_blind size passes) [] p t s Hs) as Hz.
  pose proof (write_block_spec self env [] p t s) as Hspec. cbv zeta in Hspec.
  destruct (write_block_goes_on self env [] p t s Hc Hf) as ([p' t'] & s' & E).
  rewrite E in Hspec, Hz |- *. destruct Hspec as (-> & _).
  assert (next_chunk self [] (total_bytes (st_result s) - p) = []) as ->.
  { unfold next_chunk. rewrite HB, Hsize.
    by replace (Z.min 0 (size - p)) with 0 by lia. }
  simpl. rewrite Z.add_0_r. by apply IH.
Qed.

Lemma write_file_loop_stalls (self : DataWiper) (env : Env) (size passes : Z) :
  block_size self = 0 → cancel_after env = None → write_fault env = None →
  ∀ fuel p s,
    sized size passes (st_result s) → p < size →
    write_file_loop fuel self env [] p s = None.
Proof.
  intros HB Hc Hf fuel.
  induction fuel as [|fuel IH]; intros p s Hs Hlt; simpl;
    assert (total_bytes (st_result s) = size) as Hsize by apply Hs;
    rewrite Hsize; destruct (Z.ltb_spec p size); try lia; [done|].
  pose proof (write_file_block_keeps self env _ (sized_blind size passes) [] p s Hs) as Hz.
  pose proof (write_file_block_spec self env [] p s) as Hspec. cbv zeta in Hspec.
  destruct (write_file_block_goes_on self env [] p s Hc Hf) as (p' & s' & E).
  rewrite E in Hspec, Hz |- *. destruct Hspec as (-> & _).
  assert (next_chunk self [] (total_bytes (st_result s) - p) = []) as ->.
  { unfold next_chunk. rewrite HB, Hsize.
    by replace (Z.min 0 (size - p)) with 0 by lia. }
  simpl. rewrite Z.add_0_r. by apply IH.
Qed.

(** The first block of every scheme is empty when the block size is 0. *)
Lemma gen_next_zero_block (self : DataWiper) (env : Env) (pattern : WipePattern)
    (s : State) :
  block_size self = 0 →
  ∃ g' s', gen_next self env (get_pattern_data pattern) s = GenYield [] g' s' ∧
           st_result s' = st_result s.
Proof.
  intros HB. unfold gen_next. rewrite HB.
  destruct pattern; simpl; by eexists _, _.
Qed.

(** X2 — A block size of zero.  [DataWiper(block_size=0)] on a target
    that is not empty never returns unless it is cancelled or a write
    fails: every block is empty, [write] returns 0, and the count of the
    [while] loop stays where it is.  In the model no amount of fuel lets
    [wipe_device] or [wipe_file] produce a result. *)
Theorem zero_block_size_never_returns (self : DataWiper) (env : Env) (content : bytes)
    (path : string) (pattern : WipePattern) (flag : bool) :
  block_size self = 0 → content ≠ [] →
  cancel_after env = None → write_fault env = None →
  path_exists env = true → path_isfile env = true → size_query_fails env = false →
  opens_for_read env = true → opens_for_update env = true →
  (∀ fuel, wipe_device fuel self env content path pattern flag = None) ∧
  (∀ fuel, wipe_file fuel self env content path pattern flag = None).
Proof.
  intros HB Hne Hc Hf Hex Hfile Hq Hrd Hupd.
  assert (0 < Z.of_nat (length content)) as Hpos by (destruct content; simpl; [done|lia]).
  split.
  - intros fuel. unfold wipe_device, _validate_device, _perform_wipe.
    rewrite Hex, Hrd, Hupd. simpl negb. cbv iota.
    set (s0 := device_ready self env content path pattern).
    assert (sized (Z.of_nat (length content)) (_get_pass_count pattern) (st_result s0))
      as Hs0.
    { subst s0. destruct (device_ready_result self env content path pattern) as [-> _].
      unfold _get_device_size. by rewrite Hq. }
    destruct fuel as [|fuel]; [done|]. cbn [pass_loop].
    destruct (gen_next_zero_block self env pattern s0 HB) as (g' & s1 & -> & Hr1).
    unfold run_pass, read_cancelled. rewrite Hc.
    rewrite (write_loop_stalls self env (Z.of_nat (length content))
               (_get_pass_count pattern) HB Hc Hf); try done.
    simpl. rewrite Hr1. apply Hs0.
  - intros fuel. unfold wipe_file, _perform_file_wipe.
    rewrite Hex, Hfile, Hq. simpl.
    set (s0 := file_ready self env content path pattern).
    assert (sized (Z.of_nat (length content)) (_get_pass_count pattern) (st_result s0))
      as Hs0.
    { subst s0. by destruct (file_ready_result self env content path pattern) as [-> _]. }
    destruct fuel as [|fuel]; [done|]. cbn [file_pass_loop].
    destruct (gen_next_zero_block self env pattern s0 HB) as (g' & s1 & -> & Hr1).
    unfold run_file_pass, read_cancelled. rewrite Hc, Hupd.
    rewrite (write_file_loop_stalls self env (Z.of_nat (length content))
               (_get_pass_count pattern) HB Hc Hf); try done.
    simpl. rewrite Hr1. apply Hs0.
Qed.

Lemma zero_block_size_never_returns_witness :
  (∀ fuel, wipe_device fuel zero_block_wiper sample_env sample_content "/dev/sdx"
             ZERO_FILL false = None) ∧
  (∀ fuel, wipe_file fuel zero_block_wiper sample_env sample_content "/dev/sdx"
             ZERO_FILL false = None).
Proof.
  apply (zero_block_size_never_returns zero_block_wiper sample_env sample_content
           "/dev/sdx" ZERO_FILL false); done.
Defined.

(** ** A target of size zero *)




(** ** What a completed status stands for *)

(** Leaving the [for] loop normally means the last declared pass ran to
    its end, whatever the surroundings did. *)
Lemma pass_loop_sound (self : DataWiper) (env : Env) (size passes : Z)
    (fuel wfuel : nat) (g : generator) (pn t : Z) (s : State) (out : flow ()) :
  at_boundary size passes env pn t s → unit_generator g = true →
  can_yield (passes - pn) g → pn < passes →
  pass_loop fuel wfuel self env g pn t s = Some out →
  match out with
  | Next _ s' => at_boundary size passes env passes (passes * size) s'
  | _ => True
  end.
Proof.
  set (Q := λ out : flow (),
         match out with
         | Next _ s' => at_boundary size passes env passes (passes * size) s'
         | _ => True
         end).
  intros Hb Hg Hcan Hlt Hloop. change (Q out). revert Hloop.
  apply (pass_loop_rule self env wfuel
           (λ g pn t s, at_boundary size passes env pn t s ∧ unit_generator g = true ∧
                        can_yield (passes - pn) g ∧ pn < passes) Q); [|done].
  clear. intros g pn t s (Hb & Hg & Hcan & Hlt).
  destruct (gen_step_can_yield (passes - pn) g Hcan ltac:(lia))
    as (p & g1 & Hstep & Hcan' & _).
  pose proof (gen_next_boundary self env size passes g pn t s Hb Hg) as Hgen.
  pose proof (gen_next_spec self env g s) as Hspec.
  destruct (gen_next self env g s) as [block g' s1| |msg s1]; [|congruence|done].
  destruct Hspec as (p' & Hstep' & _). destruct Hgen as [Hpo Hg'].
  assert (g1 = g') as -> by congruence.
  intros out Hout.
  pose proof (run_pass_poised self env size passes wfuel block pn t s1 out Hpo Hout) as H.
  destruct out as [[pn' t'] s2|s2|msg s2]; [|done..].
  destruct H as [-> Hb2].
  assert (total_passes (st_result s2) = passes) as -> by apply Hb2.
  destruct (Z.leb_spec passes (pn + 1)) as [Hle|Hgt].
  - unfold Q. assert (pn + 1 = passes) as E by lia. rewrite E in Hb2.
    assert (t' = passes * size) as <- by apply Hb2. done.
  - split; [done|]. split; [done|].
    split; [by replace (passes - (pn + 1)) with (passes - pn - 1) by lia|lia].
Qed.

(** X4 — What completed stands for.  Whatever the surroundings do, a
    result that [wipe_device] returns with status completed has every
    declared pass counted, and its [bytes_wiped] is the number of bytes
    that reached the device: the declared pass count times the size the
    engine worked with.  Its end time is set.  A partial wipe is never
    reported as completed. *)
Theorem completed_means_every_pass_ran (self : DataWiper) (env : Env) (content : bytes)
    (path : string) (pattern : WipePattern) (flag : bool) (fuel : nat) (s : State) :
  wipe_device fuel self env content path pattern flag = Some s →
  status (st_result s) = COMPLETED →
  total_passes (st_result s) = _get_pass_count pattern ∧
  passes_completed (st_result s) = _get_pass_count pattern ∧
  total_bytes (st_result s) = _get_device_size env content ∧
  bytes_wiped (st_result s) = _get_pass_count pattern * _get_device_size env content ∧
  written_bytes (st_io s) = bytes_wiped (st_result s) ∧
  yields (st_io s) = _get_pass_count pattern ∧
  is_Some (end_time (st_result s)).
Proof.
  unfold wipe_device. destruct (negb (_validate_device env)).
  { intros [= <-]. discriminate. }
  destruct (_perform_wipe fuel self env pattern
              (device_ready self env content path pattern)) as [[e s1]|] eqn:Hrun;
    [|done].
  pose proof (device_ready_boundary self env content path pattern) as Hb0.
  destruct (pass_count_bounds pattern) as (Hn & Hcan & _).
  set (size := _get_device_size env content) in *.
  set (passes := _get_pass_count pattern) in *.
  assert (e = WipeDone → at_boundary size passes env passes (passes * size) s1) as Hdone.
  { intros ->. unfold _perform_wipe in Hrun.
    destruct (opens_for_update env); [|done].
    destruct (pass_loop fuel fuel self env (get_pattern_data pattern) 0 0
                (device_ready self env content path pattern)) as [out|] eqn:Hloop;
      [|done].
    pose proof (pass_loop_sound self env size passes fuel fuel _ 0 0 _ out Hb0
                  (get_pattern_data_unit pattern)) as H.
    rewrite Z.sub_0_r in H. specialize (H Hcan ltac:(lia) Hloop).
    destruct out as [[] s'|s'|msg s']; [|done..]. by injection Hrun as <-. }
  pose proof (conclude_spec env e s1) as (s1' & Hcon & Hres & _ & Hio & _ & _ & _ & Hcomp).
  destruct (conclude env e s1) as [st s2]. simpl in Hcon, Hcomp.
  assert (∀ s3, st_result s3 = set_status FAILED (st_result s3) →
            status (st_result (_update_progress self s3)) = COMPLETED → False) as Hfail.
  { intros s3 E. unfold _update_progress.
    destruct (progress_callback self); simpl; rewrite E; discriminate. }
  destruct st; intros [= <-]; intros Hst;
    try (exfalso; revert Hst; subst s2; unfold _update_progress, stamp_end;
         destruct (progress_callback self); simpl; discriminate).
  specialize (Hdone (Hcomp eq_refl)).
  destruct Hdone as (Hsteady & _ & Hpc & _ & _ & Hbw & Hy).
  destruct Hsteady as (_ & _ & _ & _ & _ & Htb & Htp & _ & Hwr & _).
  revert Hst. subst s2. unfold stamp_end, read_clock.
  destruct (verify_wipe self), flag; simpl;
    try (destruct (_quick_format env) as [msg|]; simpl;
         [unfold on_exception, _update_progress, stamp_end;
          destruct (progress_callback self); simpl; discriminate|]);
    unfold _update_progress; destruct (progress_callback self); simpl; intros _;
    rewrite ?Hres, ?Hio, ?Hwr, ?Hbw, ?Hy; repeat split; try done; by eexists.
Qed.

Lemma completed_means_every_pass_ran_witness :
  total_passes (st_result sample_device_three_pass) = _get_pass_count DOD_3_PASS ∧
  passes_completed (st_result sample_device_three_pass) = _get_pass_count DOD_3_PASS ∧
  total_bytes (st_result sample_device_three_pass)
    = _get_device_size sample_env sample_content ∧
  bytes_wiped (st_result sample_device_three_pass)
    = _get_pass_count DOD_3_PASS * _get_device_size sample_env sample_content ∧
  written_bytes (st_io sample_device_three_pass)
    = bytes_wiped (st_result sample_device_three_pass) ∧
  yields (st_io sample_device_three_pass) = _get_pass_count DOD_3_PASS ∧
  is_Some (end_time (st_result sample_device_three_pass)).
Proof.
  apply (completed_means_every_pass_ran sample_wiper sample_env sample_content
           "/dev/sdx" DOD_3_PASS false 20 sample_device_three_pass);
    vm_compute; reflexivity.
Defined.

(** ** After the passes *)

(** What [wipe_device] does with the state in which [_perform_wipe]
    returned: the device log, the content and the counts stay, the end
    time is set, and a run that did not return [True] ends as cancelled
    when the flag is set by then, as failed otherwise, with the error
    message [_perform_wipe] left. *)
Lemma wipe_device_epilogue (self : DataWiper) (env : Env) (content : bytes)
    (path : string) (pattern : WipePattern) (flag : bool) (fuel : nat)
    (e : wipe_exit) (s1 : State) :
  _validate_device env = true →
  _perform_wipe fuel self env pattern (device_ready self env content path pattern)
    = Some (e, s1) →
  ∃ s2,
    wipe_device fuel self env content path pattern flag = Some s2 ∧
    st_io s2 = st_io s1 ∧ st_data s2 = st_data s1 ∧
    st_write_calls s2 = st_write_calls s1 ∧
    bytes_wiped (st_result s2) = bytes_wiped (st_result s1) ∧
    passes_completed (st_result s2) = passes_completed (st_result s1) ∧
    total_bytes (st_result s2) = total_bytes (st_result s1) ∧
    total_passes (st_result s2) = total_passes (st_result s1) ∧
    is_Some (end_time (st_result s2)) ∧
    (e ≠ WipeDone →
     error_message (st_result s2) = error_message (st_result s1) ∧
     status (st_result s2) =
       match cancel_after env with
       | Some k => if bool_decide (k ≤ st_flag_reads s1)%nat then CANCELLED else FAILED
       | None => FAILED
       end).
Proof.
  intros Hval Hrun. unfold wipe_device. rewrite Hval, Hrun. simpl negb. cbv iota.
  unfold conclude, read_cancelled, stamp_end, read_clock, on_exception,
    _update_progress, stamp_end, read_clock.
  destruct e; simpl;
    destruct (cancel_after env) as [k|]; simpl;
    try destruct (bool_decide (k ≤ st_flag_reads s1)%nat); simpl;
    try destruct (bool_decide (k ≤ S (st_flag_reads s1))%nat); simpl;
    try destruct (verify_wipe self); try destruct flag;
    try destruct (_quick_format env); destruct (progress_callback self); simpl;
    eexists; (split; [reflexivity|]); simpl; repeat split; try done; by eexists.
Qed.



(** X6 — A failure inside the passes.  When [_perform_wipe] returns
    through its exception handler (the target does not open for update, a
    [write] raises, or the generator raises), [wipe_device] returns a
    result that keeps the exception's text as [error_message], has its end
    time set, and is failed; it is cancelled instead when
    [cancel_operation] ran between the failure and the status decision.
    The device sees no further write. *)
Theorem failure_in_the_passes_is_reported (self : DataWiper) (env : Env)
    (content : bytes) (path : string) (pattern : WipePattern) (flag : bool)
    (fuel : nat) (s1 : State) :
  _validate_device env = true →
  _perform_wipe fuel self env pattern (device_ready self env content path pattern)
    = Some (WipeError, s1) →
  ∃ s2,
    wipe_device fuel self env content path pattern flag = Some s2 ∧
    status (st_result s2) =
      (if bool_decide (cancel_after env = Some (st_flag_reads s1))
       then CANCELLED else FAILED) ∧
    error_message (st_result s2) = error_message (st_result s1) ∧
    is_Some (error_message (st_result s2)) ∧
    is_Some (end_time (st_result s2)) ∧
    st_io s2 = st_io s1 ∧ st_data s2 = st_data s1 ∧
    st_write_calls s2 = st_write_calls s1.
Proof.
  intros Hval Hrun.
  destruct (wipe_device_epilogue self env content path pattern flag fuel _ s1
              Hval Hrun) as (s2 & Hw & Hio & Hd & Hwc & _ & _ & _ & _ & Hend & Herr).
  destruct (Herr ltac:(done)) as [Hmsg Hst].
  pose proof (perform_wipe_steady self env _ _ fuel pattern _ s1 _
                (device_ready_boundary self env content path pattern) Hrun)
    as (_ & Hun & Hsome).
  exists s2. rewrite Hmsg. repeat split; try done.
  rewrite Hst. unfold unseen in Hun.
  destruct (cancel_after env) as [k|]; [|done].
  destruct (decide (k = st_flag_reads s1)) as [->|Hne].
  - by rewrite !bool_decide_eq_true_2.
  - rewrite bool_decide_eq_false_2 by lia.
    rewrite bool_decide_eq_false_2; [done|]. by intros [= ?].
Qed.

Lemma failure_in_the_passes_is_reported_witness :
  ∃ s2,
    wipe_device 20 sample_wiper (with_write_fault 1 sample_env) sample_content
      "/dev/sdx" DOD_3_PASS false = Some s2 ∧
    status (st_result s2) =
      (if bool_decide (cancel_after (with_write_fault 1 sample_env)
                       = Some (st_flag_reads sample_faulted_state))
       then CANCELLED else FAILED) ∧
    error_message (st_result s2) = error_message (st_result sample_faulted_state) ∧
    is_Some (error_message (st_result s2)) ∧
    is_Some (end_time (st_result s2)) ∧
    st_io s2 = st_io sample_faulted_state ∧ st_data s2 = st_data sample_faulted_state ∧
    st_write_calls s2 = st_write_calls sample_faulted_state.
Proof.
  apply (failure_in_the_passes_is_reported sample_wiper (with_write_fault 1 sample_env)
           sample_content "/dev/sdx" DOD_3_PASS false 20 sample_faulted_state);
    vm_compute; reflexivity.
Defined.

(** ** What a fill scheme leaves behind *)

Lemma bytes_mul_unit (b : byte) (n : Z) : bytes_mul [b] n = replicate (Z.to_nat n) b.
Proof.
  unfold bytes_mul. induction (Z.to_nat n) as [|k IH]; simpl; [done|by rewrite IH].
Qed.

Lemma tiled_fill (b : byte) (n : nat) (data : bytes) :
  tiled (replicate n b) data → data = replicate (length data) b.
Proof.
  intros Ht. apply list_eq. intros i.
  destruct (data !! i) as [x|] eqn:Hi.
  - apply Ht in Hi as Hx. apply lookup_replicate in Hx as [-> _].
    symmetry. apply lookup_replicate. split; [done|by eapply lookup_lt_Some].
  - symmetry. apply lookup_ge_None. rewrite length_replicate.
    by apply lookup_ge_None.
Qed.




(** ** Targets that are refused *)

(** X8 — A file that is not there.  When the path does not exist or is
    not a regular file (a directory, a device node), [wipe_file] returns
    at once: the result is failed with the message [File not found:] and
    the path, no write call is made and the flag is not read, and since
    the early [return] skips the end of the function the end time stays
    unset (so [duration] is 0) and the progress callback is never
    invoked. *)
Theorem missing_file_is_refused (self : DataWiper) (env : Env) (content : bytes)
    (path : string) (pattern : WipePattern) (flag : bool) (fuel : nat) :
  path_exists env = false ∨ path_isfile env = false →
  ∃ s,
    wipe_file fuel self env content path pattern flag = Some s ∧
    status (st_result s) = FAILED ∧
    error_message (st_result s) = Some ("File not found: " +:+ path) ∧
    end_time (st_result s) = None ∧ duration (st_result s) = 0 ∧
    st_reported s = [] ∧
    st_write_calls s = 0%nat ∧ st_flag_reads s = 0%nat ∧ st_data s = content.
Proof.
  intros H. unfold wipe_file.
  assert (negb (path_exists env) || negb (path_isfile env) = true) as ->
    by (destruct H as [-> | ->]; [done|by destruct (path_exists env)]).
  by eexists.
Qed.

Lemma missing_file_is_refused_witness :
  ∃ s,
    wipe_file 0 (mkDataWiper 4 true true)
      (mkEnv None None (λ _ _, x41) (λ k, Z.of_nat k * 1000)
         true false true true false false FormatDone None sample_digest)
      sample_content "/dev/sdx" ZERO_FILL true = Some s ∧
    status (st_result s) = FAILED ∧
    error_message (st_result s) = Some ("File not found: " +:+ "/dev/sdx") ∧
    end_time (st_result s) = None ∧ duration (st_result s) = 0 ∧
    st_reported s = [] ∧
    st_write_calls s = 0%nat ∧ st_flag_reads s = 0%nat ∧ st_data s = sample_content.
Proof.
  apply (missing_file_is_refused (mkDataWiper 4 true true)
           (mkEnv None None (λ _ _, x41) (λ k, Z.of_nat k * 1000)
              true false true true false false FormatDone None sample_digest)
           sample_content "/dev/sdx" ZERO_FILL true 0).
  right. reflexivity.
Defined.

(** ** An undisturbed file wipe *)

(** A pass of [_perform_file_wipe] that runs to its end leaves the file
    tiled with its block and a count of one pass. *)
Lemma write_file_loop_tiles (self : DataWiper) (env : Env) (pass_data : bytes)
    (fuel : nat) (s : State) (out : flow Z) :
  0 < block_size self → length pass_data = Z.to_nat (block_size self) →
  length (st_data s) = Z.to_nat (total_bytes (st_result s)) →
  0 ≤ total_bytes (st_result s) → st_pos s = 0%nat →
  write_file_loop fuel self env pass_data 0 s = Some out →
  match out with
  | Next _ s' =>
      length (st_data s') = length (st_data s) ∧ tiled pass_data (st_data s') ∧
      current_block (st_io s') = current_block (st_io s) ∧
      yields (st_io s') = yields (st_io s) ∧
      written_bytes (st_io s') = written_bytes (st_io s) + total_bytes (st_result s) ∧
      st_result s' =
        (if 0 <? total_bytes (st_result s)
         then set_bytes_wiped (total_bytes (st_result s)) (st_result s)
         else st_result s)
  | _ => True
  end.
Proof.
  intros HB Hlen Hdata Hsize Hpos.
  set (size := total_bytes (st_result s)) in *.
  set (Q := λ out : flow Z,
         match out with
         | Next _ s' =>
             length (st_data s') = length (st_data s) ∧
             tiled pass_data (st_data s') ∧
             current_block (st_io s') = current_block (st_io s) ∧
             yields (st_io s') = yields (st_io s) ∧
             written_bytes (st_io s') = written_bytes (st_io s) + size ∧
             st_result s' =
               (if 0 <? size then set_bytes_wiped size (st_result s) else st_result s)
         | _ => True
         end).
  intros Hloop. change (Q out). revert Hloop.
  apply (write_file_loop_rule self env pass_data
           (λ p s',
              total_bytes (st_result s') = size ∧
              length (st_data s') = Z.to_nat size ∧
              Z.of_nat (st_pos s') = p ∧ 0 ≤ p ≤ size ∧
              (p < size → ∃ k : nat, st_pos s' = (k * length pass_data)%nat) ∧
              tiled pass_data (take (st_pos s') (st_data s')) ∧
              current_block (st_io s') = current_block (st_io s) ∧
              yields (st_io s') = yields (st_io s) ∧
              written_bytes (st_io s') = written_bytes (st_io s) + p ∧
              st_result s' =
                (if 0 <? p then set_bytes_wiped p (st_result s) else st_result s)) Q).
  - intros p s' (Hs & Hd & Hp & Hr & _ & Ht & Hcb & Hy & Hw & Hres) Hge.
    rewrite Hs in Hge. assert (p = size) as -> by lia.
    rewrite take_ge in Ht by lia. unfold Q. by rewrite Hd, Hdata.
  - intros p s' (Hs & Hd & Hp & Hr & Hal & Ht & Hcb & Hy & Hw & Hres).
    rewrite Hs. intros Hlt.
    pose proof (write_file_block_spec self env pass_data p s') as Hspec.
    cbv zeta in Hspec. rewrite Hs in Hspec.
    pose proof (next_chunk_length self pass_data (size - p) Hlen ltac:(lia)) as Hn.
    pose proof (next_chunk_prefix self pass_data (size - p)) as Hpre.
    set (chunk := next_chunk self pass_data (size - p)) in *.
    destruct (write_file_block self env pass_data p s') as [p' s''|s''|msg s''];
      [|done..].
    destruct Hspec as (-> & _ & Hres' & _ & Hio & Hdat & Hpos' & _).
    destruct (Hal Hlt) as [k Hk].
    destruct (tiled_step pass_data (st_data s') chunk k) as [Hl' Ht'];
      [lia|lia|done|by rewrite <- Hk|].
    rewrite <- Hk in Hl', Ht'.
    rewrite Hres', Hdat, Hpos', Hio. simpl.
    split; [exact Hs|]. split; [lia|]. split; [lia|]. split; [lia|].
    split; [intros Hlt'; exists (S k); lia|]. split; [done|]. split; [done|].
    split; [done|]. split; [lia|].
    destruct (Z.ltb_spec 0 (p + Z.of_nat (length chunk))); [|lia].
    rewrite Hres. by destruct (0 <? p).
  - rewrite Hpos. simpl. repeat split; try done; try lia. intros _. by exists 0%nat.
Qed.

Section undisturbed_file.
Variables (self : DataWiper) (env : Env) (size passes : Z).
Hypothesis block_positive : 0 < block_size self.
Hypothesis never_cancelled : cancel_after env = None.
Hypothesis never_faulty : write_fault env = None.
Hypothesis opens : opens_for_update env = true.

Lemma run_file_pass_completes (fuel : nat) (pass_data : bytes) (pn : Z) (s : State) :
  sized size passes (st_result s) → 0 ≤ size →
  length pass_data = Z.to_nat (block_size self) →
  length (st_data s) = Z.to_nat size → (Z.to_nat size ≤ fuel)%nat →
  ∃ s',
    run_file_pass fuel self env pass_data pn s = Some (Next () s') ∧
    st_result s' =
      (if 0 <? size then set_bytes_wiped size (set_passes_completed pn (st_result s))
       else set_passes_completed pn (st_result s)) ∧
    length (st_data s') = Z.to_nat size ∧ tiled pass_data (st_data s') ∧
    current_block (st_io s') = current_block (st_io s) ∧
    yields (st_io s') = yields (st_io s) ∧
    written_bytes (st_io s') = written_bytes (st_io s) + size.
Proof.
  intros Hs Hnn Hlen Hdata Hfuel.
  set (s2 := seek0 (assign (set_passes_completed pn) (read_cancelled env s).2)).
  assert (Hun : run_file_pass fuel self env pass_data pn s =
                match write_file_loop fuel self env pass_data 0 s2 with
                | Some (Next _ s') => Some (Next () s')
                | Some (ReturnFalse s') => Some (ReturnFalse s')
                | Some (Raise msg s') => Some (Raise msg s')
                | None => None
                end).
  { unfold run_file_pass, s2, read_cancelled. by rewrite never_cancelled, opens. }
  assert (Hs2 : total_bytes (st_result s2) = size) by (subst s2; apply Hs).
  destruct (write_file_loop_completes self env pass_data s2 fuel)
    as (s' & Hloop & _ & _); try done; try (rewrite Hs2; lia).
  rewrite Hloop in Hun. exists s'. split; [exact Hun|].
  rewrite Hs2 in Hloop.
  pose proof (write_file_loop_tiles self env pass_data fuel s2 (Next size s')
                block_positive Hlen) as Ht.
  rewrite Hs2 in Ht. specialize (Ht Hdata Hnn eq_refl Hloop).
  destruct Ht as (Hl & Htile & Hcb & Hy & Hw & Hres).
  rewrite Hres, Hl, Hcb, Hy, Hw. by subst s2.
Qed.

Lemma file_pass_loop_completes (wfuel : nat) (sources : list pass_source) :
  (Z.to_nat size ≤ wfuel)%nat →
  ∀ fuel g pn s,
    file_running size passes self env sources g pn s →
    pn ≤ passes → (Z.to_nat (passes - pn + 1) ≤ fuel)%nat →
    ∃ g' s',
      file_pass_loop fuel wfuel self env g pn s = Some (Next () s') ∧
      file_running size passes self env sources g' (passes + 1) s'.
Proof.
  intros Hw fuel.
  induction fuel as [|fuel IH]; intros g pn s Hrun Hle Hfuel; [lia|].
  destruct Hrun as (Hs & Hnn & Hpn & Hpc & Hbw & Hwr & Hy & Hg & Hcan & Hsub & Hdata & _).
  destruct (gen_step_can_yield (passes - pn + 1) g Hcan ltac:(lia))
    as (p & g' & Hstep & Hcan' & Hp & Hsub' & _).
  destruct (gen_step_unit g g' p Hg Hstep) as [Hunit Hg'].
  destruct (block_of_unit (entropy env) (st_draws s) (block_size self) p Hunit
              ltac:(lia)) as [block Hblock].
  pose proof (block_of_length _ _ _ _ _ Hunit Hblock) as Hlen.
  cbn [file_pass_loop]. unfold gen_next. rewrite Hstep, Hblock.
  match goal with
  | |- context [run_file_pass wfuel self env block pn ?s1] =>
      destruct (run_file_pass_completes wfuel block pn s1)
        as (s2 & -> & Hres & Hd2 & Htile & Hcb & Hy2 & Hw2); try done
  end.
  simpl in Hres, Hcb, Hy2, Hw2.
  assert (sized size passes (st_result s2)) as Hs2
    by (rewrite Hres; destruct (0 <? size); apply Hs).
  assert (total_passes (st_result s2) = passes) as -> by apply Hs2.
  assert (file_running size passes self env sources g' (pn + 1) s2) as Hrun2.
  { split; [done|]. split; [done|]. split; [lia|].
    split; [rewrite Hres; destruct (0 <? size); simpl; lia|].
    split.
    { rewrite Hres. destruct (Z.ltb_spec 1 (pn + 1)); [|lia].
      destruct (Z.ltb_spec 0 size); simpl; [done|].
      rewrite Hbw. destruct (1 <? pn); lia. }
    split; [rewrite Hw2, Hwr; lia|]. split; [rewrite Hy2, Hy; lia|].
    split; [done|].
    split; [by replace (passes - (pn + 1) + 1) with (passes - pn + 1 - 1) by lia|].
    split; [by intros x Hx; apply Hsub, Hsub'|]. split; [done|].
    intros _. exists p, (st_draws s), block. rewrite Hcb.
    repeat split; try done. by apply Hsub. }
  destruct (Z.leb_spec passes pn) as [Hle'|Hgt].
  - assert (pn = passes) as E by lia. rewrite E in Hrun2. by exists g', s2.
  - apply IH; [done|lia|lia].
Qed.
End undisturbed_file.

(** What [wipe_file] leaves behind when nothing disturbs it. *)
Lemma file_wipe_completes (self : DataWiper) (env : Env) (content : bytes)
    (path : string) (scheme : WipePattern) (remove_file : bool) (fuel : nat) :
  0 < block_size self → cancel_after env = None → write_fault env = None →
  path_exists env = true → path_isfile env = true → size_query_fails env = false →
  opens_for_update env = true → remove_error env = None →
  (length content ≤ fuel)%nat → (35 ≤ fuel)%nat →
  ∃ s block,
    wipe_file fuel self env content path scheme remove_file = Some s ∧
    status (st_result s) = COMPLETED ∧ error_message (st_result s) = None ∧
    total_passes (st_result s) = _get_pass_count scheme ∧
    passes_completed (st_result s) = _get_pass_count scheme ∧
    total_bytes (st_result s) = Z.of_nat (length content) ∧
    bytes_wiped (st_result s) = Z.of_nat (length content) ∧
    written_bytes (st_io s) = _get_pass_count scheme * Z.of_nat (length content) ∧
    yields (st_io s) = _get_pass_count scheme ∧
    verification_hash (st_result s) = None ∧
    length (st_data s) = length content ∧
    current_block (st_io s) = Some block ∧
    length block = Z.to_nat (block_size self) ∧
    tiled block (st_data s) ∧
    (∀ b, fill_byte scheme = Some b → st_data s = replicate (length content) b) ∧
    device_path (st_result s) = path ∧ pattern (st_result s) = scheme ∧
    start_time (st_result s) = now env 0.
Proof.
  intros HB Hc Hf Hex Hfile Hq Hupd Hrm Hfuel Hfuel'.
  destruct (pass_count_bounds scheme) as (Hn & Hcan & _).
  set (size := Z.of_nat (length content)).
  set (passes := _get_pass_count scheme) in *.
  set (s0 := file_ready self env content path scheme).
  destruct (file_ready_result self env content path scheme)
    as (Hr0 & Hd0 & Hio0 & _). fold s0 size passes in Hr0, Hd0, Hio0.
  assert (file_running size passes self env (gen_sources (get_pattern_data scheme))
            (get_pattern_data scheme) 1 s0) as Hrun.
  { unfold file_running. rewrite Hr0, Hd0, Hio0. simpl.
    repeat split; try done; try lia.
    - apply get_pattern_data_unit.
    - by replace (passes - 1 + 1) with passes by lia. }
  destruct (file_pass_loop_completes self env size passes HB Hc Hf Hupd fuel _
              ltac:(lia) fuel _ 1 s0 Hrun ltac:(lia) ltac:(lia))
    as (g' & s1 & Hloop & Hrun1).
  destruct Hrun1 as (Hs1 & _ & _ & Hpc & Hbw & Hwr & Hy & _ & _ & _ & Hdata & Hlast).
  destruct (Hlast ltac:(lia)) as (p & d & block & Hcb & Hlen & Hp & Hblock & Htile).
  destruct (Z.ltb_spec 1 (passes + 1)) as [_|]; [|lia].
  assert (verification_hash (st_result s1) = None ∧ error_message (st_result s1) = None ∧
          device_path (st_result s1) = path ∧ pattern (st_result s1) = scheme ∧
          start_time (st_result s1) = now env 0)
    as (Hv1 & He1 & Hdp & Hpat & Hstart).
  { pose proof (file_pass_loop_keeps self env
                  (λ r, verification_hash r = None ∧ error_message r = None ∧
                        device_path r = path ∧ pattern r = scheme ∧
                        start_time r = now env 0)
                  ltac:(done) fuel fuel _ 1 s0 _ ltac:(by rewrite Hr0) Hloop) as H.
    exact H. }
  destruct Hs1 as [Htb Htp].
  set (s2 := _update_progress self
               (stamp_end env (assign (set_status COMPLETED) (read_cancelled env s1).2))).
  assert (st_result s2 = set_end_time (end_time (st_result s2))
                           (set_status COMPLETED (st_result s1)) ∧
          st_io s2 = st_io s1 ∧ st_data s2 = st_data s1) as (Hr2 & Hio2 & Hd2).
  { subst s2. unfold _update_progress. by destruct (progress_callback self). }
  exists s2, block. split.
  { unfold wipe_file, _perform_file_wipe. rewrite Hex, Hfile, Hq. simpl.
    fold s0. rewrite Hloop. unfold conclude, read_cancelled. rewrite Hc, Hrm. simpl.
    by destruct remove_file. }
  rewrite Hr2, Hio2, Hd2. simpl.
  split; [done|]. split; [done|]. split; [done|]. split; [lia|]. split; [done|].
  split; [done|]. split; [rewrite Hwr; lia|]. split; [lia|]. split; [done|].
  split; [rewrite Hdata; unfold size; lia|]. split; [done|]. split; [done|].
  split; [done|]. split; [|done].
  intros b Hfill.
  assert (p = Fill [b]) as ->.
  { unfold fill_byte in Hfill.
    destruct scheme; simpl in Hfill, Hp; try discriminate;
      apply list_elem_of_singleton in Hp; by injection Hfill as <-. }
  simpl in Hblock. injection Hblock as <-. rewrite bytes_mul_unit in Htile.
  rewrite (tiled_fill b _ _ Htile), Hdata. unfold size. f_equal. lia.
Qed.




(** ** The verification hash *)

(** While the status is pending or in progress, no earlier value of a
    lawful history was completed. *)
Lemma lawful_not_yet_completed (h : list WipeResult) (r : WipeResult) :
  lawful h → head h = Some r → status r = PENDING ∨ status r = IN_PROGRESS →
  COMPLETED ∉ status <$> h.
Proof.
  revert r. induction h as [|newer rest IH]; intros r Hl Hh Hr.
  { apply not_elem_of_nil. }
  injection Hh as ->. destruct Hl as [Hstep Hl]. rewrite fmap_cons.
  apply not_elem_of_cons. split; [destruct Hr as [-> | ->]; discriminate|].
  destruct rest as [|older rest]; [apply not_elem_of_nil|].
  apply (IH older Hl eq_refl).
  destruct (status older), (status r); try discriminate; destruct Hr; try done;
    by (left + right).
Qed.

Lemma perform_file_wipe_keeps (self : DataWiper) (env : Env) (I : WipeResult → Prop) :
  count_blind I → (∀ r m, I r → I (set_error_message m r)) →
  ∀ fuel pattern s s1 e,
    I (st_result s) →
    _perform_file_wipe fuel self env pattern s = Some (e, s1) → I (st_result s1).
Proof.
  intros blind Herr fuel pattern s s1 e Hs. unfold _perform_file_wipe.
  destruct (file_pass_loop fuel fuel self env (get_pattern_data pattern) 1 s)
    as [out|] eqn:Hloop; [|done].
  pose proof (file_pass_loop_keeps self env I blind fuel fuel _ 1 s out Hs Hloop) as Hz.
  destruct out as [[] s'|s'|msg s']; intros [= <- <-]; try done. by apply Herr.
Qed.

(** X10 — When the verification hash is set.  In the result of
    [wipe_device] the field [verification_hash] is set exactly when the
    wiper was built with [verify_wipe] and the status reached completed
    (a failing quick format afterwards leaves the hash in the failed
    result); its value is then the digest of the target read back, or the
    empty string when the read-back raises.  A failed or cancelled run
    never carries a hash.  [wipe_file] never sets the field, whatever
    [verify_wipe] says and however the run ends. *)
Theorem verification_hash_needs_completion (self : DataWiper) (env : Env)
    (content : bytes) (path : string) (pattern : WipePattern) (flag flag' : bool)
    (fuel : nat) (s s' : State) :
  wipe_device fuel self env content path pattern flag = Some s →
  wipe_file fuel self env content path pattern flag' = Some s' →
  (is_Some (verification_hash (st_result s)) ↔
   verify_wipe self = true ∧ COMPLETED ∈ status <$> st_history s) ∧
  (∀ h, verification_hash (st_result s) = Some h →
        h = _verify_wipe_completion self env s) ∧
  verification_hash (st_result s') = None.
Proof.
  intros Hdev Hfile. split; [|split].
  - revert Hdev. unfold wipe_device. destruct (negb (_validate_device env)).
    { intros [= <-]. simpl. split; [by intros [? [=]]|]. intros [_ H].
      repeat (apply elem_of_cons in H as [H|H]; [discriminate|]).
      by apply elem_of_nil in H. }
    destruct (_perform_wipe fuel self env pattern
                (device_ready self env content path pattern)) as [[e s1]|] eqn:Hrun;
      [|done].
    pose proof (perform_wipe_steady self env _ _ fuel pattern _ s1 e
                  (device_ready_boundary self env content path pattern) Hrun) as H.
    assert (steady (_get_device_size env content) (_get_pass_count pattern) s1)
      as (Hcons & Hlaw & _ & _ & Hst & _).
    { destruct e; [destruct H as (? & ? & H)|destruct H as [H _]..]; apply H. }
    pose proof (lawful_not_yet_completed _ _ Hlaw Hcons (or_intror Hst)) as Hnot.
    assert (verification_hash (st_result s1) = None) as Hv1.
    { destruct (device_ready_result self env content path pattern) as [Hr0 _].
      revert Hrun. unfold _perform_wipe.
      destruct (opens_for_update env); [|by intros [= _ <-]; simpl; rewrite Hr0].
      destruct (pass_loop fuel fuel self env (get_pattern_data pattern) 0 0
                  (device_ready self env content path pattern)) as [out|] eqn:Hloop;
        [|done].
      pose proof (pass_loop_keeps self env (λ r, verification_hash r = None)
                    ltac:(done) fuel fuel _ 0 0 _ out ltac:(by rewrite Hr0) Hloop) as Hz.
      destruct out as [[] s0|s0|msg s0]; by intros [= _ <-]. }
    unfold conclude, read_cancelled, stamp_end, read_clock, on_exception,
      _update_progress, stamp_end, read_clock.
    destruct e; simpl;
      destruct (cancel_after env) as [k|]; simpl;
      try destruct (bool_decide (k ≤ st_flag_reads s1)%nat); simpl;
      try destruct (bool_decide (k ≤ S (st_flag_reads s1))%nat); simpl;
      try destruct (verify_wipe self); try destruct flag;
      try destruct (_quick_format env); destruct (progress_callback self); simpl;
      intros [= <-]; simpl; rewrite ?Hv1;
      (split; [intros Hsome; try (by destruct Hsome as [? [=]]);
               (split; [done|]); rewrite ?fmap_cons; simpl;
               repeat (first [by apply list_elem_of_here|apply list_elem_of_further])
              |intros [Hv Hin]; try discriminate; try (by eexists);
               exfalso; rewrite ?fmap_cons in Hin; simpl in Hin;
               repeat (apply elem_of_cons in Hin as [Hin|Hin]; [discriminate|]);
               by apply Hnot]).
  - revert Hdev. unfold wipe_device. destruct (negb (_validate_device env)).
    { by intros [= <-]. }
    destruct (_perform_wipe fuel self env pattern
                (device_ready self env content path pattern)) as [[e s1]|] eqn:Hrun;
      [|done].
    assert (verification_hash (st_result s1) = None) as Hv1.
    { destruct (device_ready_result self env content path pattern) as [Hr0 _].
      revert Hrun. unfold _perform_wipe.
      destruct (opens_for_update env); [|by intros [= _ <-]; simpl; rewrite Hr0].
      destruct (pass_loop fuel fuel self env (get_pattern_data pattern) 0 0
                  (device_ready self env content path pattern)) as [out|] eqn:Hloop;
        [|done].
      pose proof (pass_loop_keeps self env (λ r, verification_hash r = None)
                    ltac:(done) fuel fuel _ 0 0 _ out ltac:(by rewrite Hr0) Hloop) as Hz.
      destruct out as [[] s0|s0|msg s0]; by intros [= _ <-]. }
    unfold conclude, read_cancelled, stamp_end, read_clock, on_exception,
      _update_progress, stamp_end, read_clock, _verify_wipe_completion.
    destruct e; simpl;
      destruct (cancel_after env) as [k|]; simpl;
      try destruct (bool_decide (k ≤ st_flag_reads s1)%nat); simpl;
      try destruct (bool_decide (k ≤ S (st_flag_reads s1))%nat); simpl;
      try destruct (verify_wipe self); try destruct flag;
      try destruct (_quick_format env); destruct (progress_callback self); simpl;
      intros [= <-] h; simpl; rewrite ?Hv1; by intros [= <-].
  - revert Hfile. unfold wipe_file.
    destruct (negb (path_exists env) || negb (path_isfile env)); [by intros [= <-]|].
    destruct (size_query_fails env).
    { unfold _update_progress. destruct (progress_callback self); by intros [= <-]. }
    destruct (_perform_file_wipe fuel self env pattern
                (file_ready self env content path pattern)) as [[e s1]|] eqn:Hrun;
      [|done].
    assert (verification_hash (st_result s1) = None) as Hv1.
    { apply (perform_file_wipe_keeps self env (λ r, verification_hash r = None)
               ltac:(done) ltac:(done) fuel pattern
               (file_ready self env content path pattern) s1 e); [|done].
      by destruct (file_ready_result self env content path pattern) as [-> _]. }
    unfold conclude, read_cancelled, stamp_end, read_clock, on_exception,
      _update_progress, stamp_end, read_clock.
    destruct e; simpl;
      destruct (cancel_after env) as [k|]; simpl;
      try destruct (bool_decide (k ≤ st_flag_reads s1)%nat); simpl;
      try destruct (bool_decide (k ≤ S (st_flag_reads s1))%nat); simpl;
      try destruct flag'; try destruct (remove_error env);
      destruct (progress_callback self); simpl; by intros [= <-].
Qed.

Lemma verification_hash_needs_completion_witness :
  (is_Some (verification_hash (st_result sample_verified_device)) ↔
   verify_wipe verifying_wiper = true ∧
   COMPLETED ∈ status <$> st_history sample_verified_device) ∧
  (∀ h, verification_hash (st_result sample_verified_device) = Some h →
        h = _verify_wipe_completion verifying_wiper sample_env
              sample_verified_device) ∧
  verification_hash (st_result sample_wiped_file) = None.
Proof.
  apply (verification_hash_needs_completion verifying_wiper sample_env sample_content
           "/tmp/secret.bin" ZERO_FILL false false 20
           sample_verified_device sample_wiped_file); vm_compute; reflexivity.
Defined.

(** ** The progress callback *)





Section device_reports.
Variables (self : DataWiper) (env : Env) (size passes : Z).



End device_reports.




(** * wiper.py: cancellation beforehand, and the duration *)

(** X12 — A wiper that was cancelled before.  The class never clears
    [_cancelled].  When the flag is already set at the call and the
    target passes validation, [wipe_device] returns a cancelled result
    without a single [write] call, whatever the scheme, the block size
    and the target are (also when the target does not open for update);
    so does [wipe_file] on a regular file that answers the size query.
    The content is as it was and [bytes_wiped] is 0. *)
Theorem cancelled_wiper_writes_nothing (self : DataWiper) (env : Env) (content : bytes)
    (path : string) (scheme : WipePattern) (flag : bool) (fuel : nat) :
  cancel_after env = Some 0%nat → (1 ≤ fuel)%nat →
  path_exists env = true → opens_for_read env = true →
  path_isfile env = true → size_query_fails env = false →
  ∃ s s',
    wipe_device fuel self env content path scheme flag = Some s ∧
    wipe_file fuel self env content path scheme flag = Some s' ∧
    status (st_result s) = CANCELLED ∧ status (st_result s') = CANCELLED ∧
    st_write_calls s = 0%nat ∧ st_write_calls s' = 0%nat ∧
    st_data s = content ∧ st_data s' = content ∧
    bytes_wiped (st_result s) = 0 ∧ bytes_wiped (st_result s') = 0 ∧
    passes_completed (st_result s) = 0 ∧ passes_completed (st_result s') = 0 ∧
    is_Some (end_time (st_result s)) ∧ is_Some (end_time (st_result s')).
Proof.
  intros Hc Hfuel Hex Hrd Hfile Hq.
  destruct fuel as [|fuel]; [lia|].
  unfold wipe_device, wipe_file, _validate_device, _perform_wipe, _perform_file_wipe.
  rewrite Hex, Hrd, Hfile, Hq. simpl negb. simpl orb. cbv iota.
  cbn [pass_loop file_pass_loop].
  unfold gen_next, device_ready, file_ready, _get_device_size. rewrite Hq.
  unfold run_pass, run_file_pass, conclude, read_cancelled, _update_progress,
    stamp_end, read_clock.
  rewrite Hc.
  destruct (opens_for_update env), (progress_callback self), scheme; simpl;
    unfold token_bytes; destruct (block_size self <? 0); simpl;
    eexists _, _; (split; [reflexivity|]); (split; [reflexivity|]); simpl;
    repeat split; by eexists.
Qed.

Lemma cancelled_wiper_writes_nothing_witness :
  ∃ s s',
    wipe_device 1 verifying_wiper (with_cancel_after 0 sample_env) sample_content
      "/tmp/secret.bin" DOD_3_PASS false = Some s ∧
    wipe_file 1 verifying_wiper (with_cancel_after 0 sample_env) sample_content
      "/tmp/secret.bin" DOD_3_PASS false = Some s' ∧
    status (st_result s) = CANCELLED ∧ status (st_result s') = CANCELLED ∧
    st_write_calls s = 0%nat ∧ st_write_calls s' = 0%nat ∧
    st_data s = sample_content ∧ st_data s' = sample_content ∧
    bytes_wiped (st_result s) = 0 ∧ bytes_wiped (st_result s') = 0 ∧
    passes_completed (st_result s) = 0 ∧ passes_completed (st_result s') = 0 ∧
    is_Some (end_time (st_result s)) ∧ is_Some (end_time (st_result s')).
Proof.
  apply (cancelled_wiper_writes_nothing verifying_wiper (with_cancel_after 0 sample_env)
           sample_content "/tmp/secret.bin" DOD_3_PASS false 1);
    vm_compute; (reflexivity || lia).
Defined.

Lemma perform_wipe_keeps_all (self : DataWiper) (env : Env) (I : WipeResult → Prop) :
  count_blind I → (∀ r m, I r → I (set_error_message m r)) →
  ∀ fuel scheme s s1 e,
    I (st_result s) →
    _perform_wipe fuel self env scheme s = Some (e, s1) → I (st_result s1).
Proof.
  intros blind Herr fuel scheme s s1 e Hs. unfold _perform_wipe.
  destruct (opens_for_update env); [|intros [= _ <-]; by apply Herr].
  destruct (pass_loop fuel fuel self env (get_pattern_data scheme) 0 0 s)
    as [out|] eqn:Hloop; [|done].
  pose proof (pass_loop_keeps self env I blind fuel fuel _ 0 0 s out Hs Hloop) as Hz.
  destruct out as [[] s'|s'|msg s']; intros [= <- <-]; try done. by apply Herr.
Qed.

(** X13 — The duration.  On a clock that does not go backwards the
    [duration] of a result of [wipe_device] or [wipe_file] is never
    negative: the start time is the first reading of the clock, and the
    end time, when it is set, is a later reading.  When the end time is
    not set (the early returns) the duration is 0 and the result is
    failed. *)
Theorem duration_is_never_negative (self : DataWiper) (env : Env) (content : bytes)
    (path : string) (scheme : WipePattern) (flag : bool) (fuel : nat) (s : State) :
  (∀ i j, (i ≤ j)%nat → now env i ≤ now env j) →
  wipe_device fuel self env content path scheme flag = Some s ∨
  wipe_file fuel self env content path scheme flag = Some s →
  0 ≤ duration (st_result s) ∧
  start_time (st_result s) = now env 0 ∧
  (∀ t, end_time (st_result s) = Some t → ∃ k, t = now env k) ∧
  (end_time (st_result s) = None →
   duration (st_result s) = 0 ∧ status (st_result s) = FAILED).
Proof.
  intros Hclock Hrun.
  assert (start_time (st_result s) = now env 0 ∧
          (end_time (st_result s) = None → status (st_result s) = FAILED) ∧
          (∀ t, end_time (st_result s) = Some t → ∃ k, t = now env k))
    as (Hstart & Hnone & Hsome).
  { destruct Hrun as [Hrun|Hrun]; revert Hrun.
    - unfold wipe_device. destruct (negb (_validate_device env)).
      { intros [= <-]. by repeat split. }
      destruct (_perform_wipe fuel self env scheme
                  (device_ready self env content path scheme)) as [[e s1]|] eqn:Hp;
        [|done].
      assert (start_time (st_result s1) = now env 0) as Hs1.
      { apply (perform_wipe_keeps_all self env (λ r, start_time r = now env 0)
                 ltac:(done) ltac:(done) fuel scheme
                 (device_ready self env content path scheme) s1 e); [|done].
        by destruct (device_ready_result self env content path scheme) as [-> _]. }
      unfold conclude, read_cancelled, stamp_end, read_clock, on_exception,
        _update_progress, stamp_end, read_clock.
      destruct e; simpl;
        destruct (cancel_after env) as [k|]; simpl;
        try destruct (bool_decide (k ≤ st_flag_reads s1)%nat); simpl;
        try destruct (bool_decide (k ≤ S (st_flag_reads s1))%nat); simpl;
        try destruct (verify_wipe self); try destruct flag;
        try destruct (_quick_format env); destruct (progress_callback self); simpl;
        intros [= <-]; simpl; (split; [done|]); (split; [done|]);
        intros t [= <-]; by eexists.
    - unfold wipe_file.
      destruct (negb (path_exists env) || negb (path_isfile env)).
      { intros [= <-]. by repeat split. }
      destruct (size_query_fails env).
      { unfold on_exception, stamp_end, read_clock, _update_progress.
        destruct (progress_callback self); intros [= <-]; simpl;
          (split; [done|]); (split; [done|]); intros t [= <-]; by eexists. }
      destruct (_perform_file_wipe fuel self env scheme
                  (file_ready self env content path scheme)) as [[e s1]|] eqn:Hp;
        [|done].
      assert (start_time (st_result s1) = now env 0) as Hs1.
      { apply (perform_file_wipe_keeps self env (λ r, start_time r = now env 0)
                 ltac:(done) ltac:(done) fuel scheme
                 (file_ready self env content path scheme) s1 e); [|done].
        by destruct (file_ready_result self env content path scheme) as [-> _]. }
      unfold conclude, read_cancelled, stamp_end, read_clock, on_exception,
        _update_progress, stamp_end, read_clock.
      destruct e; simpl;
        destruct (cancel_after env) as [k|]; simpl;
        try destruct (bool_decide (k ≤ st_flag_reads s1)%nat); simpl;
        try destruct (bool_decide (k ≤ S (st_flag_reads s1))%nat); simpl;
        try destruct flag; try destruct (remove_error env);
        destruct (progress_callback self); simpl;
        intros [= <-]; simpl; (split; [done|]); (split; [done|]);
        intros t [= <-]; by eexists. }
  unfold duration. rewrite Hstart.
  destruct (end_time (st_result s)) as [t|] eqn:He.
  - destruct (Hsome t eq_refl) as [k ->].
    pose proof (Hclock 0%nat k ltac:(lia)).
    split; [lia|]. split; [done|]. split; [|done]. intros t [= <-]. by eexists.
  - split; [done|]. split; [done|]. split; [done|]. intros _. split; [done|].
    by apply Hnone.
Qed.

Lemma duration_is_never_negative_witness :
  0 ≤ duration (st_result sample_verified_device) ∧
  start_time (st_result sample_verified_device) = now sample_env 0 ∧
  (∀ t, end_time (st_result sample_verified_device) = Some t →
        ∃ k, t = now sample_env k) ∧
  (end_time (st_result sample_verified_device) = None →
   duration (st_result sample_verified_device) = 0 ∧
   status (st_result sample_verified_device) = FAILED).
Proof.
  apply (duration_is_never_negative verifying_wiper sample_env sample_content
           "/tmp/secret.bin" ZERO_FILL false 20 sample_verified_device).
  - intros i j Hij. simpl. lia.
  - left. vm_compute. reflexivity.
Defined.

(** * patterns.py *)





Lemma ascii_lower_upper (c : ascii) : ascii_lower (ascii_upper c) = ascii_lower c.
Proof. destruct c as [[] [] [] [] [] [] [] []]; reflexivity. Qed.

Lemma ascii_lower_lower (c : ascii) : ascii_lower (ascii_lower c) = ascii_lower c.
Proof. destruct c as [[] [] [] [] [] [] [] []]; reflexivity. Qed.

Lemma str_lower_upper (s : string) : str_lower (str_upper s) = str_lower s.
Proof. induction s as [|c s IH]; simpl; [done|]. by rewrite IH, ascii_lower_upper. Qed.

Lemma str_lower_lower (s : string) : str_lower (str_lower s) = str_lower s.
Proof. induction s as [|c s IH]; simpl; [done|]. by rewrite IH, ascii_lower_lower. Qed.

(** X15 — The recommended scheme.  For a storage type written in ASCII,
    [get_recommended_pattern] does not depend on letter case; it answers
    [nist_purge] exactly for [hdd] and [hard_disk] in any case, and
    [nist_clear] for everything else, the empty string and unknown types
    included; so the recommended scheme never has more than three passes
    and always has a random one. *)
Theorem recommendation_ignores_case (storage_type : string) :
  is_ascii_text storage_type →
  get_recommended_pattern (str_upper storage_type)
    = get_recommended_pattern storage_type ∧
  get_recommended_pattern (str_lower storage_type)
    = get_recommended_pattern storage_type ∧
  (get_recommended_pattern storage_type = NIST_PURGE ↔
   str_lower storage_type = "hdd"%string ∨ str_lower storage_type = "hard_disk"%string) ∧
  (get_recommended_pattern storage_type ≠ NIST_PURGE →
   get_recommended_pattern storage_type = NIST_CLEAR) ∧
  _get_pass_count (get_recommended_pattern storage_type) ≤ 3 ∧
  (1 ≤ random_passes (get_recommended_pattern storage_type))%nat.
Proof.
  intros _. unfold get_recommended_pattern.
  rewrite str_lower_upper, str_lower_lower.
  split; [done|]. split; [done|].
  set (l := str_lower storage_type).
  assert (l ∈ ["hdd"; "hard_disk"]%string ↔ l = "hdd"%string ∨ l = "hard_disk"%string)
    as Hhdd.
  { rewrite !elem_of_cons, elem_of_nil. tauto. }
  assert (l ∈ ["ssd"; "nvme"; "flash"]%string → ¬ l ∈ ["hdd"; "hard_disk"]%string)
    as Hssd.
  { rewrite !elem_of_cons, !elem_of_nil. intros [->|[->|[->|[]]]] [E|[E|[]]]; discriminate. }
  destruct (decide (l ∈ ["ssd"; "nvme"; "flash"]%string)) as [Hs|Hs];
    [rewrite (bool_decide_eq_true_2 _ Hs)|rewrite (bool_decide_eq_false_2 _ Hs)].
  - simpl. split; [|split; [done|split; [lia|lia]]].
    split; [discriminate|]. intros H. exfalso. by apply (Hssd Hs), Hhdd.
  - destruct (decide (l ∈ ["hdd"; "hard_disk"]%string)) as [Hh|Hh];
      [rewrite (bool_decide_eq_true_2 _ Hh)|rewrite (bool_decide_eq_false_2 _ Hh)].
    + simpl. split; [|split; [done|split; [lia|lia]]]. split; [by rewrite <- Hhdd|done].
    + simpl. split; [|split; [done|split; [lia|lia]]].
      split; [discriminate|]. intros H. exfalso. by apply Hh, Hhdd.
Qed.

Lemma recommendation_ignores_case_witness :
  get_recommended_pattern (str_upper "Hard_Disk") = get_recommended_pattern "Hard_Disk" ∧
  get_recommended_pattern (str_lower "Hard_Disk") = get_recommended_pattern "Hard_Disk" ∧
  (get_recommended_pattern "Hard_Disk" = NIST_PURGE ↔
   str_lower "Hard_Disk" = "hdd"%string ∨ str_lower "Hard_Disk" = "hard_disk"%string) ∧
  (get_recommended_pattern "Hard_Disk" ≠ NIST_PURGE →
   get_recommended_pattern "Hard_Disk" = NIST_CLEAR) ∧
  _get_pass_count (get_recommended_pattern "Hard_Disk") ≤ 3 ∧
  (1 ≤ random_passes (get_recommended_pattern "Hard_Disk"))%nat.
Proof.
  apply (recommendation_ignores_case "Hard_Disk").
  unfold is_ascii_text. simpl. repeat constructor.
Defined.

(** * certificate.py *)

Lemma ascii_upper_hex (c : ascii) :
  is_ascii_space (ascii_upper c) = is_ascii_space c ∧
  hex_value (ascii_upper c) = hex_value c.
Proof. destruct c as [[] [] [] [] [] [] [] []]; split; reflexivity. Qed.

Lemma ascii_lower_hex (c : ascii) :
  is_ascii_space (ascii_lower c) = is_ascii_space c ∧
  hex_value (ascii_lower c) = hex_value c.
Proof. destruct c as [[] [] [] [] [] [] [] []]; split; reflexivity. Qed.

(** [bytes.fromhex] reads a text through [hex_value] and
    [is_ascii_space] only. *)
Lemma bytes_fromhex_map (f : ascii → ascii) (map : string → string) :
  (∀ c, is_ascii_space (f c) = is_ascii_space c ∧ hex_value (f c) = hex_value c) →
  map EmptyString = EmptyString →
  (∀ c s, map (String c s) = String (f c) (map s)) →
  ∀ s, bytes_fromhex (map s) = bytes_fromhex s.
Proof.
  intros Hf Hnil Hcons s.
  assert (∀ n s, (String.length s ≤ n)%nat → bytes_fromhex (map s) = bytes_fromhex s)
    as Hall; [|by apply (Hall (String.length s))].
  clear s. intros n. induction n as [|n IH]; intros s Hlen.
  { destruct s; [by rewrite Hnil|simpl in Hlen; lia]. }
  destruct s as [|c rest]; [by rewrite Hnil|].
  rewrite Hcons. cbn [bytes_fromhex]. simpl in Hlen.
  destruct (Hf c) as [-> ->].
  destruct (is_ascii_space c); [apply IH; lia|].
  destruct (hex_value c) as [hi|]; [|done].
  destruct rest as [|d rest']; [by rewrite Hnil|].
  rewrite Hcons. destruct (Hf d) as [_ ->]. simpl in Hlen.
  by rewrite IH by lia.
Qed.

Lemma bytes_fromhex_upper (s : string) : bytes_fromhex (str_upper s) = bytes_fromhex s.
Proof. by apply (bytes_fromhex_map ascii_upper str_upper ascii_upper_hex). Qed.

Lemma bytes_fromhex_lower (s : string) : bytes_fromhex (str_lower s) = bytes_fromhex s.
Proof. by apply (bytes_fromhex_map ascii_lower str_lower ascii_lower_hex). Qed.

(** X16 — The case of the signature text.  [verify_certificate] gives
    the same answer for a certificate and for the certificate with the
    letters of its [digital_signature] text put in upper case or in lower
    case, whatever the certificate and the key are: [bytes.fromhex] reads
    both cases alike.  The signature text of a certificate is therefore
    not unique. *)
Theorem signature_text_case_is_ignored `{Backend} (g : CertificateGenerator)
    (c : WipeCertificate) :
  verify_certificate g
    (Cert.set_digital_signature (str_upper (Cert.digital_signature c)) c)
    = verify_certificate g c ∧
  verify_certificate g
    (Cert.set_digital_signature (str_lower (Cert.digital_signature c)) c)
    = verify_certificate g c.
Proof.
  rewrite !verify_certificate_unfold.
  assert (∀ v, cert_digest (Cert.set_digital_signature v c) = cert_digest c) as Hd
    by (intros v; unfold cert_digest; by rewrite signed_dict_set_signature).
  rewrite !Hd. simpl. by rewrite bytes_fromhex_upper, bytes_fromhex_lower.
Qed.

Lemma string_app_inv_head (p s t : string) : p +:+ s = p +:+ t → s = t.
Proof.
  induction p as [|a p IH]; [by rewrite !string_app_nil_l|].
  rewrite !string_app_cons. intros [= E]. by apply IH.
Qed.

Lemma hex_pair_upper (x : byte) :
  let n := Byte.to_N x in
  upper_hex_digit (ascii_upper (hex_digit (n / 16))) = true ∧
  upper_hex_digit (ascii_upper (hex_digit (n mod 16))) = true.
Proof. destruct x; split; reflexivity. Qed.

Lemma upper_hex_shape (b : bytes) :
  String.length (str_upper (bytes_hex b)) = (2 * length b)%nat ∧
  Forall (λ c, upper_hex_digit c = true)
    (String.list_ascii_of_string (str_upper (bytes_hex b))).
Proof.
  induction b as [|x b [IHl IHf]]; [by split; [|constructor]|].
  destruct (hex_pair_upper x) as [Hhi Hlo]. cbv zeta in Hhi, Hlo.
  cbn [bytes_hex str_upper String.length String.list_ascii_of_string length].
  split; [rewrite IHl; lia|]. by repeat (apply Forall_cons; split; [done|]).
Qed.

(** X17 — Certificate identifiers.  The identifier ends in eight
    characters, each a digit or a capital letter from [A] to [F], that
    spell the four bytes drawn from [secrets.token_hex]; two identifiers
    made in the same second are equal exactly when those four bytes are
    equal, so within a second only the random bytes keep identifiers
    apart. *)
Theorem certificate_ids_differ_by_their_random_bytes `{Backend} (ienv ienv' : IssueEnv) :
  id_clock ienv = id_clock ienv' →
  let random_part := str_upper (bytes_hex (id_entropy ienv <$> seq 0 4)) in
  _generate_certificate_id ienv =
    "BW-" +:+ strftime_compact (id_clock ienv) +:+ "-" +:+ random_part ∧
  String.length random_part = 8%nat ∧
  Forall (λ c, upper_hex_digit c = true) (String.list_ascii_of_string random_part) ∧
  (_generate_certificate_id ienv = _generate_certificate_id ienv' ↔
   ∀ i, (i < 4)%nat → id_entropy ienv i = id_entropy ienv' i).
Proof.
  intros Hclock random_part. split; [done|].
  destruct (upper_hex_shape (id_entropy ienv <$> seq 0 4)) as [Hl Hf].
  split; [done|]. split; [done|].
  unfold _generate_certificate_id. rewrite <- Hclock. split.
  - intros E. do 3 apply string_app_inv_head in E.
    pose proof (bytes_fromhex_hex (id_entropy ienv <$> seq 0 4)) as H1.
    pose proof (bytes_fromhex_hex (id_entropy ienv' <$> seq 0 4)) as H2.
    rewrite <- (bytes_fromhex_upper (bytes_hex (id_entropy ienv <$> seq 0 4))) in H1.
    rewrite E, bytes_fromhex_upper, H2 in H1. injection H1 as E0 E1 E2 E3.
    intros i Hi. by destruct i as [|[|[|[|]]]]; [..|lia].
  - intros E. simpl. by rewrite !E by lia.
Qed.

Lemma certificate_ids_differ_by_their_random_bytes_witness :
  let random_part := str_upper (bytes_hex (id_entropy sample_issue <$> seq 0 4)) in
  _generate_certificate_id (H := sample_backend) sample_issue =
    "BW-" +:+ strftime_compact (Backend := sample_backend) (id_clock sample_issue)
      +:+ "-" +:+ random_part ∧
  String.length random_part = 8%nat ∧
  Forall (λ c, upper_hex_digit c = true) (String.list_ascii_of_string random_part) ∧
  (_generate_certificate_id (H := sample_backend) sample_issue
     = _generate_certificate_id (H := sample_backend) sample_issue_again ↔
   ∀ i, (i < 4)%nat → id_entropy sample_issue i = id_entropy sample_issue_again i).
Proof.
  apply (certificate_ids_differ_by_their_random_bytes (H := sample_backend)
           sample_issue sample_issue_again).
  reflexivity.
Defined.

(** * logger.py *)

Lemma replace_char_sound (P : ascii → Prop) (old : ascii) (new s : text) :
  Forall P new → Forall (λ c, c ≠ old → P c) s → Forall P (replace_char old new s).
Proof.
  intros Hnew Hs. unfold replace_char. induction Hs as [|c s Hc Hs IH]; [constructor|].
  rewrite bind_cons. apply Forall_app. split; [|done].
  destruct (decide (c = old)); [done|]. by apply Forall_singleton, Hc.
Qed.

Lemma replace_char_absent (old : ascii) (new s : text) :
  old ∉ s → replace_char old new s = s.
Proof.
  unfold replace_char. induction s as [|c s IH]; [done|].
  intros Hn. apply not_elem_of_cons in Hn as [Hc Hs].
  rewrite bind_cons. destruct (decide (c = old)); [done|]. simpl. by rewrite IH.
Qed.

Lemma one_line_Forall (s : text) :
  one_line s ↔ Forall (λ c, c ≠ LF ∧ c ≠ CR ∧ c ≠ TAB) s.
Proof.
  unfold one_line. rewrite Forall_forall. split.
  - intros (H1 & H2 & H3) c Hc. repeat split; intros ->; done.
  - intros H. repeat split; intros Hin; by destruct (H _ Hin) as (? & ? & ?).
Qed.

Lemma sanitize_message_clean (s : text) :
  one_line s → (length s ≤ 1000)%nat → _sanitize_message s = s.
Proof.
  intros (H1 & H2 & H3) Hlen. unfold _sanitize_message.
  rewrite (replace_char_absent LF), (replace_char_absent CR),
    (replace_char_absent TAB) by done.
  destruct (Nat.ltb_spec 1000 (length s)); [lia|done].
Qed.

Lemma escaped_is_one_line (message : text) :
  Forall (λ c, c ≠ LF ∧ c ≠ CR ∧ c ≠ TAB)
    (replace_char TAB (lit "\t")
       (replace_char CR (lit "\r") (replace_char LF (lit "\n") message))).
Proof.
  apply replace_char_sound; [by repeat constructor|].
  eapply Forall_impl.
  - apply (replace_char_sound (λ c, c ≠ LF ∧ c ≠ CR) CR (lit "\r"));
      [by repeat constructor|].
    eapply Forall_impl.
    + apply (replace_char_sound (λ c, c ≠ LF) LF (lit "\n"));
        [by repeat constructor|].
      apply Forall_forall. by intros c _ Hc.
    + simpl. by intros c Hc Hne.
  - simpl. intros c [Hc1 Hc2] Hne. done.
Qed.

Lemma sanitize_message_shape (message : text) :
  one_line (_sanitize_message message) ∧ (length (_sanitize_message message) ≤ 1000)%nat.
Proof.
  pose proof (escaped_is_one_line message) as Hraw.
  unfold _sanitize_message.
  set (raw := replace_char TAB (lit "\t")
                (replace_char CR (lit "\r") (replace_char LF (lit "\n") message))) in *.
  destruct (Nat.ltb_spec 1000 (length raw)).
  - split.
    + apply one_line_Forall, Forall_app. split; [by apply Forall_take|].
      by repeat constructor.
    + rewrite length_app, length_take. change (length (lit "...")) with 3%nat. lia.
  - split; [by apply one_line_Forall|lia].
Qed.

(** X18 — Log messages are one line.  Whatever the message,
    [_sanitize_message] returns a text without line feed, carriage return
    or tab and of at most 1000 characters; a message that is already such
    a text is returned as it is, so sanitising twice changes nothing; a
    message that had to be shortened has exactly 1000 characters and ends
    in three dots. *)
Theorem sanitized_message_is_one_line (message : text) :
  let sanitized := _sanitize_message message in
  one_line sanitized ∧ (length sanitized ≤ 1000)%nat ∧
  _sanitize_message sanitized = sanitized ∧
  (one_line message → (length message ≤ 1000)%nat → sanitized = message) ∧
  (sanitized ≠ replace_char TAB (lit "\t")
                 (replace_char CR (lit "\r") (replace_char LF (lit "\n") message)) →
   length sanitized = 1000%nat ∧ drop 997 sanitized = lit "...").
Proof.
  intros sanitized.
  set (raw := replace_char TAB (lit "\t")
                (replace_char CR (lit "\r") (replace_char LF (lit "\n") message))).
  destruct (sanitize_message_shape message) as [Hone Hlen]. fold sanitized in Hone, Hlen.
  split; [done|]. split; [done|].
  split; [by apply sanitize_message_clean|].
  split; [by apply sanitize_message_clean|].
  subst sanitized. unfold _sanitize_message. fold raw.
  destruct (Nat.ltb_spec 1000 (length raw)); [|done]. intros _.
  split; [rewrite length_app, length_take; change (length (lit "...")) with 3%nat; lia|].
  rewrite drop_app_length'; [done|]. rewrite length_take. lia.
Qed.

Lemma dict_get_set (k k' v : text) (d : list (text * text)) :
  dict_get k' (dict_set k v d) = if decide (k = k') then Some v else dict_get k' d.
Proof.
  induction d as [|[k0 v0] d IH]; simpl.
  - by destruct (decide (k = k')).
  - destruct (decide (k0 = k)) as [->|Hne]; simpl.
    + destruct (decide (k = k')); [done|done].
    + destruct (decide (k0 = k')) as [->|Hne'].
      * by destruct (decide (k = k')); [congruence|].
      * done.
Qed.

Lemma dict_set_keys (k v : text) (d : list (text * text)) :
  NoDup d.*1 → NoDup (dict_set k v d).*1 ∧ ∀ k', k' ∈ (dict_set k v d).*1 ↔ k' = k ∨ k' ∈ d.*1.
Proof.
  induction d as [|[k0 v0] d IH]; simpl.
  - intros _. split; [apply NoDup_singleton|]. intros k'.
    rewrite elem_of_cons, elem_of_nil. tauto.
  - intros Hnd. apply NoDup_cons in Hnd as [Hk0 Hnd].
    destruct (decide (k0 = k)) as [->|Hne]; simpl.
    + split; [by apply NoDup_cons|]. intros k'. rewrite elem_of_cons. tauto.
    + destruct (IH Hnd) as [IHn IHk]. split.
      * apply NoDup_cons. split; [|done]. rewrite IHk. intros [?|?]; done.
      * intros k'. rewrite !elem_of_cons, IHk. tauto.
Qed.

Lemma dict_get_Some (k v : text) (d : list (text * text)) :
  dict_get k d = Some v → (k, v) ∈ d.
Proof.
  induction d as [|[k0 v0] d IH]; simpl; [done|].
  destruct (decide (k0 = k)) as [->|Hne].
  - intros [= ->]. apply list_elem_of_here.
  - intros H. by apply list_elem_of_further, IH.
Qed.

Lemma dict_get_elem (k v : text) (d : list (text * text)) :
  NoDup d.*1 → (k, v) ∈ d → dict_get k d = Some v.
Proof.
  induction d as [|[k0 v0] d IH]; simpl; intros Hnd Hin.
  - by apply elem_of_nil in Hin.
  - apply NoDup_cons in Hnd as [Hk0 Hnd].
    apply elem_of_cons in Hin as [[= -> ->]|Hin].
    + by destruct (decide (k0 = k0)).
    + destruct (decide (k0 = k)) as [->|Hne]; [|by apply IH].
      exfalso. apply Hk0. apply list_elem_of_fmap. by exists (k, v).
Qed.

Lemma ascii_lower_control (c : ascii) :
  ascii_lower c ≠ LF ∧ ascii_lower c ≠ CR ∧ ascii_lower c ≠ TAB ∨
  ascii_lower c = c.
Proof. destruct c as [[] [] [] [] [] [] [] []]; (by right) || (by left). Qed.

Lemma clean_key_one_line (key : text) : one_line key → one_line (clean_key key).
Proof.
  intros Hk. apply one_line_Forall. apply one_line_Forall in Hk.
  unfold clean_key. apply replace_char_sound; [by repeat constructor|].
  apply Forall_fmap. eapply Forall_impl; [exact Hk|].
  simpl. intros c Hc _. by destruct (ascii_lower_control c) as [?| ->].
Qed.

Lemma short_value_ok (value : text) :
  let v := _sanitize_message value in
  let v' := if (100 <? length v)%nat then take 97 v ++ lit "..." else v in
  one_line v' ∧ (length v' ≤ 100)%nat.
Proof.
  intros v v'. destruct (sanitize_message_shape value) as [Hone _].
  fold v in Hone. subst v'. destruct (Nat.ltb_spec 100 (length v)).
  - split.
    + apply one_line_Forall, Forall_app. split; [|by repeat constructor].
      by apply Forall_take, one_line_Forall.
    + rewrite length_app, length_take. change (length (lit "...")) with 3%nat. lia.
  - split; [done|lia].
Qed.

Lemma dict_get_key (k : text) (d : list (text * text)) :
  k ∈ d.*1 → is_Some (dict_get k d).
Proof.
  induction d as [|[k0 v0] d IH]; simpl; [by intros ?%elem_of_nil|].
  intros Hin. destruct (decide (k0 = k)); [by eexists|].
  apply elem_of_cons in Hin as [?|?]; [done|by apply IH].
Qed.

Lemma sanitize_context_snoc (context : list (text * text)) (key value : text) :
  _sanitize_context (context ++ [(key, value)]) =
    dict_set (clean_key key)
      (if is_sensitive (clean_key key) then lit "[REDACTED]"
       else if (100 <? length (_sanitize_message value))%nat
            then take 97 (_sanitize_message value) ++ lit "..."
            else _sanitize_message value)
      (_sanitize_context context).
Proof.
  unfold _sanitize_context. rewrite foldl_app. cbn [foldl].
  unfold is_sensitive, clean_key. by destruct (existsb _ sensitive_keys).
Qed.

(** What holds of the dictionary [_sanitize_context] builds. *)
Lemma sanitize_context_inv (context : list (text * text)) :
  NoDup (_sanitize_context context).*1 ∧
  (∀ k, k ∈ (_sanitize_context context).*1 ↔
        ∃ key value, (key, value) ∈ context ∧ k = clean_key key) ∧
  (∀ k v, dict_get k (_sanitize_context context) = Some v →
          one_line v ∧ (length v ≤ 100)%nat ∧
          (is_sensitive k = true → v = lit "[REDACTED]")).
Proof.
  induction context as [|[key value] context (IHn & IHk & IHv)] using rev_ind.
  { split; [constructor|]. split; [|done]. intros k. split.
    - by intros ?%elem_of_nil.
    - by intros (? & ? & ?%elem_of_nil & _). }
  rewrite sanitize_context_snoc.
  set (v' := if is_sensitive (clean_key key) then lit "[REDACTED]"
             else if (100 <? length (_sanitize_message value))%nat
                  then take 97 (_sanitize_message value) ++ lit "..."
                  else _sanitize_message value).
  destruct (dict_set_keys (clean_key key) v' _ IHn) as [Hn Hk].
  split; [done|]. split.
  - intros k. rewrite Hk, IHk. split.
    + intros [->|(key' & value' & Hin & ->)].
      * exists key, value. split; [|done]. apply elem_of_app. right.
        apply list_elem_of_here.
      * exists key', value'. split; [|done]. apply elem_of_app. by left.
    + intros (key' & value' & Hin & ->). apply elem_of_app in Hin as [Hin|Hin].
      * right. by exists key', value'.
      * apply list_elem_of_singleton in Hin as [= -> ->]. by left.
  - intros k v. rewrite dict_get_set.
    destruct (decide (clean_key key = k)) as [<-|Hne]; [|by apply IHv].
    intros [= <-]. subst v'.
    destruct (is_sensitive (clean_key key)).
    + split; [|split; [simpl; lia|done]].
      apply one_line_Forall. by repeat constructor.
    + destruct (short_value_ok value) as [Hone Hlen]. cbv zeta in Hone, Hlen.
      split; [exact Hone|split; [exact Hlen|done]].
Qed.

(** X19 — Sensitive context is redacted.  For keyword arguments whose
    keys are ASCII text, [_sanitize_context] files every argument under
    its cleaned key (lower case, spaces turned into underscores), each
    cleaned key once; the value filed under a key that has one of the
    sensitive words in it ([password], [key], [token], [hash], ...) is
    [[REDACTED]], also when several arguments share the cleaned key; and
    every value filed is at most 100 characters long and has no line
    feed, carriage return or tab in it. *)
Theorem sensitive_context_is_redacted (context : list (text * text)) :
  Forall (λ kv, ascii_only kv.1) context →
  let sanitized := _sanitize_context context in
  NoDup sanitized.*1 ∧
  (∀ key value, (key, value) ∈ context →
     ∃ v, dict_get (clean_key key) sanitized = Some v ∧
          (is_sensitive (clean_key key) = true → v = lit "[REDACTED]")) ∧
  (∀ k v, (k, v) ∈ sanitized →
     one_line v ∧ (length v ≤ 100)%nat ∧
     ∃ key value, (key, value) ∈ context ∧ k = clean_key key).
Proof.
  intros _ sanitized. destruct (sanitize_context_inv context) as (Hn & Hk & Hv).
  fold sanitized in Hn, Hk, Hv. split; [done|]. split.
  - intros key value Hin.
    destruct (dict_get_key (clean_key key) sanitized) as [v Hget].
    { apply Hk. by exists key, value. }
    exists v. split; [done|]. by apply (Hv _ _ Hget).
  - intros k v Hin. destruct (Hv k v (dict_get_elem k v sanitized Hn Hin)) as (? & ? & _).
    split; [done|]. split; [done|]. apply Hk. apply list_elem_of_fmap. by exists (k, v).
Qed.

Lemma sensitive_context_is_redacted_witness :
  let sanitized := _sanitize_context sample_kwargs in
  NoDup sanitized.*1 ∧
  (∀ key value, (key, value) ∈ sample_kwargs →
     ∃ v, dict_get (clean_key key) sanitized = Some v ∧
          (is_sensitive (clean_key key) = true → v = lit "[REDACTED]")) ∧
  (∀ k v, (k, v) ∈ sanitized →
     one_line v ∧ (length v ≤ 100)%nat ∧
     ∃ key value, (key, value) ∈ sample_kwargs ∧ k = clean_key key).
Proof.
  apply (sensitive_context_is_redacted sample_kwargs).
  unfold ascii_only. apply (bool_decide_unpack _). by vm_compute.
Defined.

Lemma one_line_app (s t : text) : one_line s → one_line t → one_line (s ++ t).
Proof. rewrite !one_line_Forall. intros. by apply Forall_app. Qed.

Lemma str_join_one_line (sep : text) (parts : list text) :
  one_line sep → Forall one_line parts → one_line (str_join sep parts).
Proof.
  intros Hsep Hparts. induction Hparts as [|p parts Hp Hparts IH].
  { apply one_line_Forall. constructor. }
  destruct parts as [|q parts]; [done|].
  change (str_join sep (p :: q :: parts)) with (p ++ sep ++ str_join sep (q :: parts)).
  by repeat apply one_line_app.
Qed.

(** X20 — A log record is one line.  The text [_log] hands to the
    logging library starts with the sanitised message and, when the
    keyword arguments have ASCII keys without line feed, carriage return
    or tab, has none of these three characters in it, whatever the
    message and the values are: neither can start a second record. *)
Theorem log_record_is_one_line (message : text) (kwargs : list (text * text)) :
  Forall (λ kv, ascii_only kv.1 ∧ one_line kv.1) kwargs →
  one_line (_log message kwargs) ∧
  _sanitize_message message `prefix_of` _log message kwargs ∧
  (kwargs = [] → _log message kwargs = _sanitize_message message).
Proof.
  intros Hkeys. destruct (sanitize_message_shape message) as [Hmsg _].
  unfold _log. destruct kwargs as [|kv kwargs].
  { split; [done|]. split; [|done]. exists []. by rewrite app_nil_r. }
  set (context := kv :: kwargs) in *.
  split; [|split; [by eexists|done]].
  apply one_line_app; [done|]. apply one_line_app.
  { apply one_line_Forall. by repeat constructor. }
  apply str_join_one_line.
  { apply one_line_Forall. by repeat constructor. }
  destruct (sanitize_context_inv context) as (Hn & Hk & Hv).
  apply Forall_fmap, Forall_forall. intros [k v] Hin. simpl.
  destruct (Hv k v (dict_get_elem k v _ Hn Hin)) as (Hone & _).
  apply (one_line_app k); [|apply (one_line_app ["="%char] v); [|done]].
  - assert (k ∈ (_sanitize_context context).*1) as Hkin
      by (apply list_elem_of_fmap; by exists (k, v)).
    apply Hk in Hkin as (key & value & Hin' & ->).
    apply clean_key_one_line.
    rewrite Forall_forall in Hkeys. by destruct (Hkeys _ Hin') as [_ ?].
  - apply one_line_Forall. by repeat constructor.
Qed.

Lemma log_record_is_one_line_witness :
  one_line (_log sample_message sample_kwargs) ∧
  _sanitize_message sample_message `prefix_of` _log sample_message sample_kwargs ∧
  (sample_kwargs = [] → _log sample_message sample_kwargs = _sanitize_message sample_message).
Proof.
  apply (log_record_is_one_line sample_message sample_kwargs).
  unfold ascii_only, one_line. apply (bool_decide_unpack _). by vm_compute.
Defined.

(** * device_detector.py and cli/main.py *)


Section cli_facts.
Context `{Backend}.

End cli_facts.


Section cli_runs.
Context `{Backend}.


(** X23 — The [wipe] command on a regular file.  When nothing disturbs
    the run (the file exists, opens, answers the size query and can be
    removed; no write fails) and the fresh key signs, the command returns
    0 and its certificate records a completed wipe of the whole file with
    every declared pass; after [zero_fill] or [one_fill] every byte the
    passes left is the fill byte.  The certificate verifies under the
    generator that made it when the signature scheme is sound.  Its
    [verification_hash] is unset although the command was run with
    verification: a file is never read back. *)
Theorem wipe_command_on_a_file (fuel : nat) (env : Env) (cenv : CliEnv)
    (content : bytes) (path : string) (scheme : WipePattern) (verify : bool)
    (cert_output : option string) :
  cancel_after env = None → write_fault env = None →
  path_exists env = true → path_isfile env = true → size_query_fails env = false →
  opens_for_read env = true → opens_for_update env = true → remove_error env = None →
  key_usable (fresh_key cenv) →
  (length content ≤ fuel)%nat → (35 ≤ fuel)%nat →
  ∃ o s c,
    wipe fuel env cenv content path scheme verify true cert_output = Some o ∧
    returned o = 0 ∧ wiped o = Some s ∧ issued o = Some c ∧
    status (st_result s) = COMPLETED ∧
    length (st_data s) = length content ∧
    (∀ b, fill_byte scheme = Some b → st_data s = replicate (length content) b) ∧
    Cert.status c = "completed"%string ∧
    Cert.device_path c = path ∧
    Cert.wipe_pattern c = WipePattern_value scheme ∧
    Cert.device_size_bytes c = Z.of_nat (length content) ∧
    Cert.bytes_wiped c = Z.of_nat (length content) ∧
    Cert.passes_completed c = _get_pass_count scheme ∧
    Cert.verification_hash c = None ∧
    (pss_sound →
     verify_certificate
       (new_CertificateGenerator (fresh_key cenv)
          "Ministry of Mines - JNARDDC" "BitWipers System") c = true).
Proof.
  intros Hc Hf Hex Hfile Hq Hrd Hupd Hrm Hkey Hfuel Hfuel'.
  destruct (file_wipe_completes (mkDataWiper 4096 true verify) env content path
              scheme true fuel)
    as (s & block & Hrun & Hst & _ & Htp & Hpc & Htb & Hbw & _ & _ & Hvh & Hlen & _ & _
        & _ & Hfill & Hdp & Hpat & _); try done.
  set (g := new_CertificateGenerator (fresh_key cenv)
              "Ministry of Mines - JNARDDC" "BitWipers System").
  destruct (generate_certificate_returns g (st_result s) None (issue cenv) Hkey)
    as [c Hgen].
  eexists _, s, c. split.
  { unfold wipe, validate_device. rewrite Hex, Hrd, Hupd, Hfile, Hq. simpl.
    rewrite Hrun. rewrite Hst. simpl. fold g. rewrite Hgen. reflexivity. }
  simpl. split; [done|]. split; [done|]. split; [done|]. split; [done|].
  split; [done|]. split; [done|].
  assert (pss_sound → verify_certificate g c = true) as Hver.
  { intros Hsound.
    exact (issued_certificate_verifies (fresh_key cenv) _ _ (st_result s) None
             (issue cenv) c Hsound Hgen). }
  assert (Cert.status c = WipeStatus_value (status (st_result s)) ∧
          Cert.device_path c = device_path (st_result s) ∧
          Cert.wipe_pattern c = WipePattern_value (pattern (st_result s)) ∧
          Cert.device_size_bytes c = total_bytes (st_result s) ∧
          Cert.bytes_wiped c = bytes_wiped (st_result s) ∧
          Cert.passes_completed c = passes_completed (st_result s) ∧
          Cert.verification_hash c = verification_hash (st_result s))
    as (-> & -> & -> & -> & -> & -> & ->).
  { revert Hgen. unfold generate_certificate.
    destruct (_sign_data _ _ _) as [?|sig]; [done|]. by intros [= <-]. }
  by rewrite Hst, Hbw, Hpc, Htb, Hvh, Hdp, Hpat.
Qed.
End cli_runs.


Lemma wipe_command_on_a_file_witness :
  ∃ o s c,
    wipe (H := sample_backend) 35 sample_env sample_cli_env sample_content
      "/tmp/secret.bin" ZERO_FILL true true None = Some o ∧
    returned o = 0 ∧ wiped o = Some s ∧ issued o = Some c ∧
    status (st_result s) = COMPLETED ∧
    length (st_data s) = length sample_content ∧
    (∀ b, fill_byte ZERO_FILL = Some b →
          st_data s = replicate (length sample_content) b) ∧
    Cert.status c = "completed"%string ∧
    Cert.device_path c = "/tmp/secret.bin"%string ∧
    Cert.wipe_pattern c = WipePattern_value ZERO_FILL ∧
    Cert.device_size_bytes c = Z.of_nat (length sample_content) ∧
    Cert.bytes_wiped c = Z.of_nat (length sample_content) ∧
    Cert.passes_completed c = _get_pass_count ZERO_FILL ∧
    Cert.verification_hash c = None ∧
    (pss_sound (H := sample_backend) →
     verify_certificate (H := sample_backend)
       (new_CertificateGenerator (H := sample_backend) (fresh_key sample_cli_env)
          "Ministry of Mines - JNARDDC" "BitWipers System") c = true).
Proof.
  apply (wipe_command_on_a_file (H := sample_backend) 35 sample_env sample_cli_env
           sample_content "/tmp/secret.bin" ZERO_FILL true None);
    try (vm_compute; (reflexivity || lia)).
  apply sample_key_usable.
Defined.
